(** * AntiFitness catalogue: cart store, slug normaliser, catalogue
      normaliser, query engine and checkout message composer

    A shallow embedding of the TypeScript sources

      - [src/lib/cart.ts]                       (cart store)
      - [src/app/catalogo/page.tsx]             (text helpers, query engine)
      - [src/app/produto/[slug]/produto-client.tsx] (slug normaliser)
      - [src/lib/db/products.ts]                (catalogue normaliser)
      - [src/app/carrinho/page.tsx]             (message composer)

    JavaScript strings are sequences of UTF-16 code units, numbers that the
    code only uses as integers are [Z], [localStorage] is a finite map, and
    code that can throw runs in an exception (and, for the cart, state)
    monad.  Integer arithmetic stands for the binary64 arithmetic of the
    platform on the safe integers (module [Numbers]); a property that rests
    on a law of exact addition states that range as a hypothesis. *)

From Stdlib Require Import ZArith NArith QArith Qround Ascii String List Lia.
From Stdlib Require Import SpecFloat.
From stdpp Require Import base option list gmap strings pretty.

Local Open Scope Z_scope.

(* ===================================================================== *)
(** ** JavaScript strings                                                 *)
(* ===================================================================== *)

Module JsString.

(** A JavaScript string: its UTF-16 code units. *)
Definition jsstring : Type := list N.

(** What [decodeURIComponent] sees while it scans its argument: a code unit
    copied as it is, or the octet denoted by an escape [%XX]. *)
Inductive token : Type :=
  | Lit (c : N)
  | Oct (b : N).

Definition PERCENT : N := 37.
Definition QUESTION : N := 63.
Definition HASH : N := 35.

Definition hexDigit (c : N) : option N :=
  if ((48 <=? c) && (c <=? 57))%N then Some (c - 48)%N
  else if ((65 <=? c) && (c <=? 70))%N then Some (c - 55)%N
  else if ((97 <=? c) && (c <=? 102))%N then Some (c - 87)%N
  else None.

Definition hexByte (h1 h2 : N) : option N :=
  match hexDigit h1, hexDigit h2 with
  | Some a, Some b => Some (16 * a + b)%N
  | _, _ => None
  end.

(** First pass of [decodeURIComponent]: every [%] must be followed by two
    hexadecimal digits. *)
Fixpoint unescape (s : jsstring) : option (list token) :=
  match s with
  | [] => Some []
  | c :: r =>
      if (c =? PERCENT)%N then
        match r with
        | h1 :: h2 :: r2 =>
            match hexByte h1 h2 with
            | Some b => cons (Oct b) <$> unescape r2
            | None => None
            end
        | _ => None
        end
      else cons (Lit c) <$> unescape r
  end.

Definition isContinuation (b : N) : bool := ((128 <=? b) && (b <=? 191))%N.

Definition payload (b : N) : N := N.land b 63.

(** UTF-16 encoding of a code point. *)
Definition utf16 (cp : N) : jsstring :=
  if (cp <? 65536)%N then [cp]
  else
    let v := (cp - 65536)%N in
    [(55296 + N.shiftr v 10)%N; (56320 + N.land v 1023)%N].

Definition isSurrogate (cp : N) : bool := ((55296 <=? cp) && (cp <=? 57343))%N.

(** Second pass: the octets must form well-formed UTF-8 (no stray
    continuation octet, no overlong form, no surrogate, nothing above
    U+10FFFF), each multi-octet character written with escapes only. *)
Fixpoint utf8 (ts : list token) : option jsstring :=
  match ts with
  | [] => Some []
  | Lit c :: r => cons c <$> utf8 r
  | Oct b :: r =>
      if (b <? 128)%N then cons b <$> utf8 r
      else if (b <? 192)%N then None
      else if (b <? 224)%N then
        match r with
        | Oct b1 :: r1 =>
            let cp := (N.shiftl (N.land b 31) 6 + payload b1)%N in
            if isContinuation b1 && (128 <=? cp)%N
            then app (utf16 cp) <$> utf8 r1 else None
        | _ => None
        end
      else if (b <? 240)%N then
        match r with
        | Oct b1 :: Oct b2 :: r2 =>
            let cp := (N.shiftl (N.land b 15) 12 + N.shiftl (payload b1) 6
                       + payload b2)%N in
            if isContinuation b1 && isContinuation b2
               && (2048 <=? cp)%N && negb (isSurrogate cp)
            then app (utf16 cp) <$> utf8 r2 else None
        | _ => None
        end
      else if (b <? 248)%N then
        match r with
        | Oct b1 :: Oct b2 :: Oct b3 :: r3 =>
            let cp := (N.shiftl (N.land b 7) 18 + N.shiftl (payload b1) 12
                       + N.shiftl (payload b2) 6 + payload b3)%N in
            if isContinuation b1 && isContinuation b2 && isContinuation b3
               && (65536 <=? cp)%N && (cp <=? 1114111)%N
            then app (utf16 cp) <$> utf8 r3 else None
        | _ => None
        end
      else None
  end.

(** A string literal of this file (its UTF-8 source text) as a JavaScript
    string. *)
Definition js (s : string) : jsstring :=
  default [] (utf8 (map (fun a => Oct (N_of_ascii a)) (list_ascii_of_string s))).

(** [String.prototype.trim]: WhiteSpace and LineTerminator code units. *)
Definition isWhiteSpace (c : N) : bool :=
  (((9 <=? c) && (c <=? 13)) || (c =? 32) || (c =? 160) || (c =? 5760)
   || ((8192 <=? c) && (c <=? 8202)) || (c =? 8232) || (c =? 8233)
   || (c =? 8239) || (c =? 8287) || (c =? 12288) || (c =? 65279))%N.

Fixpoint trimStart (s : jsstring) : jsstring :=
  match s with
  | [] => []
  | c :: r => if isWhiteSpace c then trimStart r else s
  end.

(** A string that does not start with white space. *)
Definition noLeadingSpace (s : jsstring) : Prop :=
  match s with
  | [] => True
  | c :: _ => isWhiteSpace c = false
  end.

Definition trimEnd (s : jsstring) : jsstring := rev (trimStart (rev s)).

Definition trim (s : jsstring) : jsstring := trimEnd (trimStart s).

(** [s.split(sep)[0]] for a one-character separator: the part of [s] before
    the first [sep], all of [s] when there is none. *)
Fixpoint splitHead (sep : N) (s : jsstring) : jsstring :=
  match s with
  | [] => []
  | c :: r => if (c =? sep)%N then [] else c :: splitHead sep r
  end.

Fixpoint startsWith (p s : jsstring) : bool :=
  match p, s with
  | [], _ => true
  | _ :: _, [] => false
  | a :: p', b :: s' => (a =? b)%N && startsWith p' s'
  end.

(** [String.prototype.includes]. *)
Fixpoint includes (s p : jsstring) : bool :=
  startsWith p s ||
  match s with
  | [] => false
  | _ :: s' => includes s' p
  end.

(** [s] has an occurrence of the code unit [c]. *)
Definition hasUnit (c : N) (s : jsstring) : bool := existsb (N.eqb c) s.

(** A string without [%], [?] and [#]. *)
Definition isPlain (s : jsstring) : bool :=
  negb (hasUnit PERCENT s || hasUnit QUESTION s || hasUnit HASH s).

(** A string in a boolean position: only the empty string is falsy. *)
Definition truthy (s : jsstring) : bool :=
  match s with [] => false | _ => true end.

(** Decimal rendering of an integer, as a template literal does it. *)
Definition ofZ (n : Z) : jsstring := js (pretty n).

(** [Array.prototype.join]. *)
Fixpoint join (sep : jsstring) (parts : list jsstring) : jsstring :=
  match parts with
  | [] => []
  | [p] => p
  | p :: rest => p ++ sep ++ join sep rest
  end.

(** [String.prototype.toLowerCase] and [String.prototype.normalize("NFD")]
    follow the Unicode character tables, which are not part of the
    repository: the development is parametric in them. *)
Class Unicode : Type := {
  toLowerCase : jsstring -> jsstring;
  normalizeNFD : jsstring -> jsstring
}.

(** The three facts about the case mapping that the proofs use: the empty
    string stays empty, lower-casing twice changes nothing more, and a string
    without white space at its ends has none after lower-casing. *)
Record LawfulCase (U : Unicode) : Prop := {
  toLowerCase_nil : toLowerCase [] = [];
  toLowerCase_idem : forall s, toLowerCase (toLowerCase s) = toLowerCase s;
  toLowerCase_trimmed :
    forall s, trim s = s -> trim (toLowerCase s) = toLowerCase s
}.

(** The tables restricted to Basic Latin: [A]..[Z] go to [a]..[z], every
    other code unit stays, and nothing decomposes. *)
Definition lowerUnit (c : N) : N :=
  if ((65 <=? c) && (c <=? 90))%N then (c + 32)%N else c.

Definition asciiLower (s : jsstring) : jsstring := map lowerUnit s.

Definition basicLatin : Unicode :=
  {| toLowerCase := asciiLower; normalizeNFD := fun s => s |}.

End JsString.

Import JsString.

(** Case analysis on every comparison of code units in the goal. *)
Ltac decide_comparisons :=
  repeat (match goal with
          | |- context [(?a <=? ?b)%N] => destruct (N.leb_spec a b)
          | |- context [(?a =? ?b)%N] => destruct (N.eqb_spec a b)
          end; try lia);
  try reflexivity.

(* ===================================================================== *)
(** ** Exceptions                                                         *)
(* ===================================================================== *)

Inductive Error : Type :=
  | URIError
  | SyntaxError
  | TypeError
  | StorageError
  | QueryError (message : jsstring).

(** The outcome of running code that may throw. *)
Inductive outcome (A : Type) : Type :=
  | Return (a : A)
  | Raise (e : Error).
Arguments Return {A} a.
Arguments Raise {A} e.

Definition decodeURIComponent (s : jsstring) : outcome jsstring :=
  match unescape s ≫= utf8 with
  | Some r => Return r
  | None => Raise URIError
  end.

(** A value of TypeScript type [unknown], as far as [typeof x === "string"]
    tells. *)
Inductive unknown : Type :=
  | IsString (s : jsstring)
  | NotString.

(* ===================================================================== *)
(** ** Cart store ([src/lib/cart.ts])                                     *)
(* ===================================================================== *)

Module Cart.

Record CartItem : Type := mkCartItem {
  sku : jsstring;
  name : jsstring;
  photo : option jsstring;
  variantLabel : option jsstring;
  qty : Z
}.

(** [{ ...item, qty: q }] *)
Definition withQty (item : CartItem) (q : Z) : CartItem :=
  {| sku := sku item; name := name item; photo := photo item;
     variantLabel := variantLabel item; qty := q |}.

Definition STORAGE_KEY : jsstring := js "af_cart_v1".
Definition CART_EVENT : jsstring := js "af:cart-changed".

(** What [JSON.parse] makes of a stored text. *)
Inductive JsonValue : Type :=
  | JsonArray (items : list CartItem)
  | JsonOther.

(** The text held in a [localStorage] slot, up to what [JSON.parse] makes of
    it: the empty string, a text that is not JSON, or the JSON text of a
    value.  [JSON.stringify] of a cart followed by [JSON.parse] gives the cart
    back, which this representation builds in. *)
Inductive StoredText : Type :=
  | EmptyText
  | NotJson
  | JsonText (v : JsonValue).

(** The part of the browser the cart store touches. *)
Record World : Type := mkWorld {
  windowDefined : bool;                  (* [typeof window !== "undefined"] *)
  readFails : bool;                      (* [localStorage.getItem] throws   *)
  writeFails : bool;                     (* [localStorage.setItem] throws   *)
  localStorage : gmap jsstring StoredText;
  dispatched : list jsstring             (* events sent to [window], latest first *)
}.

(** State and exception monad of the store's code. *)
Definition M (A : Type) : Type := World -> outcome A * World.

Definition ret {A} (a : A) : M A := fun w => (Return a, w).

Definition bind {A B} (m : M A) (k : A -> M B) : M B :=
  fun w =>
    match m w with
    | (Return a, w') => k a w'
    | (Raise e, w') => (Raise e, w')
    end.

Notation "'let*' x ':=' m 'in' k" := (bind m (fun x => k))
  (at level 10, x name, m at level 100, k at level 200).
Notation "m >> k" := (bind m (fun _ => k))
  (at level 100, k at level 200, right associativity).

Definition throw {A} (e : Error) : M A := fun w => (Raise e, w).

(** [try { body } catch { handler }] *)
Definition tryCatch {A} (body : M A) (handler : M A) : M A :=
  fun w =>
    match body w with
    | (Return a, w') => (Return a, w')
    | (Raise _, w') => handler w'
    end.

Definition typeofWindowUndefined : M bool :=
  fun w => (Return (negb (windowDefined w)), w).

Definition getItem (key : jsstring) : M (option StoredText) :=
  fun w =>
    if readFails w then (Raise StorageError, w)
    else (Return (localStorage w !! key), w).

Definition setItem (key : jsstring) (text : StoredText) : M unit :=
  fun w =>
    if writeFails w then (Raise StorageError, w)
    else (Return tt,
          {| windowDefined := windowDefined w; readFails := readFails w;
             writeFails := writeFails w;
             localStorage := <[key := text]> (localStorage w);
             dispatched := dispatched w |}).

Definition dispatchEvent (event : jsstring) : M unit :=
  fun w =>
    (Return tt,
     {| windowDefined := windowDefined w; readFails := readFails w;
        writeFails := writeFails w; localStorage := localStorage w;
        dispatched := event :: dispatched w |}).

Definition JSON_parse (text : StoredText) : M JsonValue :=
  match text with
  | EmptyText | NotJson => throw SyntaxError
  | JsonText v => ret v
  end.

Definition JSON_stringify (items : list CartItem) : StoredText :=
  JsonText (JsonArray items).

Definition emitCartChanged : M unit :=
  let* noWindow := typeofWindowUndefined in
  if noWindow then ret tt else dispatchEvent CART_EVENT.

Definition getCartEventName : jsstring := CART_EVENT.

Definition getCart : M (list CartItem) :=
  let* noWindow := typeofWindowUndefined in
  if noWindow then ret []
  else
    tryCatch
      (let* raw := getItem STORAGE_KEY in
       match raw with
       | None | Some EmptyText => ret []          (* [if (!raw) return []] *)
       | Some text =>
           let* parsed := JSON_parse text in
           ret (match parsed with
                | JsonArray items => items        (* [Array.isArray(parsed)] *)
                | JsonOther => []
                end)
       end)
      (ret []).

Definition setCart (items : list CartItem) : M unit :=
  let* noWindow := typeofWindowUndefined in
  if noWindow then ret tt
  else
    setItem STORAGE_KEY (JSON_stringify items) >>
    emitCartChanged.

(** [Pick<CartItem, "sku" | "variantLabel">]: anything with these two
    fields. *)
Class HasIdentity (A : Type) : Type := {
  identSku : A -> jsstring;
  identVariantLabel : A -> option jsstring
}.

Definition keyOf {A} `{HasIdentity A} (item : A) : jsstring :=
  identSku item ++ js "::" ++ default (js "default") (identVariantLabel item).

#[export] Instance CartItem_identity : HasIdentity CartItem :=
  {| identSku := sku; identVariantLabel := variantLabel |}.

(** The test [keyOf(i) === k]. *)
Definition sameKey (k : jsstring) (i : CartItem) : bool :=
  bool_decide (keyOf i = k).

(** [Array.prototype.findIndex]: the index of the first element that
    satisfies [p], [-1] when there is none. *)
Fixpoint findIndexFrom {A} (p : A -> bool) (i : Z) (l : list A) : Z :=
  match l with
  | [] => -1
  | x :: l' => if p x then i else findIndexFrom p (i + 1) l'
  end.

Definition findIndex {A} (p : A -> bool) (l : list A) : Z :=
  findIndexFrom p 0 l.

(** [items[idx]!] then a field read: a [TypeError] when the slot is empty. *)
Definition elementAt {A} (l : list A) (idx : Z) : M A :=
  match l !! Z.to_nat idx with
  | Some x => ret x
  | None => throw TypeError
  end.

Definition addToCart (input : CartItem) : M unit :=
  let* items := getCart in
  let k := keyOf input in
  let idx := findIndex (fun i => bool_decide (keyOf i = k)) items in
  let* items' :=
    (if bool_decide (0 <= idx) then
       let* current := elementAt items idx in
       ret (<[Z.to_nat idx :=
                withQty current (Z.max 1 (qty current + Z.max 1 (qty input)))]>
              items)
     else ret (items ++ [withQty input (Z.max 1 (qty input))])) in
  setCart items'.

Record UpdateParams : Type := mkUpdateParams {
  upSku : jsstring;
  upVariantLabel : option jsstring;
  upQty : Z
}.

#[export] Instance UpdateParams_identity : HasIdentity UpdateParams :=
  {| identSku := upSku; identVariantLabel := upVariantLabel |}.

(** The callback of [.map] in [updateCartItem]. *)
Definition replaceQty (k : jsstring) (params : UpdateParams) (i : CartItem)
  : CartItem :=
  if bool_decide (keyOf i <> k) then i else withQty i (upQty params).

Definition updateCartItem (params : UpdateParams) : M unit :=
  let* items := getCart in
  let k := keyOf params in
  let next :=
    filter (fun i => 0 < qty i) (map (replaceQty k params) items) in
  setCart next.

Definition updateQty : UpdateParams -> M unit := updateCartItem.

Record RemoveParams : Type := mkRemoveParams {
  rmSku : jsstring;
  rmVariantLabel : option jsstring
}.

#[export] Instance RemoveParams_identity : HasIdentity RemoveParams :=
  {| identSku := rmSku; identVariantLabel := rmVariantLabel |}.

Definition removeCartItem (params : RemoveParams) : M unit :=
  let* items := getCart in
  let k := keyOf params in
  setCart (filter (fun i => keyOf i <> k) items).

Definition clearCart : M unit := setCart [].

(** The world after a call, and the cart a reader sees in a world. *)
Definition exec {A} (m : M A) (w : World) : World := snd (m w).

Definition getAll (w : World) : list CartItem :=
  match fst (getCart w) with
  | Return items => items
  | Raise _ => []
  end.

(** A browser whose storage works. *)
Definition Browser (w : World) : Prop :=
  windowDefined w = true /\ readFails w = false /\ writeFails w = false.

(** A variant label that is absent, or the literal ["default"]. *)
Definition isDefaultLabel (l : option jsstring) : Prop :=
  l = None \/ l = Some (js "default").

(** A call that returns normally. *)
Definition succeeds {A} (m : M A) (w : World) : Prop :=
  exists a, fst (m w) = Return a.

(** A browser with nothing stored, and the line of the spec's scenario. *)
Definition emptyBrowser : World :=
  {| windowDefined := true; readFails := false; writeFails := false;
     localStorage := ∅; dispatched := [] |}.

Definition stockedBrowser (items : list CartItem) : World :=
  {| windowDefined := true; readFails := false; writeFails := false;
     localStorage := {[ STORAGE_KEY := JSON_stringify items ]};
     dispatched := [] |}.

Definition scenarioItem (n : Z) : CartItem :=
  {| sku := js "A"; name := js "Amendoim"; photo := None;
     variantLabel := Some (js "250g"); qty := n |}.

(** The storage invariant of the spec, on a list of lines. *)
Definition CartInvariant (items : list CartItem) : Prop :=
  NoDup (map keyOf items) /\ Forall (fun i => 0 < qty i) items.

End Cart.

(* ===================================================================== *)
(** ** Numbers                                                            *)
(* ===================================================================== *)

Module Numbers.

(** Quantities are JavaScript numbers, that is binary64 values.  The model
    keeps the integer-valued ones, as [Z]: on them [Number] and [Math.floor]
    are the identity and [Number.isFinite] holds.  The sum of two integers is
    exact in binary64 as long as the operands and the result are safe
    integers, at most [Number.MAX_SAFE_INTEGER] in absolute value; beyond
    that range it is rounded. *)
Definition MAX_SAFE_INTEGER : Z := 2 ^ 53 - 1.

(** [Number.isFinite] on an integer-valued number. *)
Definition isFinite (n : Z) : bool := true.

(** The binary64 value of an integer: the nearest one, ties to even. *)
Definition toBinary64 (n : Z) : spec_float :=
  binary_normalize 53 1024 n 0 false.

(** The integer a binary64 value stands for, when it stands for one. *)
Definition ofBinary64 (x : spec_float) : option Z :=
  match x with
  | S754_zero _ => Some 0
  | S754_finite s m e =>
      if 0 <=? e then Some (cond_Zopp s (Z.pos m * 2 ^ e))
      else if Z.pos m mod 2 ^ (- e) =? 0
           then Some (cond_Zopp s (Z.pos m / 2 ^ (- e)))
           else None
  | _ => None
  end.

(** The [+] of the platform on two integers: the IEEE 754 sum of their
    binary64 values. *)
Definition plus64 (a b : Z) : option Z :=
  ofBinary64 (SFadd 53 1024 (toBinary64 a) (toBinary64 b)).

End Numbers.

(* ===================================================================== *)
(** ** Text helpers ([src/app/catalogo/page.tsx],
       [src/app/produto/[slug]/produto-client.tsx])                       *)
(* ===================================================================== *)

Module Text.
Section WithUnicode.
Context {U : Unicode}.

(** [Math.min(Math.max(n, min), max)] *)
Definition clamp (n min max : Z) : Z := Z.min (Z.max n min) max.

Definition normalizeText (input : unknown) : jsstring :=
  match input with
  | IsString s => toLowerCase (trim s)
  | NotString => []
  end.

(** The same function is declared in both files. *)
Definition normalizeSlug (input : unknown) : jsstring :=
  match input with
  | NotString => []
  | IsString s =>
      let noQuery := splitHead HASH (splitHead QUESTION s) in
      match decodeURIComponent noQuery with
      | Return decoded => toLowerCase (trim decoded)
      | Raise _ => toLowerCase (trim noQuery)
      end
  end.

Definition PLACEHOLDER : jsstring := js "/placeholder.png".

Definition safeImageSrc (src : unknown) : jsstring :=
  match src with
  | NotString => PLACEHOLDER
  | IsString s0 =>
      let s := trim s0 in
      if bool_decide (0 < Z.of_nat (length s)) then s else PLACEHOLDER
  end.

End WithUnicode.
End Text.

(* ===================================================================== *)
(** ** Catalogue normaliser ([src/lib/db/products.ts])                    *)
(* ===================================================================== *)

Module Catalog.

(** A row of table [products].  The columns are nullable at run time, which
    is what the code's [??] and [||] guard against. *)
Record DbProduct : Type := mkDbProduct {
  db_sku : jsstring;
  db_name : option jsstring;
  db_description : option jsstring;
  photo_url : option jsstring;
  db_category : option jsstring
}.

Record DbVariant : Type := mkDbVariant {
  db_id : jsstring;
  product_sku : jsstring;
  db_label : jsstring;
  sort_order : Z
}.

Inductive Status : Type := ENCOMENDA.

Record Variant : Type := mkVariant {
  variant_id : jsstring;
  label : jsstring;
  variant_status : Status
}.

Record CatalogProduct : Type := mkCatalogProduct {
  id : jsstring;
  slug : jsstring;
  name : jsstring;
  description : jsstring;
  images : list jsstring;
  status : Status;
  category : jsstring;
  variants : list Variant
}.

(** The answer of a Supabase query: [{ data, error }]. *)
Record QueryResult (A : Type) : Type := mkQueryResult {
  data : option (list A);
  error : option jsstring
}.
Arguments data {A} _.
Arguments error {A} _.

Definition HYPHEN : N := 45.

Definition isCombiningMark (c : N) : bool := ((768 <=? c) && (c <=? 879))%N.

Definition isLowerAlnum (c : N) : bool :=
  (((97 <=? c) && (c <=? 122)) || ((48 <=? c) && (c <=? 57)))%N.

(** [.replace(/[^a-z0-9]+/g, "-")]; [inRun] tells that the previous code unit
    was already replaced. *)
Fixpoint hyphenate (inRun : bool) (s : jsstring) : jsstring :=
  match s with
  | [] => []
  | c :: r =>
      if isLowerAlnum c then c :: hyphenate false r
      else if inRun then hyphenate true r
      else HYPHEN :: hyphenate true r
  end.

Fixpoint dropHyphens (s : jsstring) : jsstring :=
  match s with
  | [] => []
  | c :: r => if (c =? HYPHEN)%N then dropHyphens r else s
  end.

(** [.replace(/(^-+|-+$)/g, "")] *)
Definition stripHyphens (s : jsstring) : jsstring :=
  rev (dropHyphens (rev (dropHyphens s))).

Section WithUnicode.
Context {U : Unicode}.

Definition slugify (name : jsstring) : jsstring :=
  stripHyphens
    (hyphenate false
       (trim (toLowerCase
                (filter (fun c => isCombiningMark c = false)
                        (normalizeNFD name))))).

Definition normalizeCategory (input : unknown) : jsstring :=
  match input with
  | NotString => []
  | IsString s => trim s
  end.

(** [a || b] on strings that may be [null]. *)
Definition orString (a : option jsstring) (b : jsstring) : jsstring :=
  match a with
  | Some s => if truthy s then s else b
  | None => b
  end.

(** Step 3 of [fetchCatalogProducts]: the variants grouped by SKU, each group
    in the order of arrival. *)
Definition indexBySku (variants : list DbVariant)
  : gmap jsstring (list DbVariant) :=
  foldl (fun bySku v =>
           match bySku !! product_sku v with
           | Some arr => <[product_sku v := arr ++ [v]]> bySku
           | None => <[product_sku v := [v]]> bySku
           end)
        ∅ variants.

(** Step 4: the view model of one product. *)
Definition toCatalogProduct (bySku : gmap jsstring (list DbVariant))
    (p : DbProduct) : CatalogProduct :=
  let v := default [] (bySku !! db_sku p) in
  let safeName := default [] (db_name p) in
  let safeDescription := default [] (db_description p) in
  let slug := orString (Some (slugify safeName)) (db_sku p) in
  let imageUrl := orString (photo_url p) Text.PLACEHOLDER in
  let category :=
    normalizeCategory
      (match db_category p with Some c => IsString c | None => NotString end) in
  let mappedVariants :=
    if bool_decide (0 < Z.of_nat (length v)) then
      map (fun x => {| variant_id := db_id x; label := db_label x;
                       variant_status := ENCOMENDA |}) v
    else [ {| variant_id := js "default"; label := js "Padrão";
              variant_status := ENCOMENDA |} ] in
  {| id := db_sku p; slug := slug; name := safeName;
     description := safeDescription; images := [imageUrl];
     status := ENCOMENDA; category := category;
     variants := mappedVariants |}.

(** [fetchCatalogProducts], given what the two queries answer. *)
Definition fetchCatalogProducts (productsQuery : QueryResult DbProduct)
    (variantsQuery : QueryResult DbVariant) : outcome (list CatalogProduct) :=
  match error productsQuery with
  | Some message => Raise (QueryError message)
  | None =>
      let products := default [] (data productsQuery) in
      if bool_decide (length products = 0%nat) then Return []
      else
        match error variantsQuery with
        | Some message => Raise (QueryError message)
        | None =>
            let variants := default [] (data variantsQuery) in
            let bySku := indexBySku variants in
            Return (map (toCatalogProduct bySku) products)
        end
  end.

End WithUnicode.

(** A product row, with the photo URL left open. *)
Definition sampleProduct (photo : option jsstring) : DbProduct :=
  {| db_sku := js "001"; db_name := Some (js "Mix de Castanhas");
     db_description := Some []; photo_url := photo; db_category := None |}.

End Catalog.

(* ===================================================================== *)
(** ** Catalogue query engine ([CatalogoPage] in
       [src/app/catalogo/page.tsx])                                       *)
(* ===================================================================== *)

Module Query.
Import Catalog.

Definition PAGE_SIZE : Z := 9.
Definition TODAS : jsstring := js "TODAS".

(** [Math.ceil(a / b)] on the exact quotient. *)
Definition ceilOfQuotient (a b : Z) : Z :=
  Qround.Qceiling (QArith_base.Qdiv (QArith_base.inject_Z a)
                                    (QArith_base.inject_Z b)).

(** [Array.prototype.slice(start, end)], negative indices counting from the
    end. *)
Definition slice {A} (l : list A) (start stop : Z) : list A :=
  let len := Z.of_nat (length l) in
  let k := if start <? 0 then Z.max (len + start) 0 else Z.min start len in
  let final := if stop <? 0 then Z.max (len + stop) 0 else Z.min stop len in
  take (Z.to_nat (final - k)) (drop (Z.to_nat k) l).

(** The state hooks of the page that the query depends on. *)
Record FilterState : Type := mkFilterState {
  q : jsstring;
  selectedCategory : jsstring;
  page : Z
}.

Section WithUnicode.
Context {U : Unicode}.

Definition matches (st : FilterState) (p : CatalogProduct) : bool :=
  let query := Text.normalizeText (IsString (q st)) in
  let name := Text.normalizeText (IsString (name p)) in
  let desc := Text.normalizeText (IsString (description p)) in
  let cat := category p in
  let matchesText :=
    negb (truthy query) || includes name query || includes desc query in
  let matchesCategory :=
    if bool_decide (selectedCategory st = TODAS) then true
    else bool_decide (cat = selectedCategory st) in
  matchesText && matchesCategory.

Definition filtered (items : list CatalogProduct) (st : FilterState)
  : list CatalogProduct :=
  List.filter (matches st) items.

Definition totalPages (items : list CatalogProduct) (st : FilterState) : Z :=
  Z.max 1 (ceilOfQuotient (Z.of_nat (length (filtered items st))) PAGE_SIZE).

Definition safePage (items : list CatalogProduct) (st : FilterState) : Z :=
  Text.clamp (page st) 1 (totalPages items st).

Definition pageItems (items : list CatalogProduct) (st : FilterState)
  : list CatalogProduct :=
  let start := (safePage items st - 1) * PAGE_SIZE in
  let stop := start + PAGE_SIZE in
  slice (filtered items st) start stop.

End WithUnicode.

(** A catalogue of 21 products and the page states of the spec's scenario. *)
Definition sampleView : CatalogProduct :=
  {| id := js "001"; slug := js "mix-de-castanhas";
     name := js "Mix de Castanhas"; description := js "Castanhas e nozes";
     images := [js "/placeholder.png"]; status := ENCOMENDA;
     category := js "Mix"; variants := [] |}.

Definition sampleCatalog : list CatalogProduct := replicate 21 sampleView.

Definition unfiltered (p : Z) : FilterState :=
  {| q := []; selectedCategory := TODAS; page := p |}.

End Query.

(* ===================================================================== *)
(** ** Checkout message composer ([CarrinhoPage] in
       [src/app/carrinho/page.tsx])                                       *)
(* ===================================================================== *)

Module Checkout.
Import Cart.

Definition WHATS_AVAILABILITY_NOTE : jsstring :=
  js "Verificar disponibilidade no WhatsApp.".

Inductive CityChoice : Type :=
  | NoCity          (* [""] *)
  | RIO_PRETO
  | OUTRA.

(** [CartItem & LegacyCartFields & NewCartFields]: every field of the old
    and of the new shape, each of them optional. *)
Record CartItemCompat : Type := mkCompat {
  c_sku : option jsstring;
  c_name : option jsstring;
  c_variantLabel : option jsstring;
  c_qty : option Z;
  c_productSlug : option jsstring;
  c_productName : option jsstring;
  c_variantId : option jsstring;
  c_quantity : option Z
}.

(** The cast [i as CartItemCompat]: a [CartItem] carries the fields of the
    new shape and none of the old one. *)
Definition asCompat (i : CartItem) : CartItemCompat :=
  {| c_sku := Some (sku i); c_name := Some (name i);
     c_variantLabel := variantLabel i; c_qty := Some (qty i);
     c_productSlug := None; c_productName := None;
     c_variantId := None; c_quantity := None |}.

(** [a ?? b] *)
Definition coalesce {A} (a : option A) (b : option A) : option A :=
  match a with Some _ => a | None => b end.

(** On an integer, [Number] is the identity, [Number.isFinite] holds and
    [Math.floor] changes nothing. *)
Definition getQty (i : CartItem) : Z :=
  let c := asCompat i in
  let raw := default 0 (coalesce (c_qty c) (c_quantity c)) in
  Z.max 0 raw.

Definition getSku (i : CartItem) : jsstring :=
  let c := asCompat i in
  default [] (coalesce (c_sku c) (c_productSlug c)).

Definition getName (i : CartItem) : jsstring :=
  let c := asCompat i in
  default (js "Produto") (coalesce (c_name c) (c_productName c)).

Definition getVariantLabel (i : CartItem) : jsstring :=
  let c := asCompat i in
  default (js "Padrão") (coalesce (c_variantLabel c) (c_variantId c)).

Definition getKey (i : CartItem) : jsstring :=
  getSku i ++ js "__" ++ getVariantLabel i.

(** The state hooks of the page. *)
Record PageState : Type := mkPageState {
  items : list CartItem;
  city : CityChoice;
  bairro : jsstring;
  numeroCasa : jsstring;
  referencia : jsstring;
  periodo : jsstring
}.

Definition totalItems (st : PageState) : Z :=
  foldl (fun acc i => acc + getQty i) 0 (items st).

(** [a || b] on strings. *)
Definition orElse (a b : jsstring) : jsstring := if truthy a then a else b.

Definition NOT_INFORMED : jsstring := js "(não informado)".
Definition NEWLINE : jsstring := [10%N].

Definition renderLine (i : CartItem) : jsstring :=
  js "- " ++ ofZ (getQty i) ++ js "x " ++ getName i ++ js " — "
  ++ getVariantLabel i.

(** The line as the spec words it:
    [- <qty>x <name> — <variantLabel-or-"Padrão">]. *)
Definition specifiedLine (i : CartItem) : jsstring :=
  js "- " ++ ofZ (qty i) ++ js "x " ++ name i ++ js " — "
  ++ default (js "Padrão") (variantLabel i).

(** An address field as the spec words it: the placeholder when blank. *)
Definition specifiedField (value : jsstring) : jsstring :=
  match value with
  | [] => NOT_INFORMED
  | _ => value
  end.

Definition buildMessage (st : PageState) : jsstring :=
  let lines := map renderLine (items st) in
  match city st with
  | RIO_PRETO =>
      join NEWLINE
        ([ js "Pedido – Catálogo (Entrega local)";
           [];
           js "Cidade: São José do Rio Preto - SP";
           [];
           js "Itens:" ]
         ++ lines
         ++ [ [];
              js "Total de itens: " ++ ofZ (totalItems st);
              [];
              WHATS_AVAILABILITY_NOTE;
              [];
              js "Endereço:";
              js "- Bairro/Endereço: " ++ orElse (bairro st) NOT_INFORMED;
              js "- Nº: " ++ orElse (numeroCasa st) NOT_INFORMED;
              js "- Referência: " ++ orElse (referencia st) NOT_INFORMED;
              js "- Preferência de período: "
                ++ orElse (periodo st) NOT_INFORMED ])
  | _ =>
      join NEWLINE
        ([ js "Lista – Compra online (fora de São José do Rio Preto)";
           [];
           js "Quero os links/onde comprar destes itens:" ]
         ++ lines
         ++ [ [];
              js "Total de itens: " ++ ofZ (totalItems st);
              [];
              WHATS_AVAILABILITY_NOTE ])
  end.

(** A local-delivery order of two lines with the house number left blank. *)
Definition sampleOrder : PageState :=
  {| items := [ scenarioItem 2;
                {| sku := js "B"; name := js "Granola"; photo := None;
                   variantLabel := None; qty := 1 |} ];
     city := RIO_PRETO;
     bairro := js "Centro"; numeroCasa := [];
     referencia := js "Praça"; periodo := js "manhã" |}.

End Checkout.

(* ===================================================================== *)
(** ** Cart badge ([safeCount] of the [useCartCount] hook, kept in
       [src/lib/db/products.ts])                                          *)
(* ===================================================================== *)

Module CartBadge.
Import Cart Numbers.

(** [items.reduce((acc, i) => acc + (Number.isFinite(i.qty) ? i.qty : 0), 0)] *)
Definition safeCount : M Z :=
  let* items := getCart in
  ret (foldl (fun acc i => acc + (if isFinite (qty i) then qty i else 0)) 0
             items).

(** The count a badge shows in a world. *)
Definition badge (w : World) : Z :=
  match fst (safeCount w) with
  | Return n => n
  | Raise _ => 0
  end.

End CartBadge.

(* ===================================================================== *)
(** ** Cart page handlers ([CarrinhoPage] in
       [src/app/carrinho/page.tsx])                                       *)
(* ===================================================================== *)

Module CartPage.
Import Cart Checkout.

(** [setItems(...)] *)
Definition setItems (st : PageState) (next : list CartItem) : PageState :=
  {| items := next; city := city st; bairro := bairro st;
     numeroCasa := numeroCasa st; referencia := referencia st;
     periodo := periodo st |}.

Definition sync (st : PageState) : M PageState :=
  let* stored := getCart in
  ret (setItems st stored).

Definition inc (i : CartItem) (st : PageState) : M PageState :=
  updateCartItem {| upSku := getSku i;
                    upVariantLabel := Some (getVariantLabel i);
                    upQty := getQty i + 1 |} >>
  sync st.

Definition dec (i : CartItem) (st : PageState) : M PageState :=
  updateCartItem {| upSku := getSku i;
                    upVariantLabel := Some (getVariantLabel i);
                    upQty := Z.max 1 (getQty i - 1) |} >>
  sync st.

Definition removeItem (i : CartItem) (st : PageState) : M PageState :=
  removeCartItem {| rmSku := getSku i;
                    rmVariantLabel := Some (getVariantLabel i) |} >>
  sync st.

Definition handleClear (st : PageState) : M PageState :=
  clearCart >> sync st.

End CartPage.

(* ===================================================================== *)
(** ** Sums used to state properties of the badge and of the total        *)
(* ===================================================================== *)

Module Sums.
Import Cart.

(** The sum of the stored quantities. *)
Definition sumQty (l : list CartItem) : Z :=
  foldl (fun acc i => acc + qty i) 0 l.

(** The sum of their absolute values: a bound on every partial sum that a
    left-to-right addition of the quantities goes through. *)
Definition magnitude (l : list CartItem) : Z :=
  foldr (fun i acc => Z.abs (qty i) + acc) 0 l.

(** Every addition of the left-to-right sum of the quantities is exact on
    binary64: adding the quantity of a line to the sum of the lines before it
    gives their sum as integers. *)
Definition exactCount (l : list CartItem) : Prop :=
  forall front i back,
    l = front ++ i :: back ->
    Numbers.plus64 (sumQty front) (qty i) = Some (sumQty front + qty i).

(** What the [.map] of a page handler's [updateCartItem] does to a line, read
    against the line the button belongs to. *)
Definition setQtyOf (target : CartItem) (n : Z) (j : CartItem) : CartItem :=
  if bool_decide (keyOf j = keyOf target) then withQty j n else j.

End Sums.

(* ===================================================================== *)
(** ** Names for parts of the catalogue normaliser, used to state its
       properties                                                         *)
(* ===================================================================== *)

Module CatalogShape.
Import Catalog.

(** The callback of [v.map] in [fetchCatalogProducts], and the variant it
    makes up for a product without variants. *)
Definition variantOf (x : DbVariant) : Variant :=
  {| variant_id := db_id x; label := db_label x; variant_status := ENCOMENDA |}.

Definition defaultVariant : Variant :=
  {| variant_id := js "default"; label := js "Padrão";
     variant_status := ENCOMENDA |}.

(** The variant rows of one SKU, in the order of arrival. *)
Definition rowsOf (sku : jsstring) (variants : list DbVariant) : list DbVariant :=
  filter (fun v => product_sku v = sku) variants.

(** [a]..[z], [0]..[9] and the hyphen. *)
Definition isSlugUnit (c : N) : bool := isLowerAlnum c || (c =? HYPHEN)%N.

(** What [slugify] hands to its two last [replace]s. *)
Definition foldedName {U : Unicode} (name : jsstring) : jsstring :=
  trim (toLowerCase (filter (fun c => isCombiningMark c = false)
                            (normalizeNFD name))).

End CatalogShape.

(* ===================================================================== *)
(** ** Catalogue page handlers ([CatalogoPage] in
       [src/app/catalogo/page.tsx])                                       *)
(* ===================================================================== *)

Module CatalogPage.
Import Query.

(** [new Set(values)] then [Array.from]: the values in the order of their
    first occurrence. *)
Definition setAdd (seen : list jsstring) (x : jsstring) : list jsstring :=
  if bool_decide (x ∈ seen) then seen else seen ++ [x].

Definition newSet (values : list jsstring) : list jsstring :=
  foldl setAdd [] values.

Definition categories (items : list Catalog.CatalogProduct) : list jsstring :=
  TODAS ::
  newSet (List.filter truthy (map (fun p => trim (Catalog.category p)) items)).

(** [setPage], [setQ] and [setCategory]. *)
Definition setPage (st : FilterState) (p : Z) : FilterState :=
  {| q := q st; selectedCategory := selectedCategory st; page := p |}.

Definition setQ (st : FilterState) (value : jsstring) : FilterState :=
  {| q := value; selectedCategory := selectedCategory st; page := page st |}.

Definition setCategory (st : FilterState) (value : jsstring) : FilterState :=
  {| q := q st; selectedCategory := value; page := page st |}.

Definition resetToFirstPage (st : FilterState) : FilterState := setPage st 1.

Definition clearFilters (st : FilterState) : FilterState :=
  setPage (setCategory (setQ st []) TODAS) 1.

(** The [onChange] handlers of the search box and of the category select. *)
Definition onSearchChange (st : FilterState) (value : jsstring) : FilterState :=
  resetToFirstPage (setQ st value).

Definition onCategoryChange (st : FilterState) (value : jsstring) : FilterState :=
  resetToFirstPage (setCategory st value).

(** [a || b] on strings that may be [undefined]. *)
Definition firstTruthy (a : option jsstring) (b : jsstring) : jsstring :=
  match a with
  | Some s => if truthy s then s else b
  | None => b
  end.

(** The names every plain object inherits from [Object.prototype]. *)
Definition OBJECT_PROTOTYPE : list jsstring :=
  [ js "constructor"; js "hasOwnProperty"; js "isPrototypeOf";
    js "propertyIsEnumerable"; js "toLocaleString"; js "toString";
    js "valueOf"; js "__proto__"; js "__defineGetter__";
    js "__defineSetter__"; js "__lookupGetter__"; js "__lookupSetter__" ].

(** What [object[key]] gives on a plain object whose own properties are
    strings: the own property, else the inherited member of that name (a
    function, or [Object.prototype] itself for [__proto__]), else
    [undefined]. *)
Inductive Property : Type :=
  | OwnText (text : jsstring)
  | Inherited (member : jsstring)
  | Undefined.

Definition readProperty (object : gmap jsstring jsstring) (key : jsstring)
  : Property :=
  match object !! key with
  | Some text => OwnText text
  | None => if bool_decide (key ∈ OBJECT_PROTOTYPE) then Inherited key
            else Undefined
  end.

(** The value the grid takes as variant label: a text, or an inherited
    member, which is truthy and is not a string. *)
Inductive Label : Type :=
  | Text (label : jsstring)
  | Member (member : jsstring).

Definition variantOptions (p : Catalog.CatalogProduct) : list Catalog.Variant :=
  if bool_decide (0 < Z.of_nat (length (Catalog.variants p)))
  then Catalog.variants p
  else [ {| Catalog.variant_id := js "default"; Catalog.label := js "Padrão";
            Catalog.variant_status := Catalog.ENCOMENDA |} ].

(** [selectedVariant[p.id] || variantOptions[0]?.label || "Padrão"], where
    [selectedVariant] is a plain object that starts as [{}] and gets own
    properties from [{...s, [p.id]: value}]. *)
Definition chosen (selectedVariant : gmap jsstring jsstring)
    (p : Catalog.CatalogProduct) : Label :=
  let fallback :=
    firstTruthy (Catalog.label <$> head (variantOptions p)) (js "Padrão") in
  match readProperty selectedVariant (Catalog.id p) with
  | OwnText text => Text (if truthy text then text else fallback)
  | Inherited member => Member member
  | Undefined => Text fallback
  end.

(** The line a click on [Adicionar] passes to [addToCart]. *)
Definition lineOf (p : Catalog.CatalogProduct) (label : jsstring)
  : Cart.CartItem :=
  {| Cart.sku := Catalog.id p; Cart.name := Catalog.name p;
     Cart.photo := head (Catalog.images p);
     Cart.variantLabel := Some label;
     Cart.qty := 1 |}.

(** [handleAdd].  With a text as label it is the call of [addToCart]; with an
    inherited member as label the call leaves the parameter type of
    [addToCart] ([variantLabel?: string]), where the store is not modelled:
    [None]. *)
Definition handleAdd (selectedVariant : gmap jsstring jsstring)
    (p : Catalog.CatalogProduct) : option (Cart.M unit) :=
  match chosen selectedVariant p with
  | Text label => Some (Cart.addToCart (lineOf p label))
  | Member _ => None
  end.

Section WithUnicode.
Context {U : Unicode}.

Definition prevPage (items : list Catalog.CatalogProduct) (st : FilterState)
  : FilterState :=
  setPage st (Text.clamp (page st - 1) 1 (totalPages items st)).

Definition nextPage (items : list Catalog.CatalogProduct) (st : FilterState)
  : FilterState :=
  setPage st (Text.clamp (page st + 1) 1 (totalPages items st)).

(** The page numbers the pager can reach: [1 .. totalPages]. *)
Definition pageNumbers (items : list Catalog.CatalogProduct) (st : FilterState)
  : list Z :=
  map Z.of_nat (seq 1 (Z.to_nat (totalPages items st))).

End WithUnicode.

(** A mutation done [n] times in a row. *)
Fixpoint times (n : nat) (m : Cart.M unit) (w : Cart.World) : Cart.World :=
  match n with
  | O => w
  | S n' => times n' m (Cart.exec m w)
  end.

End CatalogPage.

(* ===================================================================== *)
(** ** Product page ([ProdutoClient] in
       [src/app/produto/[slug]/produto-client.tsx])                       *)
(* ===================================================================== *)

Module ProductPage.

Inductive Availability : Type := DISPONIVEL | SEM_ESTOQUE | ENCOMENDA.

Record ApiVariant : Type := mkApiVariant {
  av_id : jsstring;
  av_label : jsstring;
  av_status : Availability
}.

Record ApiProduct : Type := mkApiProduct {
  ap_id : jsstring;
  ap_slug : jsstring;
  ap_name : jsstring;
  ap_description : jsstring;
  ap_images : list jsstring;
  ap_status : Availability;
  ap_category : jsstring;
  ap_variants : list ApiVariant
}.

(** [setQty((q) => clamp(q - 1, 1, 99))] and its twin. *)
Definition decQty (q : Z) : Z := Text.clamp (q - 1) 1 99.
Definition incQty (q : Z) : Z := Text.clamp (q + 1) 1 99.

(** The quantity after a run of clicks on [+] ([true]) and [-] ([false]),
    from the initial [useState(1)]. *)
Definition qtyAfter (clicks : list bool) : Z :=
  foldl (fun q up => if up : bool then incQty q else decQty q) 1 clicks.

Definition variantOptions (product : option ApiProduct) : list ApiVariant :=
  match product with
  | None => []
  | Some p =>
      if bool_decide (0 < Z.of_nat (length (ap_variants p))) then ap_variants p
      else [ {| av_id := js "default"; av_label := js "Padrão";
                av_status := ENCOMENDA |} ]
  end.

Definition firstVariantId (options : list ApiVariant) : jsstring :=
  default [] (av_id <$> head options).

Definition effectiveVariantId (variantId : jsstring) (options : list ApiVariant)
  : jsstring :=
  if truthy variantId then variantId else firstVariantId options.

Definition selectedVariant (product : option ApiProduct) (variantId : jsstring)
  : option ApiVariant :=
  match product with
  | None => None
  | Some _ =>
      let options := variantOptions product in
      match List.find (fun v => bool_decide
                                  (av_id v = effectiveVariantId variantId options))
                      options with
      | Some v => Some v
      | None => head options
      end
  end.

Definition canAdd (product : option ApiProduct) (selected : option ApiVariant)
  : bool :=
  match product, selected with
  | Some _, Some v =>
      match av_status v with SEM_ESTOQUE => false | _ => true end
  | _, _ => false
  end.

(** What [add] tells the user: nothing, the out-of-stock notice, or the
    "added" mark on the button. *)
Inductive Feedback : Type :=
  | Nothing
  | Notice (text : jsstring)
  | JustAdded.

Definition add (product : option ApiProduct) (selected : option ApiVariant)
    (qty : Z) : Cart.M Feedback :=
  match product, selected with
  | Some p, Some v =>
      match av_status v with
      | SEM_ESTOQUE =>
          Cart.ret
            (Notice (js "Sem estoque no momento. Selecione outra variação."))
      | _ =>
          Cart.bind
            (Cart.addToCart
               {| Cart.sku := ap_id p; Cart.name := ap_name p;
                  Cart.photo := head (ap_images p);
                  Cart.variantLabel := Some (av_label v);
                  Cart.qty := qty |})
            (fun _ => Cart.ret JustAdded)
      end
  | _, _ => Cart.ret Nothing
  end.

Section WithUnicode.
Context {U : Unicode}.

(** [product]: the first item whose normalised slug is the normalised route
    slug, nothing when the latter is empty. *)
Definition findProduct (items : list ApiProduct) (rawSlug : unknown)
  : option ApiProduct :=
  let normalizedSlug := Text.normalizeSlug rawSlug in
  if negb (truthy normalizedSlug) then None
  else List.find (fun p => bool_decide
                             (Text.normalizeSlug (IsString (ap_slug p))
                              = normalizedSlug))
                 items.

End WithUnicode.
End ProductPage.

(* ===================================================================== *)
(** ** [encodeURIComponent] and the WhatsApp link
       ([buildWhatsUrl], [openWhatsApp] in [src/app/carrinho/page.tsx])   *)
(* ===================================================================== *)

Module Uri.

(** The characters [encodeURIComponent] leaves alone: letters, digits and
    [- _ . ! ~ * ' ( )]. *)
Definition isUnreserved (c : N) : bool :=
  (((65 <=? c) && (c <=? 90)) || ((97 <=? c) && (c <=? 122))
   || ((48 <=? c) && (c <=? 57))
   || (c =? 45) || (c =? 95) || (c =? 46) || (c =? 33) || (c =? 126)
   || (c =? 42) || (c =? 39) || (c =? 40) || (c =? 41))%N.

(** An upper-case hexadecimal digit. *)
Definition hexChar (d : N) : N := (if d <? 10 then 48 + d else 55 + d)%N.

Definition escapeOctet (b : N) : jsstring :=
  [PERCENT; hexChar (N.shiftr b 4); hexChar (N.land b 15)].

(** The UTF-8 octets of a code point. *)
Definition utf8Octets (cp : N) : list N :=
  (if cp <? 128 then [cp]
   else if cp <? 2048 then
     [192 + N.shiftr cp 6; 128 + N.land cp 63]
   else if cp <? 65536 then
     [224 + N.shiftr cp 12; 128 + N.land (N.shiftr cp 6) 63; 128 + N.land cp 63]
   else
     [240 + N.shiftr cp 18; 128 + N.land (N.shiftr cp 12) 63;
      128 + N.land (N.shiftr cp 6) 63; 128 + N.land cp 63])%N.

Definition escapeCodePoint (cp : N) : jsstring :=
  concat (map escapeOctet (utf8Octets cp)).

Definition isLeadSurrogate (c : N) : bool := ((55296 <=? c) && (c <=? 56319))%N.
Definition isTrailSurrogate (c : N) : bool := ((56320 <=? c) && (c <=? 57343))%N.

(** The code point of a surrogate pair. *)
Definition pairCodePoint (lead trail : N) : N :=
  ((lead - 55296) * 1024 + (trail - 56320) + 65536)%N.

(** The encoding loop; [None] at an unpaired surrogate. *)
Fixpoint encode (s : jsstring) : option jsstring :=
  match s with
  | [] => Some []
  | c :: r =>
      if isUnreserved c then cons c <$> encode r
      else if isLeadSurrogate c then
        match r with
        | d :: r' =>
            if isTrailSurrogate d
            then app (escapeCodePoint (pairCodePoint c d)) <$> encode r'
            else None
        | [] => None
        end
      else if isTrailSurrogate c then None
      else app (escapeCodePoint c) <$> encode r
  end.

Definition encodeURIComponent (s : jsstring) : outcome jsstring :=
  match encode s with
  | Some e => Return e
  | None => Raise URIError
  end.

(** A string whose code units are 16-bit values and none of them a
    surrogate. *)
Definition isPlainText (s : jsstring) : Prop :=
  Forall (fun c => (c < 65536)%N /\ isSurrogate c = false) s.

(** The unit [c] between [before] and [after] is a surrogate without its
    partner: a lead that no trail follows, or a trail that no lead
    precedes. *)
Definition isLoneSurrogate (before : jsstring) (c : N) (after : jsstring)
  : Prop :=
  (isLeadSurrogate c = true /\
   forall d rest, after = d :: rest -> isTrailSurrogate d = false) \/
  (isTrailSurrogate c = true /\
   forall rest p, before = rest ++ [p] -> isLeadSurrogate p = false).

End Uri.

Module WhatsApp.
Import Cart Checkout.

Definition WHATS_NUMBER : jsstring := js "5517981229285".

Definition linkPrefix : jsstring :=
  js "https://wa.me/" ++ WHATS_NUMBER ++ js "?text=".

Definition buildWhatsUrl (message : jsstring) : outcome jsstring :=
  match Uri.encodeURIComponent message with
  | Return encoded => Return (linkPrefix ++ encoded)
  | Raise e => Raise e
  end.

(** What [openWhatsApp] does: an [alert], or a navigation. *)
Inductive Action : Type :=
  | Alert (message : jsstring)
  | Navigate (href : jsstring).

Definition openWhatsApp (hydrated : bool) (st : PageState) : outcome Action :=
  if negb hydrated || bool_decide (length (items st) = 0%nat) then
    Return (Alert (js "Seu carrinho está vazio."))
  else
    match city st with
    | NoCity =>
        Return (Alert (js "Selecione se você está em São José do Rio Preto ou em outra cidade."))
    | _ =>
        match buildWhatsUrl (buildMessage st) with
        | Return href => Return (Navigate href)
        | Raise e => Raise e
        end
    end.

End WhatsApp.

(* ===================================================================== *)
(** * Properties                                                          *)
(* ===================================================================== *)

(** ** Integer addition and binary64 addition *)

Module NumbersFacts.
Import Numbers.

Lemma digits2_pos_bounds (p : positive) :
  2 ^ (Z.pos (digits2_pos p) - 1) <= Z.pos p < 2 ^ Z.pos (digits2_pos p).
Proof.
  induction p as [p IH|p IH|]; cbn [digits2_pos].
  - rewrite Pos2Z.inj_succ.
    replace (Z.succ (Z.pos (digits2_pos p)) - 1) with (Z.pos (digits2_pos p) - 1 + 1) by lia.
    rewrite Z.pow_succ_r by lia.
    rewrite Z.pow_add_r by lia. change (2 ^ 1) with 2. lia.
  - rewrite Pos2Z.inj_succ.
    replace (Z.succ (Z.pos (digits2_pos p)) - 1) with (Z.pos (digits2_pos p) - 1 + 1) by lia.
    rewrite Z.pow_succ_r by lia.
    rewrite Z.pow_add_r by lia. change (2 ^ 1) with 2. lia.
  - simpl. lia.
Qed.

Lemma digits2_pos_unique (p : positive) (d : Z) :
  2 ^ (d - 1) <= Z.pos p < 2 ^ d -> Z.pos (digits2_pos p) = d.
Proof.
  intros [Hlow Hhigh]. pose proof (digits2_pos_bounds p) as [Hl Hh].
  destruct (Z.lt_trichotomy (Z.pos (digits2_pos p)) d) as [Hlt | [Heq | Hgt]];
    [|exact Heq|].
  - assert (2 ^ Z.pos (digits2_pos p) <= 2 ^ (d - 1))
      by (apply Z.pow_le_mono_r; lia). lia.
  - assert (0 <= d \/ d < 0) as [Hd | Hd] by lia.
    + assert (2 ^ d <= 2 ^ (Z.pos (digits2_pos p) - 1))
        by (apply Z.pow_le_mono_r; lia). lia.
    + rewrite (Z.pow_neg_r 2 d) in Hhigh by lia. lia.
Qed.

Lemma digits2_pos_scaled (v M : positive) (k : Z) :
  0 <= k -> Z.pos M = Z.pos v * 2 ^ k ->
  Z.pos (digits2_pos M) = Z.pos (digits2_pos v) + k.
Proof.
  intros Hk HM. apply digits2_pos_unique. rewrite HM.
  pose proof (digits2_pos_bounds v) as [Hl Hh].
  replace (Z.pos (digits2_pos v) + k - 1) with (Z.pos (digits2_pos v) - 1 + k) by lia.
  rewrite !Z.pow_add_r by lia.
  assert (0 < 2 ^ k) by (apply Z.pow_pos_nonneg; lia). nia.
Qed.

Lemma iter_xO_value (d m : positive) :
  Z.pos (Pos.iter xO m d) = Z.pos m * 2 ^ Z.pos d.
Proof.
  induction d as [|d IH] using Pos.peano_ind.
  - simpl. lia.
  - rewrite Pos.iter_succ, Pos2Z.inj_succ, Z.pow_succ_r by lia.
    rewrite Pos2Z.inj_xO, IH. lia.
Qed.

Lemma iter_pos_nat {A} (f : A -> A) (n : positive) (x : A) :
  SpecFloat.iter_pos f n x = Nat.iter (Pos.to_nat n) f x.
Proof.
  revert x. induction n as [n IH|n IH|]; intros x; cbn [SpecFloat.iter_pos].
  - rewrite !IH, Pos2Nat.inj_xI. 
    replace (S (2 * Pos.to_nat n))%nat with (Pos.to_nat n + (Pos.to_nat n + 1))%nat by lia.
    rewrite !Nat.iter_add. simpl. reflexivity.
  - rewrite !IH, Pos2Nat.inj_xO.
    replace (2 * Pos.to_nat n)%nat with (Pos.to_nat n + Pos.to_nat n)%nat by lia.
    now rewrite Nat.iter_add.
  - reflexivity.
Qed.

Lemma shr_exact_nat (n : nat) (m M : positive) :
  Z.pos M = Z.pos m * 2 ^ Z.of_nat n ->
  Nat.iter n shr_1 (Build_shr_record (Z.pos M) false false)
  = Build_shr_record (Z.pos m) false false.
Proof.
  revert M. induction n as [|n IH]; intros M HM.
  - simpl in *. f_equal. lia.
  - rewrite Nat.iter_succ_r.
    rewrite Nat2Z.inj_succ, Z.pow_succ_r in HM by lia.
    destruct M as [M|M|]; try lia.
    cbn [shr_1 orb]. apply IH. lia.
Qed.

Lemma digits_of_mantissa (v : positive) :
  Z.pos v < 2 ^ 53 -> 1 <= Z.pos (digits2_pos v) <= 53.
Proof.
  intros Hv. pose proof (digits2_pos_bounds v) as [Hl _]. split; [lia|].
  assert (Hlt : 2 ^ (Z.pos (digits2_pos v) - 1) < 2 ^ 53) by lia.
  apply Z.pow_lt_mono_r_iff in Hlt; lia.
Qed.

Lemma fexp_of_digits (d : Z) : 1 <= d <= 53 -> fexp 53 1024 d = d - 53.
Proof. intros Hd. unfold fexp, emin. lia. Qed.

Lemma binary_round_aux_exact (s : bool) (v mz : positive) (ez : Z) :
  Z.pos v < 2 ^ 53 ->
  ez <= Z.pos (digits2_pos v) - 53 ->
  Z.pos mz = Z.pos v * 2 ^ (- ez) ->
  exists m',
    binary_round_aux 53 1024 s (Z.pos mz) ez loc_Exact
    = S754_finite s m' (Z.pos (digits2_pos v) - 53) /\
    Z.pos m' = Z.pos v * 2 ^ (53 - Z.pos (digits2_pos v)).
Proof.
  intros Hv Hez Hmz.
  pose proof (digits_of_mantissa v Hv) as Hd.
  set (dv := Z.pos (digits2_pos v)) in *.
  assert (Hdigits : Z.pos (digits2_pos mz) = dv + - ez).
  { apply digits2_pos_scaled; [lia | exact Hmz]. }
  (* the mantissa once it has 53 digits *)
  assert (Hm' : exists m' : positive, Z.pos m' = Z.pos v * 2 ^ (53 - dv)).
  { assert (0 < Z.pos v * 2 ^ (53 - dv)).
    { apply Z.mul_pos_pos; [lia | apply Z.pow_pos_nonneg; lia]. }
    destruct (Z.pos v * 2 ^ (53 - dv)) as [|m'|m'] eqn:Hval; try lia.
    now exists m'. }
  destruct Hm' as [m' Hm'].
  assert (Hdigits' : Z.pos (digits2_pos m') = 53).
  { rewrite (digits2_pos_scaled v m' (53 - dv)); [fold dv; lia | lia | exact Hm']. }
  assert (Hfirst : shr_fexp 53 1024 (Z.pos mz) ez loc_Exact
                   = (Build_shr_record (Z.pos m') false false, dv - 53)).
  { unfold shr_fexp, Zdigits2. rewrite Hdigits.
    replace (dv + - ez + ez) with dv by lia. rewrite fexp_of_digits by exact Hd.
    cbn [shr_record_of_loc]. unfold shr.
    destruct (dv - 53 - ez) as [|n|n] eqn:Hn; try lia.
    - assert (Hsame : mz = m').
      { apply Pos2Z.inj. rewrite Hmz, Hm'. f_equal. f_equal. lia. }
      subst m'. f_equal. lia.
    - f_equal; [|lia].
      rewrite iter_pos_nat. apply shr_exact_nat.
      rewrite positive_nat_Z, Hmz, Hm', <- Z.mul_assoc, <- Z.pow_add_r by lia.
      f_equal. f_equal. lia. }
  assert (Hsecond : shr_fexp 53 1024 (Z.pos m') (dv - 53) loc_Exact
                    = (Build_shr_record (Z.pos m') false false, dv - 53)).
  { unfold shr_fexp, Zdigits2. rewrite Hdigits'.
    replace (53 + (dv - 53)) with dv by lia. rewrite fexp_of_digits by exact Hd.
    cbn [shr_record_of_loc]. unfold shr.
    replace (dv - 53 - (dv - 53)) with 0 by lia. reflexivity. }
  exists m'. split; [|exact Hm'].
  unfold binary_round_aux. rewrite Hfirst.
  cbn [shr_m loc_of_shr_record round_nearest_even]. rewrite Hsecond.
  cbn [shr_m].
  replace (dv - 53 <=? 1024 - 53) with true; [reflexivity|].
  symmetry. apply Z.leb_le. lia.
Qed.

Lemma binary_round_exact (s : bool) (v M : positive) (k : Z) :
  0 <= k -> Z.pos v < 2 ^ 53 -> Z.pos M = Z.pos v * 2 ^ k ->
  exists m',
    binary_round 53 1024 s M (- k)
    = S754_finite s m' (Z.pos (digits2_pos v) - 53) /\
    Z.pos m' = Z.pos v * 2 ^ (53 - Z.pos (digits2_pos v)).
Proof.
  intros Hk Hv HM.
  pose proof (digits_of_mantissa v Hv) as Hd.
  set (dv := Z.pos (digits2_pos v)) in *.
  unfold binary_round.
  rewrite (digits2_pos_scaled v M k Hk HM). fold dv.
  replace (dv + k + - k) with dv by lia. rewrite fexp_of_digits by exact Hd.
  unfold shl_align.
  destruct (dv - 53 - - k) as [|n|n] eqn:Hn.
  - apply binary_round_aux_exact; [exact Hv | fold dv; lia|].
    rewrite HM. f_equal. f_equal. lia.
  - apply binary_round_aux_exact; [exact Hv | fold dv; lia|].
    rewrite HM. f_equal. f_equal. lia.
  - apply binary_round_aux_exact; [exact Hv | fold dv; lia|].
    rewrite iter_xO_value, HM, <- Z.mul_assoc, <- Z.pow_add_r by lia.
    f_equal. f_equal. lia.
Qed.

Lemma ofBinary64_normal (s : bool) (v m : positive) :
  Z.pos v < 2 ^ 53 ->
  Z.pos m = Z.pos v * 2 ^ (53 - Z.pos (digits2_pos v)) ->
  ofBinary64 (S754_finite s m (Z.pos (digits2_pos v) - 53))
  = Some (cond_Zopp s (Z.pos v)).
Proof.
  intros Hv Hm. pose proof (digits_of_mantissa v Hv) as Hd.
  set (dv := Z.pos (digits2_pos v)) in *. unfold ofBinary64.
  destruct (Z.leb_spec 0 (dv - 53)) as [Hzero | Hneg].
  - replace (dv - 53) with 0 by lia. rewrite Hm.
    replace (53 - dv) with 0 by lia. do 2 f_equal. simpl. lia.
  - replace (- (dv - 53)) with (53 - dv) by lia. rewrite Hm.
    assert (Hpow : 2 ^ (53 - dv) <> 0)
      by (apply Z.pow_nonzero; lia).
    rewrite Z.mod_mul, Z.div_mul by exact Hpow. reflexivity.
Qed.

Lemma toBinary64_normal (s : bool) (v : positive) :
  Z.pos v < 2 ^ 53 ->
  exists m,
    binary_round 53 1024 s v 0
    = S754_finite s m (Z.pos (digits2_pos v) - 53) /\
    Z.pos m = Z.pos v * 2 ^ (53 - Z.pos (digits2_pos v)).
Proof.
  intros Hv. apply (binary_round_exact s v v 0); [lia | exact Hv|].
  simpl. lia.
Qed.

Lemma shl_align_value (m : positive) (e e' : Z) :
  e' <= e -> Z.pos (fst (shl_align m e e')) = Z.pos m * 2 ^ (e - e').
Proof.
  intros He. unfold shl_align. destruct (e' - e) as [|d|d] eqn:Hd; try lia.
  - replace (e - e') with 0 by lia. simpl. lia.
  - cbn [fst]. rewrite iter_xO_value. f_equal. f_equal. lia.
Qed.

Lemma cond_Zopp_mul (s : bool) (x c : Z) :
  cond_Zopp s (x * c) = cond_Zopp s x * c.
Proof. destruct s; simpl; lia. Qed.

(** The sum of two binary64 values that stand for integers, when the sum is
    a safe integer too. *)
Lemma SFadd_exact (sa sb : bool) (va vb ma mb : positive) :
  Z.pos va < 2 ^ 53 -> Z.pos vb < 2 ^ 53 ->
  Z.pos ma = Z.pos va * 2 ^ (53 - Z.pos (digits2_pos va)) ->
  Z.pos mb = Z.pos vb * 2 ^ (53 - Z.pos (digits2_pos vb)) ->
  Z.abs (cond_Zopp sa (Z.pos va) + cond_Zopp sb (Z.pos vb)) < 2 ^ 53 ->
  ofBinary64
    (SFadd 53 1024
       (S754_finite sa ma (Z.pos (digits2_pos va) - 53))
       (S754_finite sb mb (Z.pos (digits2_pos vb) - 53)))
  = Some (cond_Zopp sa (Z.pos va) + cond_Zopp sb (Z.pos vb)).
Proof.
  intros Hva Hvb Hma Hmb Hsum.
  pose proof (digits_of_mantissa va Hva) as Hda.
  pose proof (digits_of_mantissa vb Hvb) as Hdb.
  set (da := Z.pos (digits2_pos va)) in *.
  set (db := Z.pos (digits2_pos vb)) in *.
  cbn [SFadd].
  set (ez := Z.min (da - 53) (db - 53)).
  assert (Hez : ez <= da - 53 /\ ez <= db - 53 /\ -52 <= ez <= 0)
    by (unfold ez; lia).
  set (A := fst (shl_align ma (da - 53) ez)).
  set (B := fst (shl_align mb (db - 53) ez)).
  assert (HA : Z.pos A = Z.pos va * 2 ^ (- ez)).
  { unfold A. rewrite shl_align_value by lia.
    rewrite Hma, <- Z.mul_assoc, <- Z.pow_add_r by lia. f_equal. f_equal. lia. }
  assert (HB : Z.pos B = Z.pos vb * 2 ^ (- ez)).
  { unfold B. rewrite shl_align_value by lia.
    rewrite Hmb, <- Z.mul_assoc, <- Z.pow_add_r by lia. f_equal. f_equal. lia. }
  set (total := cond_Zopp sa (Z.pos va) + cond_Zopp sb (Z.pos vb)) in *.
  assert (HS : cond_Zopp sa (Z.pos A) + cond_Zopp sb (Z.pos B)
               = total * 2 ^ (- ez)).
  { rewrite HA, HB, !cond_Zopp_mul. unfold total. lia. }
  rewrite HS.
  assert (Hpow : 0 < 2 ^ (- ez)) by (apply Z.pow_pos_nonneg; lia).
  unfold binary_normalize.
  destruct (total * 2 ^ (- ez)) as [|M|M] eqn:Hval.
  - assert (total = 0) by nia. simpl. congruence.
  - destruct total as [|v|v] eqn:Htotal; try nia.
    replace ez with (- - ez) at 1 by lia.
    destruct (binary_round_exact false v M (- ez)) as (m' & -> & Hm');
      [lia | simpl in Hsum; lia | lia|].
    now rewrite (ofBinary64_normal false v m') by (simpl in Hsum; lia || exact Hm').
  - destruct total as [|v|v] eqn:Htotal; try nia.
    replace ez with (- - ez) at 1 by lia.
    destruct (binary_round_exact true v M (- ez)) as (m' & -> & Hm');
      [lia | simpl in Hsum; lia | lia|].
    now rewrite (ofBinary64_normal true v m') by (simpl in Hsum; lia || exact Hm').
Qed.

(** On the safe integers the addition of the platform is the addition of
    integers. *)
Lemma plus64_exact (a b : Z) :
  Z.abs a <= MAX_SAFE_INTEGER -> Z.abs b <= MAX_SAFE_INTEGER ->
  Z.abs (a + b) <= MAX_SAFE_INTEGER ->
  plus64 a b = Some (a + b).
Proof.
  unfold MAX_SAFE_INTEGER, plus64, toBinary64, binary_normalize.
  intros Ha Hb Hab.
  assert (Hlimit : forall v : positive,
             Z.abs (Z.pos v) <= 2 ^ 53 - 1 -> Z.pos v < 2 ^ 53) by (intros; lia).
  assert (Hlimit' : forall v : positive,
             Z.abs (Z.neg v) <= 2 ^ 53 - 1 -> Z.pos v < 2 ^ 53) by (intros; lia).
  destruct a as [|va|va], b as [|vb|vb]; try reflexivity.
  - destruct (toBinary64_normal false vb) as (m & -> & Hm); [lia|].
    cbn [SFadd]. now rewrite ofBinary64_normal by (lia || exact Hm).
  - destruct (toBinary64_normal true vb) as (m & -> & Hm); [lia|].
    cbn [SFadd]. now rewrite ofBinary64_normal by (lia || exact Hm).
  - destruct (toBinary64_normal false va) as (m & -> & Hm); [lia|].
    cbn [SFadd]. now rewrite ofBinary64_normal by (lia || exact Hm).
  - destruct (toBinary64_normal false va) as (ma & -> & Hma); [lia|].
    destruct (toBinary64_normal false vb) as (mb & -> & Hmb); [lia|].
    apply (SFadd_exact false false); try assumption; unfold cond_Zopp; lia.
  - destruct (toBinary64_normal false va) as (ma & -> & Hma); [lia|].
    destruct (toBinary64_normal true vb) as (mb & -> & Hmb); [lia|].
    apply (SFadd_exact false true); try assumption; unfold cond_Zopp; lia.
  - destruct (toBinary64_normal true va) as (m & -> & Hm); [lia|].
    cbn [SFadd]. now rewrite ofBinary64_normal by (lia || exact Hm).
  - destruct (toBinary64_normal true va) as (ma & -> & Hma); [lia|].
    destruct (toBinary64_normal false vb) as (mb & -> & Hmb); [lia|].
    apply (SFadd_exact true false); try assumption; unfold cond_Zopp; lia.
  - destruct (toBinary64_normal true va) as (ma & -> & Hma); [lia|].
    destruct (toBinary64_normal true vb) as (mb & -> & Hmb); [lia|].
    apply (SFadd_exact true true); try assumption; unfold cond_Zopp; lia.
Qed.

(** Beyond the safe integers it rounds: on [2^53], adding 1 twice leaves
    [2^53], adding 2 once gives [2^53 + 2]. *)
Example plus64_rounds_beyond_safe_integers :
  plus64 (MAX_SAFE_INTEGER + 1) 1 = Some (MAX_SAFE_INTEGER + 1) /\
  plus64 (MAX_SAFE_INTEGER + 1) 2 = Some (MAX_SAFE_INTEGER + 3) /\
  plus64 MAX_SAFE_INTEGER 1 = Some (MAX_SAFE_INTEGER + 1) /\
  plus64 3 4 = Some 7 /\ plus64 (-5) 2 = Some (-3).
Proof. vm_compute. repeat split. Qed.

End NumbersFacts.

(** ** Running the cart store *)

Module CartFacts.
Import Cart.

Lemma bind_ret_l {A B} (a : A) (k : A -> M B) : bind (ret a) k = k a.
Proof. reflexivity. Qed.

Lemma bind_run {A B} (m : M A) (k : A -> M B) w a w' :
  m w = (Return a, w') -> bind m k w = k a w'.
Proof. intros Hm. unfold bind. now rewrite Hm. Qed.

(** Reading never throws and never changes the world. *)
Lemma getCart_run w : getCart w = (Return (getAll w), w).
Proof.
  unfold getAll.
  unfold getCart, bind, tryCatch, typeofWindowUndefined, getItem, ret.
  destruct (windowDefined w); simpl; [|reflexivity].
  destruct (readFails w); simpl; [reflexivity|].
  destruct (localStorage w !! STORAGE_KEY) as [[| |[items|]]|]; reflexivity.
Qed.

Lemma getAll_stored w items :
  windowDefined w = true -> readFails w = false ->
  localStorage w !! STORAGE_KEY = Some (JsonText (JsonArray items)) ->
  getAll w = items.
Proof.
  intros Hw Hr Hs. unfold getAll.
  unfold getCart, bind, tryCatch, typeofWindowUndefined, getItem, ret.
  rewrite Hw. simpl. rewrite Hr. simpl. now rewrite Hs.
Qed.

Lemma setCart_returns w items :
  Browser w -> fst (setCart items w) = Return tt.
Proof.
  intros (Hw & Hr & Hx).
  unfold setCart, bind, typeofWindowUndefined, setItem, emitCartChanged,
    bind, typeofWindowUndefined, dispatchEvent, ret.
  rewrite Hw. simpl. rewrite Hx. simpl. rewrite Hw. reflexivity.
Qed.

Lemma setCart_browser w items :
  Browser w -> Browser (exec (setCart items) w).
Proof.
  intros (Hw & Hr & Hx).
  unfold exec, setCart, bind, typeofWindowUndefined, setItem, emitCartChanged,
    bind, typeofWindowUndefined, dispatchEvent, ret.
  rewrite Hw. simpl. rewrite Hx. simpl. rewrite Hw. simpl.
  repeat split; assumption.
Qed.

Lemma getAll_setCart w items :
  Browser w -> getAll (exec (setCart items) w) = items.
Proof.
  intros (Hw & Hr & Hx).
  unfold exec, setCart, bind, typeofWindowUndefined, setItem, emitCartChanged,
    bind, typeofWindowUndefined, dispatchEvent, ret.
  rewrite Hw. simpl. rewrite Hx. simpl. rewrite Hw. simpl.
  apply getAll_stored; simpl; [congruence | congruence |].
  apply lookup_insert_eq.
Qed.

(** [findIndex] stops at the first match. *)
Lemma findIndexFrom_first {A} (p : A -> bool) pre cur post i :
  Forall (fun x => p x = false) pre -> p cur = true ->
  findIndexFrom p i (pre ++ cur :: post) = i + Z.of_nat (length pre).
Proof.
  intros Hpre Hcur. revert i.
  induction Hpre as [|x pre Hx _ IH]; intros i; simpl.
  - rewrite Hcur. lia.
  - rewrite Hx, IH. lia.
Qed.

Lemma findIndexFrom_none {A} (p : A -> bool) l i :
  Forall (fun x => p x = false) l -> findIndexFrom p i l = -1.
Proof.
  intros Hl. revert i.
  induction Hl as [|x l Hx _ IH]; intros i; simpl; [reflexivity|].
  now rewrite Hx, IH.
Qed.

(** Either no element satisfies [p], or the list splits at the first one
    that does. *)
Lemma first_match {A} (p : A -> bool) (l : list A) :
  Forall (fun x => p x = false) l \/
  exists pre cur post,
    l = pre ++ cur :: post /\ Forall (fun x => p x = false) pre /\ p cur = true.
Proof.
  induction l as [|x l IH].
  - left. constructor.
  - destruct (p x) eqn:Hx.
    + right. exists [], x, l. repeat split; [constructor | exact Hx].
    + destruct IH as [Hnone | (pre & cur & post & -> & Hpre & Hcur)].
      * left. now constructor.
      * right. exists (x :: pre), cur, post.
        repeat split; [now constructor | exact Hcur].
Qed.

Lemma sameKey_true k i : sameKey k i = true <-> keyOf i = k.
Proof. unfold sameKey. apply bool_decide_eq_true. Qed.

Lemma sameKey_false k i : sameKey k i = false <-> keyOf i <> k.
Proof. unfold sameKey. apply bool_decide_eq_false. Qed.

Lemma keyOf_withQty (i : CartItem) n : keyOf (withQty i n) = keyOf i.
Proof. reflexivity. Qed.

(** The two branches of [addToCart] in a working browser. *)
Lemma addToCart_existing w input pre cur post :
  getAll w = pre ++ cur :: post ->
  Forall (fun i => keyOf i <> keyOf input) pre ->
  keyOf cur = keyOf input ->
  addToCart input w =
  setCart (pre ++ withQty cur (Z.max 1 (qty cur + Z.max 1 (qty input))) :: post) w.
Proof.
  intros Hitems Hpre Hcur.
  unfold addToCart. rewrite (bind_run _ _ _ _ _ (getCart_run w)).
  rewrite Hitems. unfold findIndex. cbv zeta.
  rewrite (findIndexFrom_first _ pre cur post 0).
  - rewrite bool_decide_eq_true_2 by lia.
    rewrite Z.add_0_l, !Nat2Z.id.
    unfold elementAt. rewrite list_lookup_middle by lia.
    rewrite !bind_ret_l.
    rewrite insert_app_r_alt by lia. rewrite Nat.sub_diag.
    reflexivity.
  - eapply Forall_impl; [exact Hpre|]. intros i Hi. simpl.
    now apply bool_decide_eq_false.
  - now apply bool_decide_eq_true.
Qed.

Lemma addToCart_fresh w input :
  Forall (fun i => keyOf i <> keyOf input) (getAll w) ->
  addToCart input w =
  setCart (getAll w ++ [withQty input (Z.max 1 (qty input))]) w.
Proof.
  intros Hnone.
  unfold addToCart. rewrite (bind_run _ _ _ _ _ (getCart_run w)).
  unfold findIndex. rewrite findIndexFrom_none.
  - reflexivity.
  - eapply Forall_impl; [exact Hnone|]. intros i Hi. simpl.
    now apply bool_decide_eq_false.
Qed.

Lemma updateCartItem_run w params :
  updateCartItem params w =
  setCart
    (filter (fun i => 0 < qty i)
       (map (replaceQty (keyOf params) params) (getAll w))) w.
Proof.
  unfold updateCartItem. now rewrite (bind_run _ _ _ _ _ (getCart_run w)).
Qed.

Lemma removeCartItem_run w params :
  removeCartItem params w =
  setCart (filter (fun i => keyOf i <> keyOf params) (getAll w)) w.
Proof.
  unfold removeCartItem. now rewrite (bind_run _ _ _ _ _ (getCart_run w)).
Qed.

(** List facts behind [updateCartItem] and [removeCartItem]. *)
Lemma replaceQty_key k params i : keyOf (replaceQty k params i) = keyOf i.
Proof. unfold replaceQty. now destruct (bool_decide (keyOf i <> k)). Qed.

Lemma replaceQty_same k params i :
  keyOf i = k -> replaceQty k params i = withQty i (upQty params).
Proof.
  intros Hk. unfold replaceQty.
  rewrite bool_decide_eq_false_2; [reflexivity|]. intros Hne. now apply Hne.
Qed.

Lemma replaceQty_other k params i :
  keyOf i <> k -> replaceQty k params i = i.
Proof. intros Hk. unfold replaceQty. now rewrite bool_decide_eq_true_2. Qed.

Lemma replaceQty_keys k params l :
  map keyOf (map (replaceQty k params) l) = map keyOf l.
Proof.
  induction l as [|i l IH]; simpl; [reflexivity|].
  now rewrite replaceQty_key, IH.
Qed.

Lemma update_drops_line k params l :
  upQty params <= 0 ->
  Forall (fun i => keyOf i <> k)
    (filter (fun i => 0 < qty i) (map (replaceQty k params) l)).
Proof.
  intros Hq. induction l as [|i l IH]; simpl; [constructor|].
  destruct (decide (keyOf i = k)) as [Hk|Hk].
  - rewrite replaceQty_same by exact Hk.
    rewrite filter_cons_False; [exact IH | simpl; lia].
  - rewrite replaceQty_other by exact Hk.
    destruct (decide (0 < qty i)).
    + rewrite filter_cons_True by assumption. now constructor.
    + now rewrite filter_cons_False by assumption.
Qed.

Lemma update_replaces_line k params l :
  0 < upQty params ->
  filter (fun i => keyOf i = k)
    (filter (fun i => 0 < qty i) (map (replaceQty k params) l)) =
  map (fun i => withQty i (upQty params)) (filter (fun i => keyOf i = k) l).
Proof.
  intros Hq. induction l as [|i l IH]; simpl; [reflexivity|].
  destruct (decide (keyOf i = k)) as [Hk|Hk].
  - rewrite replaceQty_same by exact Hk.
    rewrite filter_cons_True by (simpl; lia).
    rewrite filter_cons_True by exact Hk.
    rewrite (filter_cons_True (fun i => keyOf i = k) i) by exact Hk.
    simpl. now rewrite IH.
  - rewrite replaceQty_other by exact Hk.
    rewrite (filter_cons_False (fun i => keyOf i = k) i) by exact Hk.
    destruct (decide (0 < qty i)).
    + rewrite filter_cons_True by assumption.
      now rewrite filter_cons_False by exact Hk.
    + now rewrite filter_cons_False by assumption.
Qed.

Lemma update_keeps_others k params l :
  filter (fun i => keyOf i <> k)
    (filter (fun i => 0 < qty i) (map (replaceQty k params) l)) =
  filter (fun i => 0 < qty i) (filter (fun i => keyOf i <> k) l).
Proof.
  induction l as [|i l IH]; simpl; [reflexivity|].
  destruct (decide (keyOf i = k)) as [Hk|Hk].
  - rewrite replaceQty_same by exact Hk.
    rewrite (filter_cons_False (fun i => keyOf i <> k) i)
      by (intros Hne; now apply Hne).
    destruct (decide (0 < upQty params)).
    + rewrite filter_cons_True by (simpl; assumption).
      rewrite filter_cons_False; [exact IH|]. intros Hne. now apply Hne.
    + now rewrite filter_cons_False by (simpl; assumption).
  - rewrite replaceQty_other by exact Hk.
    rewrite (filter_cons_True (fun i => keyOf i <> k) i) by exact Hk.
    destruct (decide (0 < qty i)).
    + rewrite !(filter_cons_True (fun i => 0 < qty i)) by assumption.
      rewrite filter_cons_True by exact Hk. now rewrite IH.
    + now rewrite !(filter_cons_False (fun i => 0 < qty i)) by assumption.
Qed.

Lemma remove_drops_line k (l : list CartItem) :
  Forall (fun i => keyOf i <> k) (filter (fun i => keyOf i <> k) l).
Proof.
  induction l as [|i l IH]; [constructor|].
  rewrite filter_cons. destruct (decide (keyOf i <> k)); [|exact IH].
  now constructor.
Qed.

Lemma in_map_filter {A B} (f : A -> B) (P : A -> Prop)
    `{forall x, Decision (P x)} (l : list A) y :
  In y (map f (filter P l)) -> In y (map f l).
Proof.
  induction l as [|x l IH]; simpl; [tauto|].
  rewrite filter_cons. destruct (decide (P x)); simpl; tauto.
Qed.

Lemma NoDup_map_filter {A B} (f : A -> B) (P : A -> Prop)
    `{forall x, Decision (P x)} (l : list A) :
  NoDup (map f l) -> NoDup (map f (filter P l)).
Proof.
  induction l as [|x l IH]; simpl; intros Hnd; [constructor|].
  apply NoDup_cons in Hnd as [Hx Hnd]. rewrite filter_cons.
  destruct (decide (P x)); simpl; [|now apply IH].
  apply NoDup_cons. split; [|now apply IH].
  intros Hin. apply Hx.
  apply list_elem_of_In. apply list_elem_of_In in Hin.
  now apply in_map_filter in Hin.
Qed.

Lemma Forall_filter_weaken {A} (P Q : A -> Prop)
    `{forall x, Decision (P x)} (l : list A) :
  Forall Q l -> Forall Q (filter P l).
Proof.
  induction 1 as [|x l Hx _ IH]; [constructor|].
  rewrite filter_cons. destruct (decide (P x)); [now constructor | exact IH].
Qed.

Lemma Forall_filter_holds {A} (P : A -> Prop)
    `{forall x, Decision (P x)} (l : list A) :
  Forall P (filter P l).
Proof.
  induction l as [|x l IH]; [constructor|].
  rewrite filter_cons. destruct (decide (P x)); [now constructor | exact IH].
Qed.

End CartFacts.

(** ** The cart store *)

Module CartTheorems.
Import Cart CartFacts Numbers NumbersFacts.

Lemma emptyBrowser_is_browser : Browser emptyBrowser.
Proof. repeat split. Qed.

Lemma getAll_emptyBrowser : getAll emptyBrowser = [].
Proof. reflexivity. Qed.

Lemma stockedBrowser_is_browser items : Browser (stockedBrowser items).
Proof. repeat split. Qed.

Lemma getAll_stockedBrowser items : getAll (stockedBrowser items) = items.
Proof.
  apply getAll_stored; [reflexivity | reflexivity | apply lookup_singleton_eq].
Qed.

Lemma withQty_withQty (i : CartItem) a b : withQty (withQty i a) b = withQty i b.
Proof. reflexivity. Qed.

Lemma setCart_succeeds w items : Browser w -> succeeds (setCart items) w.
Proof. intros Hw. exists tt. now apply setCart_returns. Qed.

(** What one [addToCart] leaves in storage, in a working browser. *)
Lemma addToCart_result w input :
  Browser w ->
  succeeds (addToCart input) w /\
  Browser (exec (addToCart input) w) /\
  (forall pre cur post,
      getAll w = pre ++ cur :: post ->
      Forall (fun i => keyOf i <> keyOf input) pre ->
      keyOf cur = keyOf input ->
      getAll (exec (addToCart input) w) =
      pre ++ withQty cur (Z.max 1 (qty cur + Z.max 1 (qty input))) :: post) /\
  (Forall (fun i => keyOf i <> keyOf input) (getAll w) ->
   getAll (exec (addToCart input) w) =
   getAll w ++ [withQty input (Z.max 1 (qty input))]).
Proof.
  intros Hw.
  assert (Hrun : exists items, addToCart input w = setCart items w).
  { destruct (first_match (sameKey (keyOf input)) (getAll w))
      as [Hnone | (pre & cur & post & Hsplit & Hpre & Hcur)].
    - eexists. apply addToCart_fresh.
      eapply Forall_impl; [exact Hnone|]. intros i. apply sameKey_false.
    - eexists. eapply addToCart_existing; [exact Hsplit | | now apply sameKey_true].
      eapply Forall_impl; [exact Hpre|]. intros i. apply sameKey_false. }
  destruct Hrun as [items Hrun].
  split; [|split; [|split]].
  - unfold succeeds. rewrite Hrun. now apply setCart_succeeds.
  - unfold exec. rewrite Hrun. now apply setCart_browser.
  - intros pre cur post Hsplit Hpre Hcur. unfold exec.
    rewrite (addToCart_existing w input pre cur post Hsplit Hpre Hcur).
    now apply getAll_setCart.
  - intros Hnone. unfold exec. rewrite (addToCart_fresh w input Hnone).
    now apply getAll_setCart.
Qed.



(** C4, as the code has it.  For requested quantities [a >= 1] and [b >= 1]
    whose sum is a safe integer, and a cart in which every line with the key
    of the input has a quantity [q] with [0 <= q] and [q + a + b] a safe
    integer, adding [a] and then [b] leaves the same cart as adding [a + b]
    once, and every quantity stored under that key is a safe integer still.
    Within these bounds every addition that the three calls can perform,
    [a + b], [q + a], [(q + a) + b] and [q + (a + b)], is exact on binary64,
    so that the integer sums of the model are the sums the platform
    computes. *)
Theorem addToCart_twice_is_sum (w : World) (input : CartItem) (a b : Z) :
  Browser w -> 1 <= a -> 1 <= b -> a + b <= MAX_SAFE_INTEGER ->
  Forall (fun i => keyOf i = keyOf input ->
                   0 <= qty i <= MAX_SAFE_INTEGER - (a + b)) (getAll w) ->
  getAll (exec (addToCart (withQty input b))
               (exec (addToCart (withQty input a)) w)) =
  getAll (exec (addToCart (withQty input (a + b))) w) /\
  Forall (fun i => keyOf i = keyOf input -> 0 <= qty i <= MAX_SAFE_INTEGER)
         (getAll (exec (addToCart (withQty input (a + b))) w)) /\
  plus64 a b = Some (a + b) /\
  Forall (fun i => keyOf i = keyOf input ->
                   plus64 (qty i) a = Some (qty i + a) /\
                   plus64 (qty i + a) b = Some (qty i + a + b) /\
                   plus64 (qty i) (a + b) = Some (qty i + (a + b)))
         (getAll w).
Proof.
  intros Hw Ha Hb Hsum Hqty.
  assert (Hexact : plus64 a b = Some (a + b) /\
                   Forall (fun i => keyOf i = keyOf input ->
                             plus64 (qty i) a = Some (qty i + a) /\
                             plus64 (qty i + a) b = Some (qty i + a + b) /\
                             plus64 (qty i) (a + b) = Some (qty i + (a + b)))
                          (getAll w)).
  { split; [apply plus64_exact; lia|].
    eapply Forall_impl; [exact Hqty|]. intros i Hi Hk. specialize (Hi Hk).
    split; [|split]; apply plus64_exact; lia. }
  refine ((fun model => conj (proj1 model) (conj (proj2 model) Hexact)) _).
  clear Hexact.
  destruct (addToCart_result w (withQty input a) Hw) as (_ & Hw1 & Hm1 & Hn1).
  destruct (addToCart_result _ (withQty input b) Hw1) as (_ & _ & Hm2 & _).
  destruct (addToCart_result w (withQty input (a + b)) Hw) as (_ & _ & Hm & Hn).
  rewrite !keyOf_withQty in *.
  destruct (first_match (sameKey (keyOf input)) (getAll w))
    as [Hnone | (pre & cur & post & Hsplit & Hpre & Hcur)].
  - assert (Hnone' : Forall (fun i => keyOf i <> keyOf input) (getAll w)).
    { eapply Forall_impl; [exact Hnone|]. intros i. apply sameKey_false. }
    rewrite (Hn Hnone').
    rewrite (Hm2 (getAll w) (withQty (withQty input a)
                               (Z.max 1 (qty (withQty input a)))) []).
    + simpl qty. rewrite withQty_withQty. split.
      * f_equal. f_equal. f_equal. lia.
      * apply Forall_app. split.
        -- eapply Forall_impl; [exact Hnone'|]. intros i Hi Hk. contradiction.
        -- constructor; [|constructor]. intros _. simpl qty. lia.
    + now apply Hn1.
    + exact Hnone'.
    + reflexivity.
  - apply sameKey_true in Hcur.
    assert (Hpre' : Forall (fun i => keyOf i <> keyOf input) pre).
    { eapply Forall_impl; [exact Hpre|]. intros i. apply sameKey_false. }
    rewrite Hsplit in Hqty. apply Forall_app in Hqty as [_ Hqty].
    apply Forall_cons in Hqty as [Hcur0 Hpost]. specialize (Hcur0 Hcur).
    rewrite (Hm pre cur post Hsplit Hpre' Hcur).
    rewrite (Hm2 pre (withQty cur (Z.max 1 (qty cur + Z.max 1 (qty (withQty input a)))))
               post).
    + simpl qty. rewrite withQty_withQty. split.
      * f_equal. f_equal. f_equal. lia.
      * apply Forall_app. split.
        -- eapply Forall_impl; [exact Hpre'|]. intros i Hi Hk. contradiction.
        -- constructor.
           ++ intros _. simpl qty. lia.
           ++ eapply Forall_impl; [exact Hpost|]. intros i Hi Hk.
              specialize (Hi Hk). lia.
    + now apply Hm1.
    + exact Hpre'.
    + exact Hcur.
Qed.

Lemma addToCart_twice_is_sum_witness :
  (Browser (stockedBrowser [scenarioItem 5]) /\ 1 <= 1 /\ 1 <= 2
   /\ 1 + 2 <= MAX_SAFE_INTEGER) /\
  getAll (exec (addToCart (withQty (scenarioItem 0) 2))
               (exec (addToCart (withQty (scenarioItem 0) 1))
                     (stockedBrowser [scenarioItem 5]))) =
  getAll (exec (addToCart (withQty (scenarioItem 0) (1 + 2)))
               (stockedBrowser [scenarioItem 5])).
Proof.
  assert (Hsum : 1 + 2 <= MAX_SAFE_INTEGER) by (vm_compute; discriminate).
  split; [split; [apply stockedBrowser_is_browser | lia]|].
  refine (proj1 (addToCart_twice_is_sum (stockedBrowser [scenarioItem 5])
                   (scenarioItem 0) 1 2 _ _ _ Hsum _)).
  - apply stockedBrowser_is_browser.
  - lia.
  - lia.
  - rewrite getAll_stockedBrowser. constructor; [|constructor].
    intros _. unfold MAX_SAFE_INTEGER. simpl. lia.
Defined.

(** C4 as stated fails: with [a = 0] and [b = 1] the two calls store 2 (each
    request is raised to 1), one call with [a + b = 1] stores 1. *)
Lemma addToCart_zero_then_one_differs :
  map qty (getAll (exec (addToCart (scenarioItem 1))
                        (exec (addToCart (scenarioItem 0)) emptyBrowser))) = [2]
  /\ map qty (getAll (exec (addToCart (scenarioItem (0 + 1))) emptyBrowser)) = [1]
  /\ getAll (exec (addToCart (scenarioItem 1))
                  (exec (addToCart (scenarioItem 0)) emptyBrowser)) <>
     getAll (exec (addToCart (scenarioItem (0 + 1))) emptyBrowser).
Proof.
  destruct (addToCart_result emptyBrowser (scenarioItem 0) emptyBrowser_is_browser)
    as (_ & Hw1 & _ & Hn1).
  destruct (addToCart_result _ (scenarioItem 1) Hw1) as (_ & _ & Hm2 & _).
  destruct (addToCart_result emptyBrowser (scenarioItem (0 + 1))
              emptyBrowser_is_browser) as (_ & _ & _ & Hn).
  rewrite (Hn (List.Forall_nil _)).
  rewrite (Hm2 [] (withQty (scenarioItem 0) (Z.max 1 (qty (scenarioItem 0)))) []
             (Hn1 (List.Forall_nil _)) (List.Forall_nil _) eq_refl).
  repeat split. discriminate.
Qed.

(** What one [updateCartItem] leaves in storage, in a working browser. *)
Lemma updateCartItem_result (w : World) (params : UpdateParams) :
  Browser w ->
  succeeds (updateCartItem params) w /\
  (upQty params <= 0 ->
   Forall (fun i => keyOf i <> keyOf params)
          (getAll (exec (updateCartItem params) w))) /\
  (0 < upQty params ->
   filter (fun i => keyOf i = keyOf params)
          (getAll (exec (updateCartItem params) w)) =
   map (fun i => withQty i (upQty params))
       (filter (fun i => keyOf i = keyOf params) (getAll w))) /\
  filter (fun i => keyOf i <> keyOf params)
         (getAll (exec (updateCartItem params) w)) =
  filter (fun i => 0 < qty i)
         (filter (fun i => keyOf i <> keyOf params) (getAll w)).
Proof.
  intros Hw. unfold succeeds, exec. rewrite updateCartItem_run.
  fold (exec (setCart (filter (fun i => 0 < qty i)
                         (map (replaceQty (keyOf params) params) (getAll w)))) w).
  rewrite getAll_setCart by exact Hw.
  split; [now apply setCart_succeeds|].
  split; [apply update_drops_line|].
  split; [apply update_replaces_line | apply update_keeps_others].
Qed.

(** C6.  In a browser whose storage works, [updateCartItem] returns
    normally; with a quantity [<= 0] no stored line has the addressed key
    afterwards; with a quantity [> 0] the lines with the addressed key are the
    former ones with their quantity replaced by the new one (the old quantity
    plays no part), and the other lines are the former ones that have a
    positive quantity. *)
Theorem updateCartItem_removes_or_replaces (w : World) (params : UpdateParams) :
  Browser w ->
  succeeds (updateCartItem params) w /\
  (upQty params <= 0 ->
   Forall (fun i => keyOf i <> keyOf params)
          (getAll (exec (updateCartItem params) w))) /\
  (0 < upQty params ->
   filter (fun i => keyOf i = keyOf params)
          (getAll (exec (updateCartItem params) w)) =
   map (fun i => withQty i (upQty params))
       (filter (fun i => keyOf i = keyOf params) (getAll w))) /\
  filter (fun i => keyOf i <> keyOf params)
         (getAll (exec (updateCartItem params) w)) =
  filter (fun i => 0 < qty i)
         (filter (fun i => keyOf i <> keyOf params) (getAll w)).
Proof. apply updateCartItem_result. Qed.

Lemma updateCartItem_removes_or_replaces_witness :
  Browser (stockedBrowser [scenarioItem 4]) /\
  Forall (fun i => keyOf i <> keyOf (mkUpdateParams (js "A") (Some (js "250g")) 0))
    (getAll (exec (updateCartItem (mkUpdateParams (js "A") (Some (js "250g")) 0))
                  (stockedBrowser [scenarioItem 4]))).
Proof.
  split; [apply stockedBrowser_is_browser|].
  apply (updateCartItem_removes_or_replaces (stockedBrowser [scenarioItem 4])
           (mkUpdateParams (js "A") (Some (js "250g")) 0)
           (stockedBrowser_is_browser _)).
  simpl. lia.
Defined.

(** Concrete runs of [updateCartItem]: quantity 0 empties a one-line cart,
    quantity 7 replaces the stored 4 (it does not give 11). *)
Example updateCartItem_runs :
  getAll (exec (updateCartItem (mkUpdateParams (js "A") (Some (js "250g")) 0))
               (stockedBrowser [scenarioItem 4])) = []
  /\ getAll (exec (updateCartItem (mkUpdateParams (js "A") (Some (js "250g")) 7))
                  (stockedBrowser [scenarioItem 4])) = [scenarioItem 7].
Proof.
  unfold exec. rewrite !updateCartItem_run.
  fold (exec (setCart (filter (fun i => 0 < qty i)
     (map (replaceQty (keyOf (mkUpdateParams (js "A") (Some (js "250g")) 0))
             (mkUpdateParams (js "A") (Some (js "250g")) 0))
          (getAll (stockedBrowser [scenarioItem 4]))))) (stockedBrowser [scenarioItem 4])).
  fold (exec (setCart (filter (fun i => 0 < qty i)
     (map (replaceQty (keyOf (mkUpdateParams (js "A") (Some (js "250g")) 7))
             (mkUpdateParams (js "A") (Some (js "250g")) 7))
          (getAll (stockedBrowser [scenarioItem 4]))))) (stockedBrowser [scenarioItem 4])).
  rewrite !getAll_setCart by apply stockedBrowser_is_browser.
  rewrite getAll_stockedBrowser. split; reflexivity.
Qed.

(** After [setCart items] a reader sees [items] (the write landed), the
    former cart (no [window], or the write threw), or nothing (reads throw). *)
Lemma getAll_setCart_cases w items :
  getAll (exec (setCart items) w) = items
  \/ getAll (exec (setCart items) w) = getAll w
  \/ getAll (exec (setCart items) w) = [].
Proof.
  unfold exec, setCart, bind, typeofWindowUndefined, setItem, emitCartChanged,
    bind, typeofWindowUndefined, dispatchEvent, ret.
  destruct (windowDefined w) eqn:Hw; simpl; [|now (right; left)].
  destruct (writeFails w) eqn:Hx; simpl; [now (right; left)|].
  rewrite Hw. simpl.
  destruct (readFails w) eqn:Hr.
  - right. right. reflexivity.
  - left. apply getAll_stored; simpl; [reflexivity | reflexivity |].
    apply lookup_insert_eq.
Qed.

Lemma CartInvariant_nil : CartInvariant [].
Proof. split; constructor. Qed.

Lemma CartInvariant_setCart w items :
  CartInvariant (getAll w) -> CartInvariant items ->
  CartInvariant (getAll (exec (setCart items) w)).
Proof.
  intros Hw Hitems.
  destruct (getAll_setCart_cases w items) as [-> | [-> | ->]];
    [exact Hitems | exact Hw | exact CartInvariant_nil].
Qed.

(** The list that [addToCart] hands to [setCart] keeps the invariant. *)
Lemma addToCart_as_setCart w input :
  exists items,
    addToCart input w = setCart items w /\
    (CartInvariant (getAll w) -> CartInvariant items).
Proof.
  destruct (first_match (sameKey (keyOf input)) (getAll w))
    as [Hnone | (pre & cur & post & Hsplit & Hpre & Hcur)].
  - assert (Hnone' : Forall (fun i => keyOf i <> keyOf input) (getAll w)).
    { eapply Forall_impl; [exact Hnone|]. intros i. apply sameKey_false. }
    eexists. split; [now apply addToCart_fresh|].
    intros [Hnd Hpos]. split.
    + rewrite map_app. simpl. apply NoDup_app. repeat split.
      * exact Hnd.
      * intros x Hx Hin. apply list_elem_of_singleton in Hin. subst x.
        apply list_elem_of_In, in_map_iff in Hx as (i & Hi & Hin).
        rewrite Forall_forall in Hnone'.
        apply (Hnone' i); [now apply list_elem_of_In | exact Hi].
      * apply NoDup_singleton.
    + apply Forall_app. split; [exact Hpos|].
      constructor; [simpl; lia | constructor].
  - apply sameKey_true in Hcur.
    assert (Hpre' : Forall (fun i => keyOf i <> keyOf input) pre).
    { eapply Forall_impl; [exact Hpre|]. intros i. apply sameKey_false. }
    eexists. split; [now apply (addToCart_existing w input pre cur post)|].
    rewrite Hsplit. intros [Hnd Hpos]. split.
    + rewrite map_app in *. exact Hnd.
    + apply Forall_app in Hpos as [Hp1 Hp2].
      apply Forall_cons in Hp2 as [_ Hp2].
      apply Forall_app. split; [exact Hp1|].
      constructor; [simpl; lia | exact Hp2].
Qed.

(** C7.  From any state whose stored cart has pairwise distinct keys and
    only positive quantities, each of [addToCart], [updateCartItem],
    [removeCartItem] and [clearCart] leaves a stored cart with pairwise
    distinct keys and only positive quantities; in a browser whose storage
    works each of them also returns normally. *)
Theorem mutations_preserve_invariant (w : World) :
  CartInvariant (getAll w) ->
  (forall input, CartInvariant (getAll (exec (addToCart input) w))) /\
  (forall params, CartInvariant (getAll (exec (updateCartItem params) w))) /\
  (forall params, CartInvariant (getAll (exec (removeCartItem params) w))) /\
  CartInvariant (getAll (exec clearCart w)) /\
  (Browser w ->
   (forall input, succeeds (addToCart input) w) /\
   (forall params, succeeds (updateCartItem params) w) /\
   (forall params, succeeds (removeCartItem params) w) /\
   succeeds clearCart w).
Proof.
  intros Hinv. split; [|split; [|split; [|split]]].
  - intros input.
    destruct (addToCart_as_setCart w input) as (items & Hrun & Hitems).
    unfold exec. rewrite Hrun. apply CartInvariant_setCart; auto.
  - intros params. unfold exec. rewrite updateCartItem_run.
    apply CartInvariant_setCart; [exact Hinv|].
    destruct Hinv as [Hnd Hpos]. split.
    + apply NoDup_map_filter. now rewrite replaceQty_keys.
    + apply Forall_filter_holds.
  - intros params. unfold exec. rewrite removeCartItem_run.
    apply CartInvariant_setCart; [exact Hinv|].
    destruct Hinv as [Hnd Hpos]. split.
    + now apply NoDup_map_filter.
    + now apply Forall_filter_weaken.
  - apply CartInvariant_setCart; [exact Hinv | exact CartInvariant_nil].
  - intros Hw. repeat split.
    + intros input. now destruct (addToCart_result w input Hw).
    + intros params. unfold succeeds. rewrite updateCartItem_run.
      now apply setCart_succeeds.
    + intros params. unfold succeeds. rewrite removeCartItem_run.
      now apply setCart_succeeds.
    + now apply setCart_succeeds.
Qed.

Lemma mutations_preserve_invariant_witness :
  CartInvariant (getAll (stockedBrowser [scenarioItem 4])) /\
  CartInvariant
    (getAll (exec (addToCart (scenarioItem 2)) (stockedBrowser [scenarioItem 4]))).
Proof.
  assert (Hinv : CartInvariant (getAll (stockedBrowser [scenarioItem 4]))).
  { rewrite getAll_stockedBrowser. split.
    - apply NoDup_singleton.
    - constructor; [simpl; lia | constructor]. }
  split; [exact Hinv|].
  exact (proj1 (mutations_preserve_invariant (stockedBrowser [scenarioItem 4]) Hinv)
               (scenarioItem 2)).
Defined.

(** C8.  [getCart] never throws and leaves the world as it is.  It returns
    the stored list itself when the slot holds the JSON text of an array, and
    the empty list when there is no [window], when reading the storage throws,
    when the slot is missing or empty, when its text is not JSON, and when it
    is the JSON text of something that is not an array. *)
Theorem getCart_never_throws (w : World) :
  (exists items, getCart w = (Return items, w)) /\
  (forall items,
      windowDefined w = true -> readFails w = false ->
      localStorage w !! STORAGE_KEY = Some (JsonText (JsonArray items)) ->
      fst (getCart w) = Return items) /\
  (windowDefined w = false \/ readFails w = true
   \/ localStorage w !! STORAGE_KEY = None
   \/ localStorage w !! STORAGE_KEY = Some EmptyText
   \/ localStorage w !! STORAGE_KEY = Some NotJson
   \/ localStorage w !! STORAGE_KEY = Some (JsonText JsonOther) ->
   fst (getCart w) = Return []).
Proof.
  split; [|split].
  - exists (getAll w). apply getCart_run.
  - intros items Hw Hr Hs. rewrite getCart_run. simpl.
    f_equal. now apply getAll_stored.
  - unfold getCart, bind, tryCatch, typeofWindowUndefined, getItem, ret.
    destruct (windowDefined w); simpl; [|reflexivity].
    destruct (readFails w); simpl; [reflexivity|].
    intros [Hw | [Hr | [Hs | [Hs | [Hs | Hs]]]]];
      try discriminate; now rewrite Hs.
Qed.

Lemma getCart_never_throws_witness :
  localStorage (stockedBrowser [scenarioItem 4]) !! STORAGE_KEY
  = Some (JsonText (JsonArray [scenarioItem 4])) /\
  fst (getCart (stockedBrowser [scenarioItem 4])) = Return [scenarioItem 4].
Proof.
  split; [apply lookup_singleton_eq|].
  apply (proj1 (proj2 (getCart_never_throws (stockedBrowser [scenarioItem 4])))).
  - reflexivity.
  - reflexivity.
  - apply lookup_singleton_eq.
Defined.

(** Runs of [getCart] on damaged storage. *)
Example getCart_degrades :
  let damaged text :=
    {| windowDefined := true; readFails := false; writeFails := false;
       localStorage := {[ STORAGE_KEY := text ]}; dispatched := [] |} in
  fst (getCart (damaged NotJson)) = Return []
  /\ fst (getCart (damaged (JsonText JsonOther))) = Return []
  /\ fst (getCart (damaged EmptyText)) = Return []
  /\ fst (getCart {| windowDefined := true; readFails := true;
                     writeFails := false;
                     localStorage := {[ STORAGE_KEY := JSON_stringify [scenarioItem 1] ]};
                     dispatched := [] |}) = Return []
  /\ fst (getCart {| windowDefined := false; readFails := false;
                     writeFails := false;
                     localStorage := {[ STORAGE_KEY := JSON_stringify [scenarioItem 1] ]};
                     dispatched := [] |}) = Return [].
Proof.
  cbv zeta. unfold getCart, bind, tryCatch, typeofWindowUndefined, getItem, ret.
  simpl. rewrite !lookup_singleton_eq. repeat split.
Qed.

Lemma keyOf_default {A} `{HasIdentity A} (x : A) :
  isDefaultLabel (identVariantLabel x) -> keyOf x = identSku x ++ js "::default".
Proof. unfold keyOf. intros [-> | ->]; reflexivity. Qed.



End CartTheorems.

(** ** JavaScript strings *)

Module JsStringFacts.

Lemma hasUnit_cons sep c r :
  hasUnit sep (c :: r) = ((sep =? c)%N || hasUnit sep r).
Proof. reflexivity. Qed.

Lemma splitHead_absent sep s : hasUnit sep s = false -> splitHead sep s = s.
Proof.
  induction s as [|c r IH]; [reflexivity|].
  rewrite hasUnit_cons. intros H. apply orb_false_elim in H as [Hc Hr].
  cbn [splitHead]. rewrite N.eqb_sym, Hc. now rewrite IH.
Qed.

Lemma unescape_no_percent s :
  hasUnit PERCENT s = false -> unescape s = Some (map Lit s).
Proof.
  induction s as [|c r IH]; [reflexivity|].
  rewrite hasUnit_cons. intros H. apply orb_false_elim in H as [Hc Hr].
  cbn [unescape map]. rewrite N.eqb_sym, Hc. now rewrite IH.
Qed.

Lemma utf8_literals s : utf8 (map Lit s) = Some s.
Proof.
  induction s as [|c r IH]; simpl; [reflexivity|]. now rewrite IH.
Qed.

(** Without a [%] there is nothing to decode. *)
Lemma decodeURIComponent_no_percent s :
  hasUnit PERCENT s = false -> decodeURIComponent s = Return s.
Proof.
  intros H. unfold decodeURIComponent.
  rewrite (unescape_no_percent s H). simpl. now rewrite utf8_literals.
Qed.

Lemma trimStart_noLeadingSpace s : noLeadingSpace (trimStart s).
Proof.
  induction s as [|c r IH]; simpl; [exact I|].
  destruct (isWhiteSpace c) eqn:Hc; [exact IH | exact Hc].
Qed.

Lemma trimStart_fixed s : noLeadingSpace s -> trimStart s = s.
Proof. destruct s as [|c r]; simpl; [reflexivity|]. now intros ->. Qed.

Lemma trimStart_suffix s : exists p, s = p ++ trimStart s.
Proof.
  induction s as [|c r [p Hp]]; simpl.
  - now exists [].
  - destruct (isWhiteSpace c).
    + exists (c :: p). simpl. now f_equal.
    + now exists [].
Qed.

Lemma noLeadingSpace_prefix s t : noLeadingSpace (s ++ t) -> noLeadingSpace s.
Proof. destruct s; simpl; [trivial | tauto]. Qed.

Lemma trimEnd_noLeadingSpace s : noLeadingSpace s -> noLeadingSpace (trimEnd s).
Proof.
  intros Hs. unfold trimEnd.
  destruct (trimStart_suffix (rev s)) as [p Hp].
  apply (noLeadingSpace_prefix _ (rev p)).
  rewrite <- rev_app_distr, <- Hp. now rewrite rev_involutive.
Qed.

Lemma trimEnd_idem s : trimEnd (trimEnd s) = trimEnd s.
Proof.
  unfold trimEnd. rewrite rev_involutive.
  now rewrite (trimStart_fixed _ (trimStart_noLeadingSpace (rev s))).
Qed.

Lemma trim_idem s : trim (trim s) = trim s.
Proof.
  unfold trim.
  rewrite (trimStart_fixed (trimEnd (trimStart s))).
  - apply trimEnd_idem.
  - apply trimEnd_noLeadingSpace, trimStart_noLeadingSpace.
Qed.

(** The Basic Latin tables obey the laws. *)

Lemma lowerUnit_idem c : lowerUnit (lowerUnit c) = lowerUnit c.
Proof.
  unfold lowerUnit.
  destruct (N.leb_spec 65 c), (N.leb_spec c 90); simpl; try reflexivity;
    decide_comparisons.
Qed.

Lemma isWhiteSpace_lowerUnit c : isWhiteSpace (lowerUnit c) = isWhiteSpace c.
Proof.
  unfold lowerUnit.
  destruct (N.leb_spec 65 c), (N.leb_spec c 90); simpl; try reflexivity.
  unfold isWhiteSpace. decide_comparisons.
Qed.

Lemma trimStart_asciiLower s :
  trimStart (map lowerUnit s) = map lowerUnit (trimStart s).
Proof.
  induction s as [|c r IH]; simpl; [reflexivity|].
  rewrite isWhiteSpace_lowerUnit. now destruct (isWhiteSpace c).
Qed.

Lemma trim_asciiLower s : trim (asciiLower s) = asciiLower (trim s).
Proof.
  unfold trim, trimEnd, asciiLower.
  rewrite trimStart_asciiLower, <- map_rev.
  rewrite trimStart_asciiLower, <- map_rev.
  reflexivity.
Qed.

Lemma basicLatin_lawful : LawfulCase basicLatin.
Proof.
  split; simpl.
  - reflexivity.
  - intros s. unfold asciiLower. rewrite map_map.
    apply map_ext. intros c. apply lowerUnit_idem.
  - intros s Hs. rewrite trim_asciiLower. now rewrite Hs.
Qed.

End JsStringFacts.

(** ** The slug normaliser *)

Module TextTheorems.
Import JsStringFacts Text.

Lemma isPlain_parts s :
  isPlain s = true ->
  hasUnit PERCENT s = false /\ hasUnit QUESTION s = false
  /\ hasUnit HASH s = false.
Proof.
  unfold isPlain. intros H. apply negb_true_iff in H.
  apply orb_false_elim in H as [H Hh]. apply orb_false_elim in H as [Hp Hq].
  now repeat split.
Qed.

(** What [normalizeSlug] returns is the lower-cased trimming of something. *)
Lemma normalizeSlug_shape {U : Unicode} x :
  exists d, normalizeSlug (IsString x) = toLowerCase (trim d).
Proof.
  unfold normalizeSlug.
  destruct (decodeURIComponent (splitHead HASH (splitHead QUESTION x)));
    eexists; reflexivity.
Qed.

(** C2, as the code has it.  For a lawful case mapping and every string [x]
    whose normal form has no [%], no [?] and no [#], normalising the normal
    form again changes nothing. *)
Theorem normalizeSlug_idempotent_on_plain {U : Unicode} (x : jsstring) :
  LawfulCase U ->
  isPlain (normalizeSlug (IsString x)) = true ->
  normalizeSlug (IsString (normalizeSlug (IsString x)))
  = normalizeSlug (IsString x).
Proof.
  intros HU Hplain.
  destruct (isPlain_parts _ Hplain) as (Hp & Hq & Hh).
  destruct (normalizeSlug_shape x) as [d Hd].
  set (y := normalizeSlug (IsString x)) in *.
  unfold normalizeSlug at 1.
  rewrite (splitHead_absent QUESTION y Hq), (splitHead_absent HASH y Hh).
  rewrite (decodeURIComponent_no_percent y Hp).
  rewrite Hd.
  rewrite (toLowerCase_trimmed U HU (trim d) (trim_idem d)).
  apply (toLowerCase_idem U HU).
Qed.

Lemma normalizeSlug_idempotent_on_plain_witness :
  (LawfulCase basicLatin /\
   isPlain (normalizeSlug (U := basicLatin)
              (IsString (js "  Castanha%20do%20Par%C3%A1?ref=1#topo"))) = true)
  /\ normalizeSlug (U := basicLatin)
       (IsString (normalizeSlug (U := basicLatin)
                    (IsString (js "  Castanha%20do%20Par%C3%A1?ref=1#topo"))))
     = normalizeSlug (U := basicLatin)
         (IsString (js "  Castanha%20do%20Par%C3%A1?ref=1#topo")).
Proof.
  split; [split; [exact basicLatin_lawful | reflexivity]|].
  apply (normalizeSlug_idempotent_on_plain (U := basicLatin)
           (js "  Castanha%20do%20Par%C3%A1?ref=1#topo") basicLatin_lawful).
  reflexivity.
Defined.

(** Runs of [normalizeSlug]. *)
Example normalizeSlug_runs :
  normalizeSlug (U := basicLatin)
    (IsString (js "  Castanha%20do%20Par%C3%A1?ref=1#topo"))
  = js "castanha do pará"
  /\ normalizeSlug (U := basicLatin) (IsString (js "Mix%ZZ#x")) = js "mix%zz"
  /\ normalizeSlug (U := basicLatin) NotString = [].
Proof. repeat split. Qed.

(** C2 as stated fails.  The escape [%3F] decodes to [?], so the normal form
    of ["a%3Fb"] is ["a?b"], and normalising that cuts it down to ["a"].  The
    strings are lower-case Basic Latin, on which every case mapping agrees
    with [basicLatin]. *)
Lemma normalizeSlug_not_idempotent :
  normalizeSlug (U := basicLatin) (IsString (js "a%3Fb")) = js "a?b"
  /\ normalizeSlug (U := basicLatin)
       (IsString (normalizeSlug (U := basicLatin) (IsString (js "a%3Fb"))))
     = js "a"
  /\ normalizeSlug (U := basicLatin)
       (IsString (normalizeSlug (U := basicLatin) (IsString (js "a%3Fb"))))
     <> normalizeSlug (U := basicLatin) (IsString (js "a%3Fb")).
Proof. repeat split. discriminate. Qed.

End TextTheorems.

(** ** The catalogue normaliser *)

Module CatalogTheorems.
Import Catalog.

Lemma images_toCatalogProduct {U : Unicode} bySku p :
  images (toCatalogProduct bySku p) =
  match photo_url p with
  | Some (c :: r) => [c :: r]
  | _ => [Text.PLACEHOLDER]
  end.
Proof. unfold toCatalogProduct. simpl. now destruct (photo_url p) as [[|c r]|]. Qed.

(** C3, as the code has it.  When neither query reports an error,
    [fetchCatalogProducts] returns one view model per product row, in the same
    order, and the images of each are [[photo_url]] when [photo_url] is
    present and not the empty string (it is not trimmed), and the one-element
    list of the local placeholder ["/placeholder.png"] otherwise. *)
Theorem images_is_photo_or_placeholder {U : Unicode}
    (productsQuery : QueryResult DbProduct) (variantsQuery : QueryResult DbVariant) :
  error productsQuery = None -> error variantsQuery = None ->
  exists views,
    fetchCatalogProducts productsQuery variantsQuery = Return views /\
    length views = length (default [] (data productsQuery)) /\
    forall n p, default [] (data productsQuery) !! n = Some p ->
      exists view,
        views !! n = Some view /\
        images view = match photo_url p with
                      | Some (c :: r) => [c :: r]
                      | _ => [Text.PLACEHOLDER]
                      end.
Proof.
  intros Hp Hv. unfold fetchCatalogProducts. rewrite Hp.
  set (products := default [] (data productsQuery)).
  destruct (bool_decide (length products = 0%nat)) eqn:Hlen.
  - apply bool_decide_eq_true in Hlen.
    exists []. split; [reflexivity|]. split; [now rewrite Hlen|].
    intros n p Hn. apply lookup_lt_Some in Hn. lia.
  - rewrite Hv. eexists. split; [reflexivity|].
    split; [apply length_map|].
    intros n p Hn.
    exists (toCatalogProduct (indexBySku (default [] (data variantsQuery))) p).
    split; [|apply images_toCatalogProduct].
    change (map ?f ?l) with (f <$> l).
    now rewrite list_lookup_fmap, Hn.
Qed.

Lemma images_is_photo_or_placeholder_witness :
  let productsQuery :=
    {| data := Some [sampleProduct (Some (js "https://cdn/x.png"));
                     sampleProduct None];
       error := None |} in
  let variantsQuery := {| data := Some []; error := None |} in
  (error productsQuery = None /\ error variantsQuery = None) /\
  exists views,
    fetchCatalogProducts (U := basicLatin) productsQuery variantsQuery
    = Return views /\
    length views = 2%nat.
Proof.
  intros productsQuery variantsQuery. split; [split; reflexivity|].
  destruct (images_is_photo_or_placeholder (U := basicLatin)
              productsQuery variantsQuery eq_refl eq_refl)
    as (views & Hrun & Hlen & _).
  exists views. split; [exact Hrun | exact Hlen].
Defined.

(** C3 as stated fails.  A [photo_url] made of three spaces is empty after
    trimming, yet it is what the normalised product gets as its image; the
    placeholder is not substituted. *)
Lemma blank_photo_url_is_kept :
  trim (js "   ") = []
  /\ fetchCatalogProducts (U := basicLatin)
       {| data := Some [sampleProduct (Some (js "   "))]; error := None |}
       {| data := Some []; error := None |}
     = Return [ {| id := js "001"; slug := js "mix-de-castanhas";
                   name := js "Mix de Castanhas"; description := [];
                   images := [js "   "]; status := ENCOMENDA; category := [];
                   variants := [ {| variant_id := js "default";
                                    label := js "Padrão";
                                    variant_status := ENCOMENDA |} ] |} ]
  /\ images (toCatalogProduct (U := basicLatin) ∅ (sampleProduct (Some (js "   "))))
     <> [Text.PLACEHOLDER].
Proof. repeat split. discriminate. Qed.

(** The catalogue grid guards the image once more when it renders a card:
    [safeImageSrc] trims, so there the blank URL does fall back. *)
Example safeImageSrc_blank :
  Text.safeImageSrc (IsString (js "   ")) = Text.PLACEHOLDER
  /\ Text.safeImageSrc NotString = Text.PLACEHOLDER
  /\ Text.safeImageSrc (IsString (js " /img/mix.png ")) = js "/img/mix.png".
Proof. repeat split. Qed.

End CatalogTheorems.

(** ** The query engine *)

Module QueryTheorems.
Import Catalog Query.

(** [Math.ceil(n / 9)] in integer arithmetic. *)
Lemma ceilOfQuotient_9 n : ceilOfQuotient n PAGE_SIZE = (n + 8) / 9.
Proof.
  unfold ceilOfQuotient, PAGE_SIZE, Qceiling, Qfloor. simpl.
  rewrite Z.mul_1_r. change (Z.pos (1 * 9)) with 9.
  pose proof (Z.div_mod (- n) 9 ltac:(lia)).
  pose proof (Z.mod_pos_bound (- n) 9 ltac:(lia)).
  pose proof (Z.div_mod (n + 8) 9 ltac:(lia)).
  pose proof (Z.mod_pos_bound (n + 8) 9 ltac:(lia)).
  lia.
Qed.

Lemma totalPages_least {U : Unicode} items st :
  let count := Z.of_nat (length (filtered items st)) in
  1 <= totalPages items st /\
  count <= PAGE_SIZE * totalPages items st /\
  forall t, 1 <= t -> count <= PAGE_SIZE * t -> totalPages items st <= t.
Proof.
  intros count. unfold totalPages. fold count.
  rewrite ceilOfQuotient_9. unfold PAGE_SIZE.
  pose proof (Z.div_mod (count + 8) 9 ltac:(lia)).
  pose proof (Z.mod_pos_bound (count + 8) 9 ltac:(lia)).
  repeat split; intros; lia.
Qed.

(** [slice] between two indices inside the list is [drop] then [take]. *)
Lemma slice_window {A} (l : list A) (start size : Z) :
  0 <= start -> 0 <= size ->
  slice l start (start + size) = take (Z.to_nat size) (drop (Z.to_nat start) l).
Proof.
  intros Hs Hz. unfold slice.
  rewrite (proj2 (Z.ltb_ge start 0)) by lia.
  rewrite (proj2 (Z.ltb_ge (start + size) 0)) by lia.
  set (len := Z.of_nat (length l)).
  assert (Hlen : 0 <= len) by (unfold len; lia).
  destruct (Z.le_gt_cases len start) as [Hout | Hin].
  - rewrite !drop_ge by lia. now rewrite !take_nil.
  - rewrite (Z.min_l start len) by lia.
    destruct (Z.le_gt_cases (start + size) len) as [Hfit | Hover].
    + rewrite Z.min_l by lia. f_equal. lia.
    + rewrite Z.min_r by lia.
      rewrite !take_ge; [reflexivity | |]; rewrite length_drop; lia.
Qed.

Lemma filter_all {A} (p : A -> bool) (l : list A) :
  (forall x, p x = true) -> List.filter p l = l.
Proof.
  intros Hp. induction l as [|x l IH]; simpl; [reflexivity|].
  now rewrite Hp, IH.
Qed.

(** Without a search text and with category [TODAS], everything matches. *)
Lemma filtered_no_filters {U : Unicode} items st :
  LawfulCase U -> q st = [] -> selectedCategory st = TODAS ->
  filtered items st = items.
Proof.
  intros HU Hq Hcat. unfold filtered. apply filter_all. intros p.
  unfold matches. rewrite Hq, Hcat. unfold Text.normalizeText at 1.
  change (trim []) with (@nil N). rewrite (toLowerCase_nil U HU).
  reflexivity.
Qed.

(** C5.  With pages of 9: [totalPages] is the least [t >= 1] with
    [9 * t >= filteredCount], that is [max(1, ceil(filteredCount / 9))];
    [safePage] is the requested page clamped into [[1, totalPages]];
    [pageItems] are the (at most) 9 filtered products after the first
    [(safePage - 1) * 9].  When nothing matches there is one page and it is
    empty.  For 21 products without filters there are 3 pages, page 1 has 9
    items and page 3 has 3. *)
Theorem pagination_is_clamped_window {U : Unicode}
    (items : list CatalogProduct) (st : FilterState) :
  LawfulCase U ->
  let count := Z.of_nat (length (filtered items st)) in
  (totalPages items st = Z.max 1 ((count + 8) / 9) /\
   1 <= totalPages items st /\
   count <= 9 * totalPages items st /\
   (forall t, 1 <= t -> count <= 9 * t -> totalPages items st <= t)) /\
  (safePage items st = Z.min (Z.max (page st) 1) (totalPages items st) /\
   1 <= safePage items st <= totalPages items st /\
   (1 <= page st <= totalPages items st -> safePage items st = page st)) /\
  pageItems items st =
    take 9 (drop (Z.to_nat ((safePage items st - 1) * 9)) (filtered items st)) /\
  (filtered items st = [] ->
   totalPages items st = 1 /\ pageItems items st = []) /\
  (length items = 21%nat -> q st = [] -> selectedCategory st = TODAS ->
   totalPages items st = 3 /\
   (page st = 1 -> length (pageItems items st) = 9%nat) /\
   (page st = 3 -> length (pageItems items st) = 3%nat)).
Proof.
  intros HU count.
  destruct (totalPages_least items st) as (Hone & Hfit & Hleast).
  fold count in Hfit, Hleast. unfold PAGE_SIZE in Hfit, Hleast.
  assert (Htotal : totalPages items st = Z.max 1 ((count + 8) / 9)).
  { unfold totalPages. fold count. now rewrite ceilOfQuotient_9. }
  assert (Hsafe : 1 <= safePage items st <= totalPages items st).
  { unfold safePage, Text.clamp. lia. }
  assert (Hpage : pageItems items st =
    take 9 (drop (Z.to_nat ((safePage items st - 1) * 9)) (filtered items st))).
  { unfold pageItems, PAGE_SIZE.
    rewrite (slice_window _ ((safePage items st - 1) * 9) 9) by lia.
    reflexivity. }
  split; [now repeat split|].
  split; [repeat split; unfold safePage, Text.clamp; lia|].
  split; [exact Hpage|].
  split.
  - intros Hnone. split.
    + rewrite Htotal. unfold count. rewrite Hnone. reflexivity.
    + rewrite Hpage, Hnone. now rewrite drop_nil, take_nil.
  - intros Hlen Hq Hcat.
    assert (Hall : filtered items st = items)
      by now apply filtered_no_filters.
    assert (Hcount : count = 21) by (unfold count; rewrite Hall; lia).
    assert (Hthree : totalPages items st = 3)
      by (rewrite Htotal, Hcount; reflexivity).
    split; [exact Hthree|].
    split; intros Hp; rewrite Hpage; unfold safePage, Text.clamp;
      rewrite Hp, Hthree, Hall; simpl Z.to_nat;
      rewrite length_take, length_drop, Hlen; reflexivity.
Qed.

Lemma pagination_is_clamped_window_witness :
  LawfulCase basicLatin /\
  totalPages (U := basicLatin) sampleCatalog (unfiltered 3) = 3 /\
  length (pageItems (U := basicLatin) sampleCatalog (unfiltered 1)) = 9%nat /\
  length (pageItems (U := basicLatin) sampleCatalog (unfiltered 3)) = 3%nat.
Proof.
  split; [exact JsStringFacts.basicLatin_lawful|].
  pose proof (pagination_is_clamped_window (U := basicLatin) sampleCatalog
                (unfiltered 1) JsStringFacts.basicLatin_lawful) as H1.
  pose proof (pagination_is_clamped_window (U := basicLatin) sampleCatalog
                (unfiltered 3) JsStringFacts.basicLatin_lawful) as H3.
  cbv zeta in H1, H3.
  destruct H1 as (_ & _ & _ & _ & H1). destruct H3 as (_ & _ & _ & _ & H3).
  specialize (H1 eq_refl eq_refl eq_refl). specialize (H3 eq_refl eq_refl eq_refl).
  destruct H1 as (_ & H1 & _). destruct H3 as (Ht & _ & H3).
  split; [exact Ht|]. split; [exact (H1 eq_refl) | exact (H3 eq_refl)].
Defined.

(** Runs of the query: a search text that matches nothing gives one empty
    page, whatever page was requested. *)
Example query_without_matches :
  let st := {| q := js "xilitol"; selectedCategory := TODAS; page := 4 |} in
  filtered (U := basicLatin) sampleCatalog st = []
  /\ totalPages (U := basicLatin) sampleCatalog st = 1
  /\ safePage (U := basicLatin) sampleCatalog st = 1
  /\ pageItems (U := basicLatin) sampleCatalog st = [].
Proof. repeat split. Qed.

End QueryTheorems.

(** ** The checkout message composer *)

Module CheckoutTheorems.
Import Cart Checkout.

Lemma startsWith_refl p : startsWith p p = true.
Proof.
  induction p as [|a p IH]; [reflexivity|].
  cbn [startsWith]. now rewrite N.eqb_refl, IH.
Qed.

Lemma startsWith_app p s t : startsWith p s = true -> startsWith p (s ++ t) = true.
Proof.
  revert s. induction p as [|a p IH]; intros s; [reflexivity|].
  destruct s as [|b s]; cbn [startsWith app]; [discriminate|].
  intros H. apply andb_true_iff in H as [Hab Hps].
  now rewrite Hab, (IH s Hps).
Qed.

Lemma includes_unfold s p :
  includes s p =
  (startsWith p s || match s with [] => false | _ :: s' => includes s' p end).
Proof. destruct s; reflexivity. Qed.

Lemma includes_self p : includes p p = true.
Proof. rewrite includes_unfold. now rewrite startsWith_refl. Qed.

Lemma includes_app_l s t p : includes s p = true -> includes (s ++ t) p = true.
Proof.
  induction s as [|c s IH].
  - rewrite includes_unfold. intros H. apply orb_true_iff in H as [H|H];
      [|discriminate].
    destruct p; [|discriminate]. now destruct t.
  - rewrite includes_unfold. intros H.
    change ((c :: s) ++ t) with (c :: (s ++ t)). rewrite includes_unfold.
    apply orb_true_iff in H as [H|H]; apply orb_true_iff.
    + left. now apply (startsWith_app p (c :: s) t).
    + right. now apply IH.
Qed.

Lemma includes_app_r s t p : includes t p = true -> includes (s ++ t) p = true.
Proof.
  intros H. induction s as [|c s IH]; [exact H|].
  change ((c :: s) ++ t) with (c :: (s ++ t)). rewrite includes_unfold.
  apply orb_true_iff. now right.
Qed.

(** What a part of a joined text includes, the text includes. *)
Lemma includes_join sep parts part p :
  In part parts -> includes part p = true ->
  includes (join sep parts) p = true.
Proof.
  intros Hin Hp. induction parts as [|x rest IH]; [destruct Hin|].
  destruct rest as [|y rest].
  - destruct Hin as [-> | []]. exact Hp.
  - change (join sep (x :: y :: rest)) with (x ++ sep ++ join sep (y :: rest)).
    destruct Hin as [-> | Hin].
    + now apply includes_app_l.
    + apply includes_app_r, includes_app_r. now apply IH.
Qed.

Lemma renderLine_specified i : 0 <= qty i -> renderLine i = specifiedLine i.
Proof.
  intros Hq. unfold renderLine, specifiedLine, getQty, getName, getVariantLabel.
  simpl. rewrite Z.max_r by exact Hq.
  now destruct (variantLabel i).
Qed.

Lemma orElse_specified v : orElse v NOT_INFORMED = specifiedField v.
Proof. now destruct v. Qed.

Lemma specifiedField_not_empty v : specifiedField v <> [].
Proof. destruct v; discriminate. Qed.



(** The message of the sample order, in full. *)
Example buildMessage_sampleOrder :
  buildMessage sampleOrder =
  js "Pedido – Catálogo (Entrega local)" ++ NEWLINE ++ NEWLINE
  ++ js "Cidade: São José do Rio Preto - SP" ++ NEWLINE ++ NEWLINE
  ++ js "Itens:" ++ NEWLINE
  ++ js "- 2x Amendoim — 250g" ++ NEWLINE
  ++ js "- 1x Granola — Padrão" ++ NEWLINE ++ NEWLINE
  ++ js "Total de itens: 3" ++ NEWLINE ++ NEWLINE
  ++ js "Verificar disponibilidade no WhatsApp." ++ NEWLINE ++ NEWLINE
  ++ js "Endereço:" ++ NEWLINE
  ++ js "- Bairro/Endereço: Centro" ++ NEWLINE
  ++ js "- Nº: (não informado)" ++ NEWLINE
  ++ js "- Referência: Praça" ++ NEWLINE
  ++ js "- Preferência de período: manhã".
Proof. vm_compute. reflexivity. Qed.

End CheckoutTheorems.

(** ** More on the cart store *)

Module CartExtras.
Import Cart CartFacts CartTheorems.

(** [setCart] in full: what it returns and the world it leaves. *)
Lemma setCart_written w items :
  windowDefined w = true -> writeFails w = false ->
  setCart items w =
  (Return tt,
   {| windowDefined := true; readFails := readFails w; writeFails := false;
      localStorage := <[STORAGE_KEY := JSON_stringify items]> (localStorage w);
      dispatched := CART_EVENT :: dispatched w |}).
Proof.
  intros Hw Hx.
  unfold setCart, bind, typeofWindowUndefined, setItem, emitCartChanged,
    bind, typeofWindowUndefined, dispatchEvent, ret.
  rewrite Hw. simpl. rewrite Hx. simpl. rewrite Hw. simpl. reflexivity.
Qed.

Lemma setCart_no_window w items :
  windowDefined w = false -> setCart items w = (Return tt, w).
Proof.
  intros Hw. unfold setCart, bind, typeofWindowUndefined, ret.
  now rewrite Hw.
Qed.

Lemma setCart_write_fails w items :
  windowDefined w = true -> writeFails w = true ->
  setCart items w = (Raise StorageError, w).
Proof.
  intros Hw Hx. unfold setCart, bind, typeofWindowUndefined, setItem, ret.
  rewrite Hw. simpl. now rewrite Hx.
Qed.

(** Each mutation ends in one [setCart]. *)
Lemma mutation_is_setCart w :
  (forall input, exists items, addToCart input w = setCart items w) /\
  (forall params, exists items, updateCartItem params w = setCart items w) /\
  (forall params, exists items, removeCartItem params w = setCart items w) /\
  (exists items, clearCart w = setCart items w).
Proof.
  repeat split.
  - intros input. destruct (addToCart_as_setCart w input) as (items & H & _).
    now exists items.
  - intros params. eexists. apply updateCartItem_run.
  - intros params. eexists. apply removeCartItem_run.
  - now exists [].
Qed.

(** X1.  In a working browser [removeCartItem] keeps exactly the lines whose
    key differs from the addressed one, in their order; when no stored line
    has that key the cart read back is the cart as it was. *)
Theorem removeCartItem_keeps_others (w : World) (params : RemoveParams) :
  Browser w ->
  succeeds (removeCartItem params) w /\
  getAll (exec (removeCartItem params) w) =
    filter (fun i => keyOf i <> keyOf params) (getAll w) /\
  Forall (fun i => keyOf i <> keyOf params)
         (getAll (exec (removeCartItem params) w)) /\
  (Forall (fun i => keyOf i <> keyOf params) (getAll w) ->
   getAll (exec (removeCartItem params) w) = getAll w).
Proof.
  intros Hw. unfold succeeds, exec. rewrite removeCartItem_run.
  fold (exec (setCart (filter (fun i => keyOf i <> keyOf params) (getAll w))) w).
  rewrite getAll_setCart by exact Hw.
  split; [now apply setCart_succeeds|].
  split; [reflexivity|].
  split; [apply remove_drops_line|].
  intros Hnone. induction Hnone as [|i l Hi _ IH]; [reflexivity|].
  rewrite filter_cons_True by exact Hi. now rewrite IH.
Qed.

Lemma removeCartItem_keeps_others_witness :
  Browser (stockedBrowser [scenarioItem 4]) /\
  getAll (exec (removeCartItem (mkRemoveParams (js "A") (Some (js "250g"))))
               (stockedBrowser [scenarioItem 4])) =
  filter (fun i => keyOf i <> keyOf (mkRemoveParams (js "A") (Some (js "250g"))))
         (getAll (stockedBrowser [scenarioItem 4])).
Proof.
  split; [apply stockedBrowser_is_browser|].
  exact (proj1 (proj2 (removeCartItem_keeps_others
                         (stockedBrowser [scenarioItem 4])
                         (mkRemoveParams (js "A") (Some (js "250g")))
                         (stockedBrowser_is_browser _)))).
Defined.

Lemma update_absent_line k params (l : list CartItem) :
  Forall (fun i => 0 < qty i) l ->
  Forall (fun i => keyOf i <> k) l ->
  filter (fun i => 0 < qty i) (map (replaceQty k params) l) = l.
Proof.
  intros Hpos. induction Hpos as [|i l Hi _ IH]; intros Hk; [reflexivity|].
  apply Forall_cons in Hk as [Hik Hk]. simpl.
  rewrite replaceQty_other by exact Hik.
  rewrite filter_cons_True by exact Hi. now rewrite IH.
Qed.

(** X2.  [updateCartItem] never inserts: in a working browser whose stored
    quantities are all positive, updating a key that no stored line has
    leaves the cart as it was, whatever the quantity. *)
Theorem updateCartItem_absent_key (w : World) (params : UpdateParams) :
  Browser w ->
  Forall (fun i => 0 < qty i) (getAll w) ->
  Forall (fun i => keyOf i <> keyOf params) (getAll w) ->
  getAll (exec (updateCartItem params) w) = getAll w.
Proof.
  intros Hw Hpos Hk. unfold exec. rewrite updateCartItem_run.
  fold (exec (setCart (filter (fun i => 0 < qty i)
                         (map (replaceQty (keyOf params) params) (getAll w)))) w).
  rewrite getAll_setCart by exact Hw.
  now apply update_absent_line.
Qed.

Lemma updateCartItem_absent_key_witness :
  (Browser (stockedBrowser [scenarioItem 4])
   /\ Forall (fun i => 0 < qty i) (getAll (stockedBrowser [scenarioItem 4])))
  /\ getAll (exec (updateCartItem (mkUpdateParams (js "B") None 9))
                  (stockedBrowser [scenarioItem 4]))
     = getAll (stockedBrowser [scenarioItem 4]).
Proof.
  assert (Hpos : Forall (fun i => 0 < qty i)
                        (getAll (stockedBrowser [scenarioItem 4]))).
  { rewrite getAll_stockedBrowser. constructor; [simpl; lia | constructor]. }
  split; [split; [apply stockedBrowser_is_browser | exact Hpos]|].
  apply (updateCartItem_absent_key (stockedBrowser [scenarioItem 4])
           (mkUpdateParams (js "B") None 9)
           (stockedBrowser_is_browser _) Hpos).
  rewrite getAll_stockedBrowser. constructor; [|constructor].
  discriminate.
Defined.

(** X3.  Every mutation notifies once: in a working browser each of the
    four mutations sends exactly one [af:cart-changed] event to [window];
    without a [window] each of them returns normally and changes nothing. *)
Theorem mutations_notify_once (w : World) :
  (Browser w ->
   (forall input,
       dispatched (exec (addToCart input) w) = CART_EVENT :: dispatched w) /\
   (forall params,
       dispatched (exec (updateCartItem params) w) = CART_EVENT :: dispatched w) /\
   (forall params,
       dispatched (exec (removeCartItem params) w) = CART_EVENT :: dispatched w) /\
   dispatched (exec clearCart w) = CART_EVENT :: dispatched w) /\
  (windowDefined w = false ->
   (forall input, addToCart input w = (Return tt, w)) /\
   (forall params, updateCartItem params w = (Return tt, w)) /\
   (forall params, removeCartItem params w = (Return tt, w)) /\
   clearCart w = (Return tt, w)).
Proof.
  destruct (mutation_is_setCart w) as (Hadd & Hupd & Hrm & Hclr).
  split.
  - intros (Hw & Hr & Hx). unfold exec. repeat split.
    + intros input. destruct (Hadd input) as [items ->].
      now rewrite setCart_written.
    + intros params. destruct (Hupd params) as [items ->].
      now rewrite setCart_written.
    + intros params. destruct (Hrm params) as [items ->].
      now rewrite setCart_written.
    + destruct Hclr as [items ->]. now rewrite setCart_written.
  - intros Hw. repeat split.
    + intros input. destruct (Hadd input) as [items ->].
      now apply setCart_no_window.
    + intros params. destruct (Hupd params) as [items ->].
      now apply setCart_no_window.
    + intros params. destruct (Hrm params) as [items ->].
      now apply setCart_no_window.
    + destruct Hclr as [items ->]. now apply setCart_no_window.
Qed.

Lemma mutations_notify_once_witness :
  Browser emptyBrowser /\
  dispatched (exec (addToCart (scenarioItem 1)) emptyBrowser) = [CART_EVENT].
Proof.
  split; [exact emptyBrowser_is_browser|].
  exact (proj1 (proj1 (mutations_notify_once emptyBrowser)
                      emptyBrowser_is_browser) (scenarioItem 1)).
Defined.

(** X4.  A write that throws is not caught: when [localStorage.setItem]
    throws, each of the four mutations throws the storage error, stores
    nothing and sends no event. *)
Theorem mutations_propagate_write_failure (w : World) :
  windowDefined w = true -> writeFails w = true ->
  (forall input, addToCart input w = (Raise StorageError, w)) /\
  (forall params, updateCartItem params w = (Raise StorageError, w)) /\
  (forall params, removeCartItem params w = (Raise StorageError, w)) /\
  clearCart w = (Raise StorageError, w).
Proof.
  intros Hw Hx.
  destruct (mutation_is_setCart w) as (Hadd & Hupd & Hrm & Hclr).
  repeat split.
  - intros input. destruct (Hadd input) as [items ->].
    now apply setCart_write_fails.
  - intros params. destruct (Hupd params) as [items ->].
    now apply setCart_write_fails.
  - intros params. destruct (Hrm params) as [items ->].
    now apply setCart_write_fails.
  - destruct Hclr as [items ->]. now apply setCart_write_fails.
Qed.

Lemma mutations_propagate_write_failure_witness :
  let full := {| windowDefined := true; readFails := false; writeFails := true;
                 localStorage := ∅; dispatched := [] |} in
  (windowDefined full = true /\ writeFails full = true) /\
  addToCart (scenarioItem 1) full = (Raise StorageError, full).
Proof.
  intros full. split; [split; reflexivity|].
  exact (proj1 (mutations_propagate_write_failure full eq_refl eq_refl)
               (scenarioItem 1)).
Defined.

Lemma removeCartItem_reads_filtered (w : World) (params : RemoveParams) :
  Browser w ->
  getAll (exec (removeCartItem params) w) =
    filter (fun i => keyOf i <> keyOf params) (getAll w) /\
  succeeds (removeCartItem params) w.
Proof.
  intros Hw. unfold succeeds, exec. rewrite removeCartItem_run.
  fold (exec (setCart (filter (fun i => keyOf i <> keyOf params) (getAll w))) w).
  rewrite getAll_setCart by exact Hw.
  split; [reflexivity | now apply setCart_succeeds].
Qed.

(** X5.  The store writes to its own slot only: whatever a mutation does, the
    other keys of [localStorage] and the three platform flags stay as they
    were. *)
Theorem mutations_touch_own_slot_only (w : World) (key : jsstring) :
  key <> STORAGE_KEY ->
  let untouched (w' : World) :=
    localStorage w' !! key = localStorage w !! key
    /\ windowDefined w' = windowDefined w /\ readFails w' = readFails w
    /\ writeFails w' = writeFails w in
  (forall input, untouched (exec (addToCart input) w)) /\
  (forall params, untouched (exec (updateCartItem params) w)) /\
  (forall params, untouched (exec (removeCartItem params) w)) /\
  untouched (exec clearCart w).
Proof.
  intros Hkey untouched.
  assert (Hset : forall items, untouched (exec (setCart items) w)).
  { intros items. unfold untouched, exec.
    destruct (windowDefined w) eqn:Hw.
    - destruct (writeFails w) eqn:Hx.
      + rewrite setCart_write_fails by assumption. simpl.
        repeat split; congruence.
      + rewrite setCart_written by assumption. simpl.
        rewrite lookup_insert_ne by congruence. repeat split; congruence.
    - rewrite setCart_no_window by assumption. simpl.
      repeat split; congruence. }
  destruct (mutation_is_setCart w) as (Hadd & Hupd & Hrm & Hclr).
  split; [|split; [|split]].
  - intros input. destruct (Hadd input) as [items Hrun].
    unfold exec. rewrite Hrun. apply Hset.
  - intros params. destruct (Hupd params) as [items Hrun].
    unfold exec. rewrite Hrun. apply Hset.
  - intros params. destruct (Hrm params) as [items Hrun].
    unfold exec. rewrite Hrun. apply Hset.
  - destruct Hclr as [items Hrun]. unfold exec. rewrite Hrun. apply Hset.
Qed.

Lemma mutations_touch_own_slot_only_witness :
  js "theme" <> STORAGE_KEY /\
  localStorage (exec (addToCart (scenarioItem 1)) emptyBrowser) !! js "theme"
  = localStorage emptyBrowser !! js "theme".
Proof.
  assert (Hne : js "theme" <> STORAGE_KEY) by discriminate.
  split; [exact Hne|].
  exact (proj1 (proj1 (mutations_touch_own_slot_only emptyBrowser (js "theme") Hne)
                      (scenarioItem 1))).
Defined.

(** X6.  A damaged slot is overwritten: when the cart reads as empty (slot
    missing, empty, not JSON, not an array, or unreadable) and writes work,
    [addToCart] leaves in the slot the JSON text of the one-line cart made of
    its input, with the quantity raised to at least 1. *)
Theorem addToCart_overwrites_damaged_slot (w : World) (input : CartItem) :
  windowDefined w = true -> writeFails w = false -> getAll w = [] ->
  localStorage (exec (addToCart input) w) !! STORAGE_KEY
  = Some (JSON_stringify [withQty input (Z.max 1 (qty input))]).
Proof.
  intros Hw Hx Hempty. unfold exec.
  rewrite addToCart_fresh by (rewrite Hempty; constructor).
  rewrite Hempty, setCart_written by assumption. simpl.
  apply lookup_insert_eq.
Qed.

Lemma addToCart_overwrites_damaged_slot_witness :
  let damaged := {| windowDefined := true; readFails := false;
                    writeFails := false;
                    localStorage := {[ STORAGE_KEY := NotJson ]};
                    dispatched := [] |} in
  (windowDefined damaged = true /\ writeFails damaged = false
   /\ getAll damaged = []) /\
  localStorage (exec (addToCart (scenarioItem 0)) damaged) !! STORAGE_KEY
  = Some (JSON_stringify [scenarioItem 1]).
Proof.
  intros damaged.
  assert (Hempty : getAll damaged = []).
  { unfold getAll, getCart, bind, tryCatch, typeofWindowUndefined, getItem, ret.
    simpl. now rewrite lookup_singleton_eq. }
  split; [repeat split; exact Hempty|].
  exact (addToCart_overwrites_damaged_slot damaged (scenarioItem 0)
           eq_refl eq_refl Hempty).
Defined.

Lemma filter_other_keys_middle k (pre post : list CartItem) (cur cur' : CartItem) :
  keyOf cur = k -> keyOf cur' = k ->
  filter (fun i => keyOf i <> k) (pre ++ cur' :: post) =
  filter (fun i => keyOf i <> k) (pre ++ cur :: post).
Proof.
  intros Hc Hc'. rewrite !filter_app.
  rewrite !filter_cons_False by (intros Hne; now apply Hne).
  reflexivity.
Qed.

(** X7.  Adding a line and then removing its identity is the same as just
    removing that identity: in a working browser the cart read back is the
    original cart without the lines of that key. *)
Theorem remove_after_add (w : World) (input : CartItem) :
  Browser w ->
  getAll (exec (removeCartItem (mkRemoveParams (sku input) (variantLabel input)))
               (exec (addToCart input) w)) =
  filter (fun i => keyOf i <> keyOf input) (getAll w).
Proof.
  intros Hw.
  destruct (addToCart_result w input Hw) as (_ & Hw1 & Hmerge & Hnew).
  destruct (removeCartItem_reads_filtered _
              (mkRemoveParams (sku input) (variantLabel input)) Hw1) as [Hrm _].
  rewrite Hrm.
  change (keyOf (mkRemoveParams (sku input) (variantLabel input)))
    with (keyOf input).
  destruct (first_match (sameKey (keyOf input)) (getAll w))
    as [Hnone | (pre & cur & post & Hsplit & Hpre & Hcur)].
  - assert (Hnone' : Forall (fun i => keyOf i <> keyOf input) (getAll w)).
    { eapply Forall_impl; [exact Hnone|]. intros i. apply sameKey_false. }
    rewrite (Hnew Hnone'), filter_app.
    rewrite filter_cons_False by (intros Hne; now apply Hne).
    now rewrite filter_nil, app_nil_r.
  - apply sameKey_true in Hcur.
    assert (Hpre' : Forall (fun i => keyOf i <> keyOf input) pre).
    { eapply Forall_impl; [exact Hpre|]. intros i. apply sameKey_false. }
    rewrite (Hmerge pre cur post Hsplit Hpre' Hcur), Hsplit.
    now apply filter_other_keys_middle.
Qed.

Lemma remove_after_add_witness :
  Browser (stockedBrowser [scenarioItem 4]) /\
  getAll (exec (removeCartItem (mkRemoveParams (sku (scenarioItem 2))
                                  (variantLabel (scenarioItem 2))))
               (exec (addToCart (scenarioItem 2)) (stockedBrowser [scenarioItem 4])))
  = filter (fun i => keyOf i <> keyOf (scenarioItem 2))
           (getAll (stockedBrowser [scenarioItem 4])).
Proof.
  split; [apply stockedBrowser_is_browser|].
  exact (remove_after_add (stockedBrowser [scenarioItem 4]) (scenarioItem 2)
           (stockedBrowser_is_browser _)).
Defined.

Lemma update_twice_line k p1 p2 (l : list CartItem) :
  0 < upQty p1 ->
  filter (fun i => 0 < qty i)
    (map (replaceQty k p2)
       (filter (fun i => 0 < qty i) (map (replaceQty k p1) l))) =
  filter (fun i => 0 < qty i) (map (replaceQty k p2) l).
Proof.
  intros Hq. induction l as [|i l IH]; [reflexivity|]. simpl.
  destruct (decide (keyOf i = k)) as [Hk|Hk].
  - rewrite (replaceQty_same k p1 i Hk).
    rewrite (filter_cons_True _ (withQty i (upQty p1))) by (simpl; lia).
    simpl. rewrite (replaceQty_same k p2 (withQty i (upQty p1)) Hk).
    rewrite (replaceQty_same k p2 i Hk). rewrite withQty_withQty.
    destruct (decide (0 < upQty p2)).
    + rewrite !filter_cons_True by (simpl; assumption). now rewrite IH.
    + now rewrite !filter_cons_False by (simpl; assumption).
  - rewrite (replaceQty_other k p1 i Hk), (replaceQty_other k p2 i Hk).
    destruct (decide (0 < qty i)).
    + rewrite (filter_cons_True _ i) by assumption. simpl.
      rewrite (replaceQty_other k p2 i Hk).
      rewrite !filter_cons_True by assumption. now rewrite IH.
    + rewrite (filter_cons_False _ i) by assumption.
      now rewrite filter_cons_False by assumption.
Qed.

(** X8.  The last update wins: in a working browser, updating an identity to
    a positive quantity and then to any other quantity leaves the cart that
    the second update alone leaves. *)
Theorem updateCartItem_last_wins (w : World) (s : jsstring)
    (l : option jsstring) (q1 q2 : Z) :
  Browser w -> 0 < q1 ->
  getAll (exec (updateCartItem (mkUpdateParams s l q2))
               (exec (updateCartItem (mkUpdateParams s l q1)) w)) =
  getAll (exec (updateCartItem (mkUpdateParams s l q2)) w).
Proof.
  intros Hw Hq.
  assert (Hw1 : Browser (exec (updateCartItem (mkUpdateParams s l q1)) w)).
  { unfold exec. rewrite updateCartItem_run. now apply setCart_browser. }
  assert (Hupd : forall w0 p, Browser w0 ->
            getAll (exec (updateCartItem p) w0) =
            filter (fun i => 0 < qty i)
                   (map (replaceQty (keyOf p) p) (getAll w0))).
  { intros w0 p Hw0. unfold exec. rewrite updateCartItem_run.
    fold (exec (setCart (filter (fun i => 0 < qty i)
                           (map (replaceQty (keyOf p) p) (getAll w0)))) w0).
    now apply getAll_setCart. }
  rewrite (Hupd _ _ Hw1), (Hupd _ _ Hw), (Hupd _ _ Hw).
  change (keyOf (mkUpdateParams s l q1)) with (keyOf (mkUpdateParams s l q2)).
  now apply update_twice_line.
Qed.

Lemma updateCartItem_last_wins_witness :
  (Browser (stockedBrowser [scenarioItem 4]) /\ 0 < 7) /\
  getAll (exec (updateCartItem (mkUpdateParams (js "A") (Some (js "250g")) 2))
               (exec (updateCartItem (mkUpdateParams (js "A") (Some (js "250g")) 7))
                     (stockedBrowser [scenarioItem 4]))) =
  getAll (exec (updateCartItem (mkUpdateParams (js "A") (Some (js "250g")) 2))
               (stockedBrowser [scenarioItem 4])).
Proof.
  split; [split; [apply stockedBrowser_is_browser | lia]|].
  apply (updateCartItem_last_wins (stockedBrowser [scenarioItem 4])
           (js "A") (Some (js "250g")) 7 2 (stockedBrowser_is_browser _)).
  lia.
Defined.

Lemma colon_free_prefix (s1 s2 t1 t2 : jsstring) :
  hasUnit 58 s1 = false -> hasUnit 58 s2 = false ->
  s1 ++ 58%N :: t1 = s2 ++ 58%N :: t2 -> s1 = s2 /\ t1 = t2.
Proof.
  revert s2. induction s1 as [|c s1 IH]; intros [|d s2] H1 H2 Heq.
  - injection Heq as ->. now split.
  - rewrite JsStringFacts.hasUnit_cons in H2.
    apply orb_false_elim in H2 as [Hd _]. injection Heq as <- _.
    now rewrite N.eqb_refl in Hd.
  - rewrite JsStringFacts.hasUnit_cons in H1.
    apply orb_false_elim in H1 as [Hc _]. injection Heq as -> _.
    now rewrite N.eqb_refl in Hc.
  - rewrite JsStringFacts.hasUnit_cons in H1, H2.
    apply orb_false_elim in H1 as [_ H1]. apply orb_false_elim in H2 as [_ H2].
    injection Heq as -> Heq. destruct (IH s2 H1 H2 Heq) as [-> ->].
    now split.
Qed.

(** X9.  When neither SKU contains a colon, two identities have the same key
    exactly when they have the same SKU and the same label (an absent label
    counting as ["default"]).  A SKU with ["::"] in it breaks this: the SKU
    [s::l] without label and the SKU [s] with label [l::default] share one
    key, so the store treats them as one line. *)
Theorem keyOf_identifies_colon_free_skus :
  (forall (A B : Type) (IA : HasIdentity A) (IB : HasIdentity B) (x : A) (y : B),
      hasUnit 58 (identSku x) = false -> hasUnit 58 (identSku y) = false ->
      (keyOf x = keyOf y <->
       identSku x = identSku y /\
       default (js "default") (identVariantLabel x)
       = default (js "default") (identVariantLabel y))) /\
  (forall s l : jsstring,
      keyOf (mkRemoveParams (s ++ js "::" ++ l) None)
      = keyOf (mkRemoveParams s (Some (l ++ js "::default")))).
Proof.
  split.
  - intros A B IA IB x y Hx Hy. unfold keyOf. split.
    + intros Heq.
      destruct (colon_free_prefix _ _ _ _ Hx Hy Heq) as [Hs Ht].
      split; [exact Hs|]. now injection Ht.
    + intros [-> ->]. reflexivity.
  - intros s l. unfold keyOf. simpl identSku. simpl identVariantLabel.
    simpl default. now rewrite <- !app_assoc.
Qed.

Lemma keyOf_identifies_colon_free_skus_witness :
  (hasUnit 58 (identSku (scenarioItem 1)) = false
   /\ hasUnit 58 (identSku (mkRemoveParams (js "A") (Some (js "250g")))) = false)
  /\ keyOf (scenarioItem 1) = keyOf (mkRemoveParams (js "A") (Some (js "250g"))).
Proof.
  split; [split; reflexivity|].
  apply (proj1 keyOf_identifies_colon_free_skus CartItem RemoveParams
           CartItem_identity RemoveParams_identity
           (scenarioItem 1) (mkRemoveParams (js "A") (Some (js "250g")))
           eq_refl eq_refl).
  split; reflexivity.
Defined.

End CartExtras.

(** ** The badge and the cart page *)

Module CartPageExtras.
Import Cart CartFacts CartTheorems CartExtras CartBadge Checkout CartPage Sums.
Import Numbers NumbersFacts.

Lemma foldl_qty_from (a : Z) (l : list CartItem) :
  foldl (fun acc i => acc + qty i) a l = a + sumQty l.
Proof.
  unfold sumQty. revert a. induction l as [|i l IH]; intros a; simpl; [lia|].
  rewrite (IH (a + qty i)), (IH (0 + qty i)). lia.
Qed.

Lemma sumQty_cons i l : sumQty (i :: l) = qty i + sumQty l.
Proof. unfold sumQty at 1. simpl. rewrite foldl_qty_from. lia. Qed.

Lemma sumQty_app l1 l2 : sumQty (l1 ++ l2) = sumQty l1 + sumQty l2.
Proof.
  induction l1 as [|i l1 IH]; [reflexivity|].
  change ((i :: l1) ++ l2) with (i :: (l1 ++ l2)).
  rewrite !sumQty_cons, IH. lia.
Qed.

Lemma badge_is_sum w : badge w = sumQty (getAll w).
Proof.
  unfold badge, safeCount. now rewrite (bind_run _ _ _ _ _ (getCart_run w)).
Qed.

(** How the badge moves with one [addToCart]. *)
Lemma badge_rises_by_request (w : World) (input : CartItem) :
  Browser w ->
  Forall (fun i => keyOf i = keyOf input -> 0 <= qty i) (getAll w) ->
  badge (exec (addToCart input) w) = badge w + Z.max 1 (qty input).
Proof.
  intros Hw Hqty. rewrite !badge_is_sum.
  destruct (addToCart_result w input Hw) as (_ & _ & Hmerge & Hnew).
  destruct (first_match (sameKey (keyOf input)) (getAll w))
    as [Hnone | (pre & cur & post & Hsplit & Hpre & Hcur)].
  - assert (Hnone' : Forall (fun i => keyOf i <> keyOf input) (getAll w)).
    { eapply Forall_impl; [exact Hnone|]. intros i. apply sameKey_false. }
    rewrite (Hnew Hnone'), sumQty_app, sumQty_cons. unfold sumQty at 2.
    simpl. lia.
  - apply sameKey_true in Hcur.
    assert (Hpre' : Forall (fun i => keyOf i <> keyOf input) pre).
    { eapply Forall_impl; [exact Hpre|]. intros i. apply sameKey_false. }
    assert (Hcur0 : 0 <= qty cur).
    { rewrite Hsplit in Hqty. apply Forall_app in Hqty as [_ Hqty].
      apply Forall_cons in Hqty as [Hqty _]. now apply Hqty. }
    rewrite (Hmerge pre cur post Hsplit Hpre' Hcur), Hsplit.
    rewrite !sumQty_app, !sumQty_cons. simpl qty. lia.
Qed.

(** The partial sums of a left-to-right addition of the quantities stay
    within the magnitude of the cart. *)
Lemma magnitude_cons i l : magnitude (i :: l) = Z.abs (qty i) + magnitude l.
Proof. reflexivity. Qed.

Lemma magnitude_app l1 l2 : magnitude (l1 ++ l2) = magnitude l1 + magnitude l2.
Proof.
  induction l1 as [|i l1 IH]; [reflexivity|].
  change ((i :: l1) ++ l2) with (i :: (l1 ++ l2)).
  rewrite !magnitude_cons, IH. lia.
Qed.

Lemma magnitude_nonneg l : 0 <= magnitude l.
Proof.
  induction l as [|i l IH]; [reflexivity | rewrite magnitude_cons; lia].
Qed.

Lemma sumQty_within_magnitude l : Z.abs (sumQty l) <= magnitude l.
Proof.
  induction l as [|i l IH]; [reflexivity|].
  rewrite sumQty_cons, magnitude_cons. lia.
Qed.

(** The magnitude of the cart after one [addToCart]. *)
Lemma magnitude_after_addToCart (w : World) (input : CartItem) :
  Browser w ->
  Forall (fun i => keyOf i = keyOf input -> 0 <= qty i) (getAll w) ->
  magnitude (getAll (exec (addToCart input) w))
  = magnitude (getAll w) + Z.max 1 (qty input).
Proof.
  intros Hw Hqty.
  destruct (addToCart_result w input Hw) as (_ & _ & Hmerge & Hnew).
  destruct (first_match (sameKey (keyOf input)) (getAll w))
    as [Hnone | (pre & cur & post & Hsplit & Hpre & Hcur)].
  - assert (Hnone' : Forall (fun i => keyOf i <> keyOf input) (getAll w)).
    { eapply Forall_impl; [exact Hnone|]. intros i. apply sameKey_false. }
    rewrite (Hnew Hnone'), magnitude_app, magnitude_cons. simpl. lia.
  - apply sameKey_true in Hcur.
    assert (Hpre' : Forall (fun i => keyOf i <> keyOf input) pre).
    { eapply Forall_impl; [exact Hpre|]. intros i. apply sameKey_false. }
    assert (Hcur0 : 0 <= qty cur).
    { rewrite Hsplit in Hqty. apply Forall_app in Hqty as [_ Hqty].
      apply Forall_cons in Hqty as [Hqty _]. now apply Hqty. }
    rewrite (Hmerge pre cur post Hsplit Hpre' Hcur), Hsplit.
    rewrite !magnitude_app, !magnitude_cons. simpl qty. lia.
Qed.

(** Within a safe magnitude the count is exact on binary64. *)
Lemma exactCount_within (l : list CartItem) :
  magnitude l <= MAX_SAFE_INTEGER -> exactCount l.
Proof.
  intros Hsafe front i back ->.
  rewrite magnitude_app, magnitude_cons in Hsafe.
  pose proof (sumQty_within_magnitude front).
  pose proof (magnitude_nonneg front). pose proof (magnitude_nonneg back).
  apply plus64_exact; lia.
Qed.

Lemma qty_within_magnitude (l : list CartItem) :
  Forall (fun i => Z.abs (qty i) <= magnitude l) l.
Proof.
  induction l as [|i l IH]; constructor.
  - rewrite magnitude_cons. pose proof (magnitude_nonneg l). lia.
  - eapply Forall_impl; [exact IH|]. intros j Hj. cbv beta in Hj |- *.
    rewrite magnitude_cons. lia.
Qed.

(** The additions of one [addToCart] and of the counts around it. *)
Lemma addToCart_count_exact (w : World) (input : CartItem) :
  Browser w ->
  Forall (fun i => keyOf i = keyOf input -> 0 <= qty i) (getAll w) ->
  magnitude (getAll w) + Z.max 1 (qty input) <= MAX_SAFE_INTEGER ->
  Forall (fun i => keyOf i = keyOf input ->
                   plus64 (qty i) (Z.max 1 (qty input))
                   = Some (qty i + Z.max 1 (qty input))) (getAll w) /\
  exactCount (getAll w) /\
  exactCount (getAll (exec (addToCart input) w)).
Proof.
  intros Hw Hqty Hsafe. split; [|split].
  - pose proof (qty_within_magnitude (getAll w)) as Hall.
    rewrite Forall_forall in Hall, Hqty. apply Forall_forall. intros i Hi Hk.
    specialize (Hall i Hi). specialize (Hqty i Hi Hk).
    apply plus64_exact; lia.
  - apply exactCount_within. lia.
  - apply exactCount_within.
    rewrite (magnitude_after_addToCart w input Hw Hqty). lia.
Qed.

(** X10.  The badge follows [addToCart]: in a working browser in which no
    stored line with the key of the input has a negative quantity, and in
    which the absolute values of the stored quantities and the requested
    quantity raised to at least 1 add up to a safe integer, one [addToCart]
    raises the count of [safeCount] by the requested quantity raised to at
    least 1.  Within that bound the addition of [addToCart] and every
    addition of the two counts is exact on binary64, so that the integer
    sums of the model are the sums the platform computes. *)
Theorem badge_after_addToCart (w : World) (input : CartItem) :
  Browser w ->
  Forall (fun i => keyOf i = keyOf input -> 0 <= qty i) (getAll w) ->
  magnitude (getAll w) + Z.max 1 (qty input) <= MAX_SAFE_INTEGER ->
  badge (exec (addToCart input) w) = badge w + Z.max 1 (qty input) /\
  Forall (fun i => keyOf i = keyOf input ->
                   plus64 (qty i) (Z.max 1 (qty input))
                   = Some (qty i + Z.max 1 (qty input))) (getAll w) /\
  exactCount (getAll w) /\
  exactCount (getAll (exec (addToCart input) w)).
Proof.
  intros Hw Hqty Hsafe. split; [now apply badge_rises_by_request|].
  now apply addToCart_count_exact.
Qed.

Lemma badge_after_addToCart_witness :
  (Browser (stockedBrowser [scenarioItem 4]) /\
   magnitude (getAll (stockedBrowser [scenarioItem 4])) + Z.max 1 0
   <= MAX_SAFE_INTEGER) /\
  badge (exec (addToCart (scenarioItem 0)) (stockedBrowser [scenarioItem 4]))
  = badge (stockedBrowser [scenarioItem 4]) + Z.max 1 0.
Proof.
  assert (Hsafe : magnitude (getAll (stockedBrowser [scenarioItem 4]))
                  + Z.max 1 (qty (scenarioItem 0)) <= MAX_SAFE_INTEGER).
  { rewrite getAll_stockedBrowser. vm_compute. discriminate. }
  split; [split; [apply stockedBrowser_is_browser | exact Hsafe]|].
  refine (proj1 (badge_after_addToCart (stockedBrowser [scenarioItem 4])
                   (scenarioItem 0) (stockedBrowser_is_browser _) _ Hsafe)).
  rewrite getAll_stockedBrowser. constructor; [|constructor].
  intros _. simpl. lia.
Defined.

Lemma sync_run st w : sync st w = (Return (setItems st (getAll w)), w).
Proof. unfold sync. now rewrite (bind_run _ _ _ _ _ (getCart_run w)). Qed.

Lemma updateCartItem_browser_run w p :
  Browser w ->
  updateCartItem p w = (Return tt, exec (updateCartItem p) w) /\
  getAll (exec (updateCartItem p) w) =
    filter (fun i => 0 < qty i) (map (replaceQty (keyOf p) p) (getAll w)).
Proof.
  intros Hw. destruct Hw as (Hwin & Hr & Hx). unfold exec.
  rewrite updateCartItem_run, setCart_written by assumption. simpl.
  split; [reflexivity|].
  apply getAll_stored; simpl; [reflexivity | exact Hr | apply lookup_insert_eq].
Qed.

Lemma removeCartItem_browser_run w p :
  Browser w ->
  removeCartItem p w = (Return tt, exec (removeCartItem p) w) /\
  getAll (exec (removeCartItem p) w) =
    filter (fun i => keyOf i <> keyOf p) (getAll w).
Proof.
  intros Hw. destruct Hw as (Hwin & Hr & Hx). unfold exec.
  rewrite removeCartItem_run, setCart_written by assumption. simpl.
  split; [reflexivity|].
  apply getAll_stored; simpl; [reflexivity | exact Hr | apply lookup_insert_eq].
Qed.

(** A handler is its mutation followed by a re-read of the cart. *)
Lemma then_sync_run (m : M unit) st w :
  m w = (Return tt, exec m w) ->
  bind m (fun _ => sync st) w
  = (Return (setItems st (getAll (exec m w))), exec m w).
Proof. intros Hm. rewrite (bind_run _ _ _ _ _ Hm). apply sync_run. Qed.

Lemma replaceQty_setQtyOf (target : CartItem) p j :
  keyOf p = keyOf target ->
  replaceQty (keyOf p) p j = setQtyOf target (upQty p) j.
Proof.
  intros Hk. unfold replaceQty, setQtyOf. rewrite Hk.
  destruct (decide (keyOf j = keyOf target)) as [He|Hne].
  - rewrite (bool_decide_eq_true_2 (keyOf j = keyOf target)) by exact He.
    rewrite (bool_decide_eq_false_2 (keyOf j <> keyOf target));
      [reflexivity|]. intros H. now apply H.
  - rewrite (bool_decide_eq_false_2 (keyOf j = keyOf target)) by exact Hne.
    now rewrite (bool_decide_eq_true_2 (keyOf j <> keyOf target)).
Qed.

Lemma update_positive_lines (target : CartItem) p (l : list CartItem) :
  keyOf p = keyOf target -> 0 < upQty p ->
  Forall (fun i => 0 < qty i) l ->
  filter (fun i => 0 < qty i) (map (replaceQty (keyOf p) p) l)
  = map (setQtyOf target (upQty p)) l.
Proof.
  intros Hk Hq Hpos. induction Hpos as [|j l Hj _ IH]; [reflexivity|].
  simpl. rewrite (replaceQty_setQtyOf target p j Hk), filter_cons_True.
  - now rewrite IH.
  - unfold setQtyOf. destruct (bool_decide (keyOf j = keyOf target)); simpl; lia.
Qed.



Lemma filter_all_other_keys k (l : list CartItem) :
  Forall (fun j => keyOf j <> k) l -> filter (fun j => keyOf j <> k) l = l.
Proof.
  induction 1 as [|j l Hj _ IH]; [reflexivity|].
  rewrite filter_cons_True by exact Hj. now rewrite IH.
Qed.

(** X13.  The buttons of the cart page on a line stored without a variant
    label: the page addresses it with the label ["Padrão"] that it displays,
    while the store keeps it under ["default"].  So in a working browser
    whose stored quantities are all positive and which has no line under
    [<sku>::Padrão], [+], [-] and the remove button leave the stored cart as
    it is. *)
Theorem page_buttons_miss_unlabelled_line (w : World) (st : PageState)
    (i : CartItem) :
  Browser w ->
  Forall (fun j => 0 < qty j) (getAll w) ->
  variantLabel i = None ->
  Forall (fun j => keyOf j <> sku i ++ js "::Padrão") (getAll w) ->
  keyOf i = sku i ++ js "::default" /\
  getAll (exec (inc i st) w) = getAll w /\
  getAll (exec (dec i st) w) = getAll w /\
  getAll (exec (removeItem i st) w) = getAll w.
Proof.
  intros Hw Hpos Hl Hnone.
  assert (Hkey : forall n,
             keyOf {| upSku := getSku i;
                      upVariantLabel := Some (getVariantLabel i);
                      upQty := n |} = sku i ++ js "::Padrão").
  { intros n. unfold keyOf, getSku, getVariantLabel. simpl. now rewrite Hl. }
  assert (Hrm : keyOf {| rmSku := getSku i;
                         rmVariantLabel := Some (getVariantLabel i) |}
                = sku i ++ js "::Padrão").
  { unfold keyOf, getSku, getVariantLabel. simpl. now rewrite Hl. }
  split; [unfold keyOf; simpl; now rewrite Hl|].
  split; [|split].
  - destruct (updateCartItem_browser_run w
                {| upSku := getSku i; upVariantLabel := Some (getVariantLabel i);
                   upQty := getQty i + 1 |} Hw) as [Hrun Hget].
    unfold inc, exec. rewrite (then_sync_run _ st w Hrun). simpl.
    rewrite Hget. apply update_absent_line; [exact Hpos | now rewrite Hkey].
  - destruct (updateCartItem_browser_run w
                {| upSku := getSku i; upVariantLabel := Some (getVariantLabel i);
                   upQty := Z.max 1 (getQty i - 1) |} Hw) as [Hrun Hget].
    unfold dec, exec. rewrite (then_sync_run _ st w Hrun). simpl.
    rewrite Hget. apply update_absent_line; [exact Hpos | now rewrite Hkey].
  - destruct (removeCartItem_browser_run w
                {| rmSku := getSku i;
                   rmVariantLabel := Some (getVariantLabel i) |} Hw)
      as [Hrun Hget].
    unfold removeItem, exec. rewrite (then_sync_run _ st w Hrun). simpl.
    rewrite Hget, Hrm. now apply filter_all_other_keys.
Qed.

Lemma page_buttons_miss_unlabelled_line_witness :
  let plain := {| sku := js "B"; name := js "Granola"; photo := None;
                  variantLabel := None; qty := 2 |} in
  (Browser (stockedBrowser [plain])
   /\ Forall (fun j => 0 < qty j) (getAll (stockedBrowser [plain]))
   /\ variantLabel plain = None)
  /\ getAll (exec (removeItem plain sampleOrder) (stockedBrowser [plain]))
     = getAll (stockedBrowser [plain]).
Proof.
  intros plain.
  assert (Hpos : Forall (fun j => 0 < qty j) (getAll (stockedBrowser [plain]))).
  { rewrite getAll_stockedBrowser. constructor; [simpl; lia | constructor]. }
  split; [repeat split; exact Hpos|].
  apply (page_buttons_miss_unlabelled_line (stockedBrowser [plain]) sampleOrder
           plain (stockedBrowser_is_browser _) Hpos eq_refl).
  rewrite getAll_stockedBrowser. constructor; [|constructor]. discriminate.
Defined.

End CartPageExtras.

(** ** More on the catalogue normaliser *)

Module CatalogExtras.
Import JsStringFacts Catalog CatalogShape.

(** The grouping loop, generalised over the map built so far. *)
Lemma indexBySku_from (variants : list DbVariant) (m : gmap jsstring (list DbVariant))
    (k : jsstring) :
  m !! k <> Some [] ->
  foldl (fun bySku v =>
           match bySku !! product_sku v with
           | Some arr => <[product_sku v := arr ++ [v]]> bySku
           | None => <[product_sku v := [v]]> bySku
           end) m variants !! k
  = match default [] (m !! k) ++ rowsOf k variants with
    | [] => None
    | g => Some g
    end.
Proof.
  revert m. induction variants as [|v vs IH]; intros m Hm.
  - simpl. unfold rowsOf. rewrite filter_nil, app_nil_r.
    destruct (m !! k) as [[|x g]|]; [congruence | reflexivity | reflexivity].
  - simpl. unfold rowsOf in *.
    destruct (decide (product_sku v = k)) as [Hk|Hk].
    + rewrite filter_cons_True by exact Hk. subst k.
      destruct (m !! product_sku v) as [arr|] eqn:Hlook.
      * rewrite IH by (rewrite lookup_insert_eq; intros H; injection H;
                       now destruct arr).
        rewrite lookup_insert_eq. simpl. now rewrite <- app_assoc.
      * rewrite IH by (rewrite lookup_insert_eq; discriminate).
        rewrite lookup_insert_eq. reflexivity.
    + rewrite filter_cons_False by exact Hk.
      destruct (m !! product_sku v) as [arr|] eqn:Hlook.
      * rewrite IH by (now rewrite lookup_insert_ne).
        now rewrite lookup_insert_ne.
      * rewrite IH by (now rewrite lookup_insert_ne).
        now rewrite lookup_insert_ne.
Qed.

Lemma indexBySku_lookup (variants : list DbVariant) (k : jsstring) :
  indexBySku variants !! k
  = match rowsOf k variants with
    | [] => None
    | g => Some g
    end.
Proof.
  unfold indexBySku. rewrite indexBySku_from by (rewrite lookup_empty; discriminate).
  now rewrite lookup_empty.
Qed.

Lemma variants_toCatalogProduct {U : Unicode} (vs : list DbVariant) p :
  variants (toCatalogProduct (indexBySku vs) p)
  = match rowsOf (db_sku p) vs with
    | [] => [defaultVariant]
    | rows => map variantOf rows
    end.
Proof.
  unfold toCatalogProduct. simpl. rewrite indexBySku_lookup.
  now destruct (rowsOf (db_sku p) vs).
Qed.

Lemma fetch_returns_views {U : Unicode} productsQuery variantsQuery :
  error productsQuery = None -> error variantsQuery = None ->
  fetchCatalogProducts productsQuery variantsQuery
  = Return (map (toCatalogProduct (indexBySku (default [] (data variantsQuery))))
                (default [] (data productsQuery))).
Proof.
  intros Hp Hv. unfold fetchCatalogProducts. rewrite Hp, Hv.
  destruct (default [] (data productsQuery)); reflexivity.
Qed.

(** X14.  Variants are grouped by SKU: when both queries succeed, the
    variants of each view are the variant rows that carry the product's SKU,
    in the order the query returned them, and a product without such rows
    gets the single variant [{id: "default", label: "Padrão"}]. *)
Theorem variants_are_grouped_by_sku {U : Unicode}
    (productsQuery : QueryResult DbProduct) (variantsQuery : QueryResult DbVariant) :
  error productsQuery = None -> error variantsQuery = None ->
  exists views,
    fetchCatalogProducts productsQuery variantsQuery = Return views /\
    Forall2 (fun p view =>
               variants view =
               match rowsOf (db_sku p) (default [] (data variantsQuery)) with
               | [] => [defaultVariant]
               | rows => map variantOf rows
               end)
            (default [] (data productsQuery)) views.
Proof.
  intros Hp Hv. eexists. split; [now apply fetch_returns_views|].
  induction (default [] (data productsQuery)) as [|p ps IH]; simpl;
    constructor; [apply variants_toCatalogProduct | exact IH].
Qed.

Lemma variants_are_grouped_by_sku_witness :
  let productsQuery :=
    {| data := Some [sampleProduct None]; error := None |} in
  let variantsQuery :=
    {| data := Some [ mkDbVariant (js "v2") (js "001") (js "500g") 2;
                      mkDbVariant (js "x") (js "002") (js "1kg") 1;
                      mkDbVariant (js "v1") (js "001") (js "250g") 3 ];
       error := None |} in
  (error productsQuery = None /\ error variantsQuery = None) /\
  exists views,
    fetchCatalogProducts (U := basicLatin) productsQuery variantsQuery
    = Return views /\
    map (fun view => map label (variants view)) views
    = [[js "500g"; js "250g"]].
Proof.
  intros productsQuery variantsQuery. split; [split; reflexivity|].
  destruct (variants_are_grouped_by_sku (U := basicLatin)
              productsQuery variantsQuery eq_refl eq_refl)
    as (views & Hrun & Hall).
  exists views. split; [exact Hrun|].
  inversion Hall as [|p view ps vs Hview Hrest]; subst.
  inversion Hrest; subst. simpl. rewrite Hview. reflexivity.
Defined.

(** X15.  When the fetch throws.  A failed product query throws its message;
    a failed variant query throws its message only when there are products;
    an empty product list returns the empty catalogue without looking at the
    variant query; in every other case the fetch returns. *)
Theorem fetchCatalogProducts_failures {U : Unicode}
    (productsQuery : QueryResult DbProduct) (variantsQuery : QueryResult DbVariant) :
  (forall m, error productsQuery = Some m ->
             fetchCatalogProducts productsQuery variantsQuery
             = Raise (QueryError m)) /\
  (error productsQuery = None -> default [] (data productsQuery) = [] ->
   fetchCatalogProducts productsQuery variantsQuery = Return []) /\
  (forall m, error productsQuery = None ->
             default [] (data productsQuery) <> [] ->
             error variantsQuery = Some m ->
             fetchCatalogProducts productsQuery variantsQuery
             = Raise (QueryError m)) /\
  (error productsQuery = None -> error variantsQuery = None ->
   exists views,
     fetchCatalogProducts productsQuery variantsQuery = Return views /\
     length views = length (default [] (data productsQuery))).
Proof.
  unfold fetchCatalogProducts. repeat split.
  - intros m ->. reflexivity.
  - intros -> ->. reflexivity.
  - intros m -> Hne ->.
    destruct (default [] (data productsQuery)); [congruence | reflexivity].
  - intros -> ->. destruct (default [] (data productsQuery)) as [|p ps].
    + now exists [].
    + eexists. split; [reflexivity|]. simpl. now rewrite length_map.
Qed.

Lemma fetchCatalogProducts_failures_witness :
  error {| data := @None (list DbProduct); error := Some (js "timeout") |}
  = Some (js "timeout") /\
  fetchCatalogProducts (U := basicLatin)
    {| data := None; error := Some (js "timeout") |}
    {| data := Some []; error := None |}
  = Raise (QueryError (js "timeout")).
Proof.
  split; [reflexivity|].
  exact (proj1 (fetchCatalogProducts_failures (U := basicLatin)
                  {| data := None; error := Some (js "timeout") |}
                  {| data := Some []; error := None |})
               (js "timeout") eq_refl).
Defined.

Lemma orString_not_empty a b : b <> [] -> orString a b <> [].
Proof.
  intros Hb. unfold orString. destruct a as [[|c s]|]; simpl;
    [exact Hb | discriminate | exact Hb].
Qed.

(** X16.  What every view has: when both queries succeed each view carries
    the SKU of its row as [id], exactly one image and that image is not the
    empty string, at least one variant, a category without white space at its
    ends, and a name and description that fall back to the empty string. *)
Theorem views_are_complete {U : Unicode}
    (productsQuery : QueryResult DbProduct) (variantsQuery : QueryResult DbVariant) :
  error productsQuery = None -> error variantsQuery = None ->
  exists views,
    fetchCatalogProducts productsQuery variantsQuery = Return views /\
    Forall2 (fun p view =>
               id view = db_sku p /\
               (exists image, images view = [image] /\ image <> []) /\
               variants view <> [] /\
               trim (category view) = category view /\
               name view = default [] (db_name p) /\
               description view = default [] (db_description p))
            (default [] (data productsQuery)) views.
Proof.
  intros Hp Hv. eexists. split; [now apply fetch_returns_views|].
  induction (default [] (data productsQuery)) as [|p ps IH]; simpl;
    constructor; [|exact IH].
  split; [reflexivity|]. split; [|split; [|split; [|split; reflexivity]]].
  - eexists. split; [reflexivity|]. now apply orString_not_empty.
  - rewrite variants_toCatalogProduct.
    destruct (rowsOf (db_sku p) (default [] (data variantsQuery))); discriminate.
  - unfold toCatalogProduct. simpl. unfold normalizeCategory.
    destruct (db_category p); [apply trim_idem | reflexivity].
Qed.

Lemma views_are_complete_witness :
  let productsQuery :=
    {| data := Some [ {| db_sku := js "009"; db_name := None;
                         db_description := None; photo_url := Some [];
                         db_category := Some (js "  Mix ") |} ];
       error := None |} in
  let variantsQuery := {| data := @None (list DbVariant); error := None |} in
  (error productsQuery = None /\ error variantsQuery = None) /\
  exists views,
    fetchCatalogProducts (U := basicLatin) productsQuery variantsQuery
    = Return views /\
    map category views = [js "Mix"].
Proof.
  intros productsQuery variantsQuery. split; [split; reflexivity|].
  destruct (views_are_complete (U := basicLatin)
              productsQuery variantsQuery eq_refl eq_refl)
    as (views & Hrun & _).
  exists views. split; [exact Hrun|].
  injection Hrun as <-. reflexivity.
Defined.

(** *** The shape of slugs *)

Lemma isLowerAlnum_not_hyphen c : isLowerAlnum c = true -> c <> HYPHEN.
Proof. intros H ->. discriminate. Qed.

Lemma hyphenate_units inRun s :
  Forall (fun c => isSlugUnit c = true) (hyphenate inRun s).
Proof.
  revert inRun. induction s as [|c r IH]; intros inRun; simpl; [constructor|].
  destruct (isLowerAlnum c) eqn:Hc.
  - constructor; [|apply IH]. unfold isSlugUnit. now rewrite Hc.
  - destruct inRun; [apply IH|]. constructor; [reflexivity | apply IH].
Qed.

Lemma hyphenate_in_run s r : hyphenate true s <> HYPHEN :: r.
Proof.
  induction s as [|c s IH]; simpl; [discriminate|].
  destruct (isLowerAlnum c) eqn:Hc; [|exact IH].
  intros H. injection H as -> _. discriminate.
Qed.

Lemma hyphenate_single inRun s a b :
  hyphenate inRun s <> a ++ HYPHEN :: HYPHEN :: b.
Proof.
  revert inRun a. induction s as [|c s IH]; intros inRun a; simpl.
  - now destruct a.
  - destruct (isLowerAlnum c) eqn:Hc.
    + destruct a as [|x a]; simpl.
      * intros H. injection H as -> _. discriminate.
      * intros H. injection H as _ H. now apply IH in H.
    + destruct inRun; [apply IH|].
      destruct a as [|x a]; simpl.
      * intros H. injection H as H. now apply hyphenate_in_run in H.
      * intros H. injection H as _ H. now apply IH in H.
Qed.

Lemma dropHyphens_suffix s :
  exists p, s = p ++ dropHyphens s /\ Forall (fun c => c = HYPHEN) p.
Proof.
  induction s as [|c r (p & Hp & Hall)]; simpl.
  - exists []. now split.
  - destruct (N.eqb_spec c HYPHEN) as [->|Hc].
    + exists (HYPHEN :: p). split; [simpl; now f_equal | now constructor].
    + exists []. now split.
Qed.

Lemma dropHyphens_head s r : dropHyphens s <> HYPHEN :: r.
Proof.
  induction s as [|c s IH]; simpl; [discriminate|].
  destruct (N.eqb_spec c HYPHEN) as [->|Hc]; [exact IH|].
  intros H. injection H as -> _. now apply Hc.
Qed.

(** [stripHyphens] cuts hyphens off both ends and nothing else. *)
Lemma stripHyphens_infix s :
  exists p q,
    s = p ++ stripHyphens s ++ q /\
    Forall (fun c => c = HYPHEN) p /\ Forall (fun c => c = HYPHEN) q.
Proof.
  unfold stripHyphens.
  destruct (dropHyphens_suffix s) as (p & Hp & Hpall).
  destruct (dropHyphens_suffix (rev (dropHyphens s))) as (q & Hq & Hqall).
  exists p, (rev q). split; [|split; [exact Hpall|]].
  - rewrite <- rev_app_distr, <- Hq, rev_involutive. exact Hp.
  - apply Forall_forall. intros c Hc. apply list_elem_of_In, in_rev in Hc.
    rewrite Forall_forall in Hqall. now apply Hqall, list_elem_of_In.
Qed.

Lemma stripHyphens_head s r : stripHyphens s <> HYPHEN :: r.
Proof.
  unfold stripHyphens. intros H.
  destruct (dropHyphens_suffix (rev (dropHyphens s))) as (q & Hq & _).
  apply (f_equal (@rev N)) in Hq. rewrite rev_involutive, rev_app_distr, H in Hq.
  simpl in Hq. now apply dropHyphens_head in Hq.
Qed.

Lemma stripHyphens_last s r : stripHyphens s <> r ++ [HYPHEN].
Proof.
  unfold stripHyphens. intros H.
  apply (f_equal (@rev N)) in H. rewrite rev_involutive, rev_app_distr in H.
  simpl in H. now apply dropHyphens_head in H.
Qed.

Lemma slugify_unfold {U : Unicode} name :
  slugify name = stripHyphens (hyphenate false (foldedName name)).
Proof. reflexivity. Qed.

(** X17.  Slugs are URL-safe whatever the name and the Unicode tables: every
    code unit of [slugify(name)] is one of [a]..[z], [0]..[9] and [-], the
    slug neither starts nor ends with a hyphen, and it has no two hyphens in
    a row. *)
Theorem slugify_is_url_safe {U : Unicode} (name : jsstring) :
  Forall (fun c => isSlugUnit c = true) (slugify name) /\
  (forall r, slugify name <> HYPHEN :: r) /\
  (forall r, slugify name <> r ++ [HYPHEN]) /\
  (forall a b, slugify name <> a ++ HYPHEN :: HYPHEN :: b).
Proof.
  rewrite slugify_unfold.
  destruct (stripHyphens_infix (hyphenate false (foldedName name)))
    as (p & q & Hsplit & _ & _).
  split; [|split; [|split]].
  - pose proof (hyphenate_units false (foldedName name)) as Hall.
    rewrite Hsplit in Hall. apply Forall_app in Hall as [_ Hall].
    now apply Forall_app in Hall as [Hall _].
  - intros r. apply stripHyphens_head.
  - intros r. apply stripHyphens_last.
  - intros a b Heq. rewrite Heq in Hsplit.
    apply (hyphenate_single false (foldedName name) (p ++ a) (b ++ q)).
    rewrite Hsplit. now rewrite <- !app_assoc.
Qed.

Lemma hyphenate_only_hyphens inRun s :
  Forall (fun c => isLowerAlnum c = false) s ->
  Forall (fun c => c = HYPHEN) (hyphenate inRun s).
Proof.
  intros Hs. revert inRun. induction Hs as [|c s Hc _ IH]; intros inRun; simpl;
    [constructor|].
  rewrite Hc. destruct inRun; [apply IH | constructor; [reflexivity | apply IH]].
Qed.

Lemma dropHyphens_only_hyphens s :
  Forall (fun c => c = HYPHEN) s -> dropHyphens s = [].
Proof. induction 1 as [|c s -> _ IH]; [reflexivity | exact IH]. Qed.

Lemma dropHyphens_keeps c s : In c s -> c <> HYPHEN -> In c (dropHyphens s).
Proof.
  intros Hin Hc. induction s as [|d s IH]; [destruct Hin|]. simpl.
  destruct (N.eqb_spec d HYPHEN) as [->|Hd].
  - destruct Hin as [<- | Hin]; [now contradiction Hc | now apply IH].
  - exact Hin.
Qed.

Lemma hyphenate_keeps c inRun s :
  In c s -> isLowerAlnum c = true -> In c (hyphenate inRun s).
Proof.
  intros Hin Hc. revert inRun. induction s as [|d s IH]; intros inRun;
    [destruct Hin|]. simpl.
  destruct Hin as [-> | Hin].
  - rewrite Hc. now left.
  - destruct (isLowerAlnum d); [right; now apply IH|].
    destruct inRun; [now apply IH | right; now apply IH].
Qed.

(** [slugify] is empty exactly when the folded name has no ASCII letter or
    digit. *)
Lemma slugify_empty_iff {U : Unicode} name :
  slugify name = [] <-> Forall (fun c => isLowerAlnum c = false) (foldedName name).
Proof.
  rewrite slugify_unfold. split.
  - intros Hempty. apply Forall_forall. intros c Hin.
    destruct (isLowerAlnum c) eqn:Hc; [|reflexivity].
    exfalso. apply list_elem_of_In in Hin.
    pose proof (hyphenate_keeps c false _ Hin Hc) as H1.
    pose proof (isLowerAlnum_not_hyphen c Hc) as Hne.
    unfold stripHyphens in Hempty.
    apply (dropHyphens_keeps c _) in H1; [|exact Hne].
    apply in_rev in H1. apply (dropHyphens_keeps c _) in H1; [|exact Hne].
    apply in_rev in H1. now rewrite Hempty in H1.
  - intros Hnone. unfold stripHyphens.
    now rewrite (dropHyphens_only_hyphens _ (hyphenate_only_hyphens false _ Hnone)).
Qed.

(** X18.  The slug of a view falls back to the SKU exactly when the folded
    name (NFD, combining marks dropped, lower-cased, trimmed) has no ASCII
    letter or digit; otherwise it is the non-empty [slugify] of the name.  So
    a view has an empty slug only when its name gives none and its SKU is
    empty too. *)
Theorem slug_falls_back_to_sku {U : Unicode}
    (bySku : gmap jsstring (list DbVariant)) (p : DbProduct) :
  let name := default [] (db_name p) in
  (Forall (fun c => isLowerAlnum c = false) (foldedName name) ->
   slug (toCatalogProduct bySku p) = db_sku p) /\
  (Exists (fun c => isLowerAlnum c = true) (foldedName name) ->
   slug (toCatalogProduct bySku p) = slugify name /\ slugify name <> []) /\
  (db_sku p <> [] -> slug (toCatalogProduct bySku p) <> []).
Proof.
  intros name.
  assert (Hslug : slug (toCatalogProduct bySku p)
                  = orString (Some (slugify name)) (db_sku p)) by reflexivity.
  rewrite Hslug. split; [|split].
  - intros Hnone. apply slugify_empty_iff in Hnone. now rewrite Hnone.
  - intros Hsome.
    assert (Hne : slugify name <> []).
    { intros Hempty. apply slugify_empty_iff in Hempty.
      apply Exists_exists in Hsome as (c & Hin & Hc).
      rewrite Forall_forall in Hempty. specialize (Hempty c Hin). congruence. }
    split; [|exact Hne]. unfold orString.
    destruct (slugify name); [now contradiction Hne | reflexivity].
  - apply orString_not_empty.
Qed.

Lemma slug_falls_back_to_sku_witness :
  let symbolic := {| db_sku := js "SKU-7"; db_name := Some (js " *** ");
                     db_description := None; photo_url := None;
                     db_category := None |} in
  Forall (fun c => isLowerAlnum c = false)
         (foldedName (U := basicLatin) (default [] (db_name symbolic))) /\
  slug (toCatalogProduct (U := basicLatin) ∅ symbolic) = js "SKU-7".
Proof.
  intros symbolic.
  assert (Hnone : Forall (fun c => isLowerAlnum c = false)
                    (foldedName (U := basicLatin) (default [] (db_name symbolic)))).
  { repeat constructor. }
  split; [exact Hnone|].
  exact (proj1 (slug_falls_back_to_sku (U := basicLatin) ∅ symbolic) Hnone).
Defined.

(** Runs of [slugify] on Basic Latin names. *)
Example slugify_runs :
  slugify (U := basicLatin) (js "  Mix de Castanhas (250g) ") = js "mix-de-castanhas-250g"
  /\ slugify (U := basicLatin) (js "--A&B--") = js "a-b"
  /\ slugify (U := basicLatin) (js "***") = []
  /\ slugify (U := basicLatin) [] = [].
Proof. repeat split. Qed.

End CatalogExtras.

(** ** More on the query engine and the catalogue page *)

Module QueryExtras.
Import JsStringFacts Catalog Query CatalogPage QueryTheorems.

(** Cutting a list into windows of 9 and gluing them gives the list back. *)
Lemma windows_concat {A} (T : nat) (l : list A) :
  (length l <= 9 * T)%nat ->
  concat (map (fun k => take 9 (drop (9 * k) l)) (seq 0 T)) = l.
Proof.
  revert l. induction T as [|T IH]; intros l Hlen.
  - destruct l; [reflexivity | simpl in Hlen; lia].
  - change (seq 0 (S T)) with (0%nat :: seq 1 T).
    rewrite <- seq_shift, map_cons, map_map, concat_cons.
    rewrite Nat.mul_0_r, drop_0.
    rewrite (map_ext _ (fun k => take 9 (drop (9 * k) (drop 9 l)))).
    + rewrite IH by (rewrite length_drop; lia). apply take_drop.
    + intros k. rewrite drop_drop. f_equal. f_equal. lia.
Qed.

Lemma pageItems_window {U : Unicode} items st :
  pageItems items st =
  take 9 (drop (Z.to_nat ((safePage items st - 1) * 9)) (filtered items st)).
Proof.
  assert (Hsafe : 1 <= safePage items st).
  { unfold safePage, Text.clamp. destruct (totalPages_least items st). lia. }
  unfold pageItems, PAGE_SIZE.
  now rewrite (slice_window _ ((safePage items st - 1) * 9) 9) by lia.
Qed.

Lemma safePage_in_range {U : Unicode} items st k :
  1 <= k <= totalPages items st -> safePage items (setPage st k) = k.
Proof. intros Hk. unfold safePage, Text.clamp. simpl page.
  change (totalPages items (setPage st k)) with (totalPages items st). lia.
Qed.

(** X19.  The pages partition the result: gluing the pages [1 .. totalPages]
    in order gives the filtered list back, no page has more than 9 products,
    and the page on display is not empty as soon as something matches. *)
Theorem pages_partition_the_result {U : Unicode}
    (items : list CatalogProduct) (st : FilterState) :
  concat (map (fun k => pageItems items (setPage st k)) (pageNumbers items st))
  = filtered items st /\
  (length (pageItems items st) <= 9)%nat /\
  (filtered items st <> [] -> pageItems items st <> []).
Proof.
  destruct (totalPages_least items st) as (Hone & Hfit & Hleast).
  cbv zeta in Hfit, Hleast. unfold PAGE_SIZE in Hfit, Hleast.
  split; [|split].
  - unfold pageNumbers. rewrite map_map.
    rewrite <- seq_shift, map_map.
    rewrite (map_ext_in _ (fun j => take 9 (drop (9 * j) (filtered items st)))).
    + apply windows_concat. lia.
    + intros j Hj. apply in_seq in Hj.
      rewrite pageItems_window.
      rewrite safePage_in_range by lia.
      change (filtered items (setPage st (Z.of_nat (S j))))
        with (filtered items st).
      f_equal. f_equal. lia.
  - rewrite pageItems_window, length_take. lia.
  - intros Hsome. rewrite pageItems_window.
    assert (Hcount : 0 < Z.of_nat (length (filtered items st))).
    { destruct (filtered items st); [congruence | simpl; lia]. }
    assert (Hsafe : 1 <= safePage items st <= totalPages items st).
    { unfold safePage, Text.clamp. lia. }
    assert (Hlast : (totalPages items st - 1) * 9
                    < Z.of_nat (length (filtered items st))).
    { destruct (Z.eq_dec (totalPages items st) 1) as [->|Hne]; [lia|].
      destruct (Z_lt_le_dec ((totalPages items st - 1) * 9)
                  (Z.of_nat (length (filtered items st)))) as [Hlt|Hle];
        [exact Hlt|].
      specialize (Hleast (totalPages items st - 1)). lia. }
    intros Hnil. apply (f_equal (@length _)) in Hnil.
    rewrite length_take, length_drop in Hnil.
    change (length (@nil CatalogProduct)) with 0%nat in Hnil. lia.
Qed.

Lemma pages_partition_the_result_witness :
  filtered (U := basicLatin) sampleCatalog (unfiltered 3) <> [] /\
  pageItems (U := basicLatin) sampleCatalog (unfiltered 3) <> [].
Proof.
  assert (Hsome : filtered (U := basicLatin) sampleCatalog (unfiltered 3) <> []).
  { vm_compute. discriminate. }
  split; [exact Hsome|].
  exact (proj2 (proj2
           (pages_partition_the_result (U := basicLatin) sampleCatalog (unfiltered 3)))
         Hsome).
Defined.

Lemma setPage_same (st : FilterState) : setPage st (page st) = st.
Proof. now destruct st. Qed.

(** X20.  The pager stays in range: [prevPage] and [nextPage] always leave a
    requested page within [[1, totalPages]] and never touch the filters;
    [nextPage] on the last page and [prevPage] on the first stay there, and
    from a page below the last, [nextPage] then [prevPage] comes back. *)
Theorem pager_stays_in_range {U : Unicode}
    (items : list CatalogProduct) (st : FilterState) :
  let T := totalPages items st in
  1 <= page (nextPage items st) <= T /\
  1 <= page (prevPage items st) <= T /\
  filtered items (nextPage items st) = filtered items st /\
  filtered items (prevPage items st) = filtered items st /\
  (T <= page st -> page (nextPage items st) = T) /\
  (page st <= 1 -> page (prevPage items st) = 1) /\
  (1 <= page st < T -> prevPage items (nextPage items st) = st).
Proof.
  intros T. destruct (totalPages_least items st) as (Hone & _ & _).
  fold T in Hone. unfold nextPage, prevPage, Text.clamp. simpl page.
  fold T. repeat split; try reflexivity; try lia.
  intros Hp. unfold setPage. simpl.
  change (totalPages items _) with T.
  destruct st as [q0 c0 p0]. simpl in *. f_equal. lia.
Qed.

Lemma pager_stays_in_range_witness :
  1 <= page (unfiltered 1)
       < totalPages (U := basicLatin) sampleCatalog (unfiltered 1) /\
  prevPage (U := basicLatin) sampleCatalog
    (nextPage (U := basicLatin) sampleCatalog (unfiltered 1)) = unfiltered 1.
Proof.
  assert (Hp : 1 <= page (unfiltered 1)
                    < totalPages (U := basicLatin) sampleCatalog (unfiltered 1)).
  { split; [simpl; lia | reflexivity]. }
  split; [exact Hp|].
  exact (proj2 (proj2 (proj2 (proj2 (proj2 (proj2
           (pager_stays_in_range (U := basicLatin) sampleCatalog (unfiltered 1)))))))
         Hp).
Defined.

Lemma trimStart_all_space s :
  Forall (fun c => isWhiteSpace c = true) s -> trimStart s = [].
Proof. induction 1 as [|c s Hc _ IH]; simpl; [reflexivity | now rewrite Hc]. Qed.

(** X21.  Filters that filter nothing.  A search text made only of white
    space gives the result of the empty search text.  With a lawful case
    mapping, [clearFilters] shows every product, and after [clearFilters], a
    new search text or a new category the page on display is page 1. *)
Theorem blank_search_and_reset {U : Unicode}
    (items : list CatalogProduct) (st : FilterState) :
  (Forall (fun c => isWhiteSpace c = true) (q st) ->
   filtered items st = filtered items (setQ st [])) /\
  (LawfulCase U -> filtered items (clearFilters st) = items) /\
  safePage items (clearFilters st) = 1 /\
  (forall value, safePage items (onSearchChange st value) = 1) /\
  (forall value, safePage items (onCategoryChange st value) = 1).
Proof.
  assert (Hfirst : forall st', page st' = 1 -> safePage items st' = 1).
  { intros st' Hp. unfold safePage, Text.clamp. rewrite Hp.
    destruct (totalPages_least items st'). lia. }
  split; [|split; [|split; [|split]]].
  - intros Hblank.
    assert (Hq : Text.normalizeText (IsString (q st))
                 = Text.normalizeText (IsString [])).
    { unfold Text.normalizeText, trim.
      now rewrite (trimStart_all_space _ Hblank). }
    unfold filtered. apply filter_ext. intros p.
    unfold matches. simpl q. simpl selectedCategory. now rewrite Hq.
  - intros HU. now apply filtered_no_filters.
  - now apply Hfirst.
  - intros value. now apply Hfirst.
  - intros value. now apply Hfirst.
Qed.

Lemma blank_search_and_reset_witness :
  Forall (fun c => isWhiteSpace c = true) (q (mkFilterState (js "  ") TODAS 1)) /\
  filtered (U := basicLatin) sampleCatalog (mkFilterState (js "  ") TODAS 1)
  = filtered (U := basicLatin) sampleCatalog
      (setQ (mkFilterState (js "  ") TODAS 1) []).
Proof.
  assert (Hblank : Forall (fun c => isWhiteSpace c = true)
                          (q (mkFilterState (js "  ") TODAS 1))).
  { repeat constructor. }
  split; [exact Hblank|].
  exact (proj1 (blank_search_and_reset (U := basicLatin) sampleCatalog
                  (mkFilterState (js "  ") TODAS 1)) Hblank).
Defined.

(** *** The category list *)

Lemma setAdd_NoDup seen x : NoDup seen -> NoDup (setAdd seen x).
Proof.
  intros Hnd. unfold setAdd. destruct (bool_decide (x ∈ seen)) eqn:Hx;
    [exact Hnd|].
  apply bool_decide_eq_false in Hx. apply NoDup_app. repeat split.
  - exact Hnd.
  - intros y Hy Hin. apply list_elem_of_singleton in Hin. now subst y.
  - apply NoDup_singleton.
Qed.

Lemma setAdd_elem seen x y : y ∈ setAdd seen x <-> y ∈ seen \/ y = x.
Proof.
  unfold setAdd. destruct (bool_decide (x ∈ seen)) eqn:Hx.
  - apply bool_decide_eq_true in Hx. split; [now left|].
    intros [H | ->]; assumption.
  - rewrite elem_of_app, list_elem_of_singleton. reflexivity.
Qed.

Lemma newSet_from values seen :
  NoDup seen ->
  NoDup (foldl setAdd seen values) /\
  forall y, y ∈ foldl setAdd seen values <-> y ∈ seen \/ y ∈ values.
Proof.
  revert seen. induction values as [|x values IH]; intros seen Hnd; simpl.
  - split; [exact Hnd|]. intros y. rewrite elem_of_nil. tauto.
  - destruct (IH (setAdd seen x) (setAdd_NoDup seen x Hnd)) as [Hnd' Hel].
    split; [exact Hnd'|]. intros y.
    rewrite Hel, setAdd_elem, elem_of_cons. tauto.
Qed.

(** The category list, as a helper for what follows. *)
Lemma categories_shape (items : list CatalogProduct) :
  exists rest,
    categories items = TODAS :: rest /\
    NoDup rest /\
    forall c, c ∈ rest <->
              c <> [] /\ exists p, p ∈ items /\ trim (category p) = c.
Proof.
  unfold categories, newSet. eexists. split; [reflexivity|].
  destruct (newSet_from
              (List.filter truthy (map (fun p => trim (category p)) items))
              [] (NoDup_nil_2 (A := jsstring))) as [Hnd Hel].
  split; [exact Hnd|]. intros c. rewrite Hel, elem_of_nil.
  rewrite list_elem_of_In, filter_In, in_map_iff. split.
  - intros [[] | [(p & Hp & Hin) Hc]]. split.
    + intros ->. discriminate.
    + exists p. split; [now apply list_elem_of_In | exact Hp].
  - intros [Hc (p & Hin & Hp)]. right. split.
    + exists p. split; [exact Hp | now apply list_elem_of_In].
    + destruct c; [congruence | reflexivity].
Qed.

(** X22.  The category list is [TODAS] followed by the distinct non-empty
    trimmed categories of the products: no category is listed twice, the
    empty category is never listed, and a text is listed exactly when it is
    the non-empty trimmed category of some product. *)
Theorem categories_are_distinct (items : list CatalogProduct) :
  exists rest,
    categories items = TODAS :: rest /\
    NoDup rest /\
    forall c, c ∈ rest <->
              c <> [] /\ exists p, p ∈ items /\ trim (category p) = c.
Proof. apply categories_shape. Qed.

Lemma matches_category {U : Unicode} (HU : LawfulCase U) c n p :
  matches (mkFilterState [] c n) p
  = if bool_decide (c = TODAS) then true else bool_decide (category p = c).
Proof.
  unfold matches. simpl q. simpl selectedCategory.
  unfold Text.normalizeText at 1. change (trim []) with (@nil N).
  now rewrite (toLowerCase_nil U HU).
Qed.

(** X23.  Every category on offer finds something: with a lawful case
    mapping, when the products' categories carry no white space at their ends
    (as the normaliser leaves them), selecting a listed category without a
    search text gives a non-empty result, and, for a category other than
    [TODAS], only products of exactly that category. *)
Theorem listed_category_selects_products {U : Unicode}
    (items : list CatalogProduct) (c : jsstring) (n : Z) :
  LawfulCase U ->
  Forall (fun p => trim (category p) = category p) items ->
  In c (categories items) -> c <> TODAS ->
  filtered items (mkFilterState [] c n) <> [] /\
  Forall (fun p => category p = c) (filtered items (mkFilterState [] c n)).
Proof.
  intros HU Htrim Hin Hc.
  destruct (categories_shape items) as (rest & Hcat & _ & Hrest).
  rewrite Hcat in Hin. destruct Hin as [Heq | Hin]; [now contradiction Hc|].
  apply list_elem_of_In, Hrest in Hin as (_ & p & Hp & Hpc).
  rewrite Forall_forall in Htrim. rewrite (Htrim p Hp) in Hpc.
  split.
  - assert (Hfound : In p (filtered items (mkFilterState [] c n))).
    { unfold filtered. apply filter_In. split; [now apply list_elem_of_In|].
      rewrite (matches_category HU).
      rewrite bool_decide_eq_false_2 by exact Hc.
      now apply bool_decide_eq_true. }
    intros Hnil. now rewrite Hnil in Hfound.
  - apply Forall_forall. intros p' Hp'. apply list_elem_of_In in Hp'.
    unfold filtered in Hp'. apply filter_In in Hp' as [_ Hm].
    rewrite (matches_category HU) in Hm.
    rewrite bool_decide_eq_false_2 in Hm by exact Hc.
    now apply bool_decide_eq_true in Hm.
Qed.

Lemma listed_category_selects_products_witness :
  (LawfulCase basicLatin
   /\ Forall (fun p => trim (category p) = category p) sampleCatalog
   /\ In (js "Mix") (categories sampleCatalog) /\ js "Mix" <> TODAS)
  /\ filtered (U := basicLatin) sampleCatalog (mkFilterState [] (js "Mix") 1)
     <> [].
Proof.
  assert (Htrim : Forall (fun p => trim (category p) = category p) sampleCatalog).
  { apply Forall_forall. intros p Hp. unfold sampleCatalog in Hp.
    apply elem_of_replicate in Hp as [-> _]. reflexivity. }
  assert (Hin : In (js "Mix") (categories sampleCatalog)).
  { destruct (categories_shape sampleCatalog) as (rest & -> & _ & Hrest).
    right. apply list_elem_of_In, Hrest. split; [discriminate|].
    exists sampleView. split; [|reflexivity].
    unfold sampleCatalog. apply elem_of_replicate. split; [reflexivity | lia]. }
  assert (Hne : js "Mix" <> TODAS) by discriminate.
  split; [split; [exact basicLatin_lawful
                 | split; [exact Htrim | split; [exact Hin | exact Hne]]]|].
  exact (proj1 (listed_category_selects_products (U := basicLatin)
                  sampleCatalog (js "Mix") 1 basicLatin_lawful Htrim Hin Hne)).
Defined.

(** Without the trimming of the normaliser the promise breaks: a product
    whose category is [" Mix"] is listed under ["Mix"], and selecting ["Mix"]
    finds nothing. *)
Example untrimmed_category_is_lost :
  let odd := {| id := js "7"; slug := js "x"; name := js "X"; description := [];
                images := []; status := ENCOMENDA; category := js " Mix";
                variants := [] |} in
  categories [odd] = [TODAS; js "Mix"]
  /\ filtered (U := basicLatin) [odd] (mkFilterState [] (js "Mix") 1) = [].
Proof. split; vm_compute; reflexivity. Qed.

End QueryExtras.

(** ** The [Adicionar] button of the catalogue grid *)

Module GridExtras.
Import Cart CartFacts CartTheorems CatalogPage Numbers NumbersFacts.

Lemma firstTruthy_not_empty a b : b <> [] -> firstTruthy a b <> [].
Proof.
  intros Hb. unfold firstTruthy. destruct a as [[|c s]|]; simpl;
    [exact Hb | discriminate | exact Hb].
Qed.

Lemma chosen_cases selected p :
  (selected !! Catalog.id p = None /\ Catalog.id p ∈ OBJECT_PROTOTYPE /\
   chosen selected p = Member (Catalog.id p)) \/
  ((selected !! Catalog.id p <> None \/ Catalog.id p ∉ OBJECT_PROTOTYPE) /\
   exists label, chosen selected p = Text label /\ label <> []).
Proof.
  assert (Hfallback :
            firstTruthy (Catalog.label <$> head (variantOptions p)) (js "Padrão")
            <> []) by (apply firstTruthy_not_empty; discriminate).
  unfold chosen, readProperty.
  destruct (selected !! Catalog.id p) as [text|] eqn:Hown.
  - right. split; [left; discriminate|].
    eexists. split; [reflexivity|].
    destruct text as [|c text]; simpl; [exact Hfallback | discriminate].
  - case_bool_decide as Hin.
    + left. repeat split. exact Hin.
    + right. split; [right; exact Hin|].
      eexists. split; [reflexivity | exact Hfallback].
Qed.

(** Clicks on a line that is already the last one of the cart. *)
Lemma clicks_on_last_line (n : nat) (line : CartItem) :
  forall w others k,
    Browser w -> qty line = 1 -> 1 <= k ->
    Forall (fun i => keyOf i <> keyOf line) others ->
    getAll w = others ++ [withQty line k] ->
    getAll (times n (addToCart line) w)
    = others ++ [withQty line (k + Z.of_nat n)].
Proof.
  induction n as [|n IH]; intros w others k Hw Hq Hk Hothers Hcart.
  - simpl. rewrite Hcart. do 2 f_equal. f_equal. lia.
  - simpl times.
    destruct (addToCart_result w line Hw) as (_ & Hw1 & Hmerge & _).
    rewrite (IH (exec (addToCart line) w) others (k + 1)); try assumption.
    + do 2 f_equal. f_equal. lia.
    + lia.
    + rewrite (Hmerge others (withQty line k) [] Hcart Hothers eq_refl).
      simpl qty. rewrite Hq. do 2 f_equal.
      unfold withQty. simpl. f_equal. lia.
Qed.

(** X24.  Clicks on [Adicionar].  The label the grid passes to [addToCart]
    is not a string exactly when the product's id names a member of
    [Object.prototype] ([constructor], [toString], ...) and no variant was
    selected for it: [selectedVariant] is a plain object, and the lookup then
    gives the inherited member.  In every other case the label is a
    non-empty text, and in a working browser whose cart has no line for that
    product and label, [n >= 1] clicks, [n] a safe integer, leave the cart
    followed by one line for it, with quantity [n]; each of the additions
    [k + 1] on the way is exact on binary64. *)
Theorem grid_clicks_add_up (w : World) (selected : gmap jsstring jsstring)
    (p : Catalog.CatalogProduct) (n : nat) :
  ((exists member, chosen selected p = Member member) <->
   selected !! Catalog.id p = None /\ Catalog.id p ∈ OBJECT_PROTOTYPE) /\
  (handleAdd selected p = None <->
   selected !! Catalog.id p = None /\ Catalog.id p ∈ OBJECT_PROTOTYPE) /\
  (selected !! Catalog.id p <> None \/ Catalog.id p ∉ OBJECT_PROTOTYPE ->
   exists label click,
     chosen selected p = Text label /\ label <> [] /\
     handleAdd selected p = Some click /\
     (Browser w -> (1 <= n)%nat -> Z.of_nat n <= MAX_SAFE_INTEGER ->
      Forall (fun i => keyOf i <> keyOf (lineOf p label)) (getAll w) ->
      getAll (times n click w)
      = getAll w ++ [withQty (lineOf p label) (Z.of_nat n)] /\
      forall k, 1 <= k < Z.of_nat n -> plus64 k 1 = Some (k + 1))).
Proof.
  unfold handleAdd.
  destruct (chosen_cases selected p)
    as [(Hown & Hin & Hchosen) | (Hstring & label & Hchosen & Hlabel)];
    rewrite Hchosen.
  - split; [split; [now intros _ | intros _; now eexists]|].
    split; [split; [now intros _ | reflexivity]|].
    intros [Hsome | Hout]; contradiction.
  - split.
    { split; [intros [member Hmember]; discriminate|].
      intros [Hown Hin]. destruct Hstring as [Hsome | Hout]; contradiction. }
    split.
    { split; [discriminate|].
      intros [Hown Hin]. destruct Hstring as [Hsome | Hout]; contradiction. }
    intros _. exists label, (addToCart (lineOf p label)).
    split; [reflexivity|]. split; [exact Hlabel|]. split; [reflexivity|].
    intros Hw Hn Hsafe Hnone.
    split; [|intros k Hk; apply plus64_exact; lia].
    destruct n as [|n]; [lia|].
    simpl times.
    destruct (addToCart_result w (lineOf p label) Hw) as (_ & Hw1 & _ & Hnew).
    rewrite (clicks_on_last_line n (lineOf p label)
               (exec (addToCart (lineOf p label)) w) (getAll w) 1);
      try assumption; try reflexivity; try lia.
    + do 2 f_equal. f_equal. lia.
    + now rewrite (Hnew Hnone).
Qed.

Lemma grid_clicks_add_up_witness :
  ((Catalog.id Query.sampleView ∉ OBJECT_PROTOTYPE) /\
   Browser emptyBrowser /\ (1 <= 3)%nat /\ Z.of_nat 3 <= MAX_SAFE_INTEGER) /\
  exists label click,
    chosen ∅ Query.sampleView = Text label /\
    handleAdd ∅ Query.sampleView = Some click /\
    map qty (getAll (times 3 click emptyBrowser)) = [3].
Proof.
  assert (Hout : Catalog.id Query.sampleView ∉ OBJECT_PROTOTYPE).
  { apply (proj1 (bool_decide_eq_false _)). vm_compute. reflexivity. }
  assert (Hsafe : Z.of_nat 3 <= MAX_SAFE_INTEGER) by (vm_compute; discriminate).
  split.
  { split; [exact Hout|]. split; [exact emptyBrowser_is_browser|].
    split; [lia | exact Hsafe]. }
  destruct (proj2 (proj2 (grid_clicks_add_up emptyBrowser ∅ Query.sampleView 3))
              (or_intror Hout))
    as (label & click & Hchosen & _ & Hclick & Hadd).
  exists label, click. split; [exact Hchosen|]. split; [exact Hclick|].
  rewrite (proj1 (Hadd emptyBrowser_is_browser ltac:(lia) Hsafe
                    (List.Forall_nil _))).
  rewrite map_app. simpl. reflexivity.
Defined.

(** The defect at work: a product whose id is [constructor], with no variant
    selected, gets the inherited member as its label. *)
Example chosen_of_inherited_name :
  chosen ∅ {| Catalog.id := js "constructor"; Catalog.slug := js "c";
              Catalog.name := js "C"; Catalog.description := [];
              Catalog.images := [js "/placeholder.png"];
              Catalog.status := Catalog.ENCOMENDA;
              Catalog.category := []; Catalog.variants := [] |}
  = Member (js "constructor").
Proof. vm_compute. reflexivity. Qed.

End GridExtras.

(** ** The product page *)

Module ProductPageExtras.
Import JsStringFacts Cart CartFacts CartTheorems CartBadge CartPageExtras.
Import ProductPage Numbers Sums.

Lemma step_in_range q :
  1 <= incQty q <= 99 /\ 1 <= decQty q <= 99.
Proof. unfold incQty, decQty, Text.clamp. lia. Qed.

Lemma qtyAfter_from (clicks : list bool) (q0 : Z) :
  1 <= q0 <= 99 ->
  1 <= foldl (fun q up => if up : bool then incQty q else decQty q) q0 clicks <= 99.
Proof.
  revert q0. induction clicks as [|up clicks IH]; intros q0 Hq; simpl;
    [exact Hq|].
  apply IH. destruct up; apply step_in_range.
Qed.

(** X25.  The quantity of the product page.  Whatever the clicks on [+] and
    [-], the quantity stays within [[1, 99]].  [add] with an out-of-stock
    variant returns the notice and leaves the world as it is; with any other
    variant, in a working browser in which no stored line of that product and
    label has a negative quantity, and in which the absolute values of the
    stored quantities and the quantity on display add up to a safe integer,
    it returns normally and raises the badge count by exactly the quantity on
    display; within that bound the addition of [addToCart] and every addition
    of the two counts is exact on binary64. *)
Theorem product_page_quantity (w : World) (p : ApiProduct) (v : ApiVariant)
    (clicks : list bool) :
  1 <= qtyAfter clicks <= 99 /\
  (av_status v = SEM_ESTOQUE ->
   exists text, add (Some p) (Some v) (qtyAfter clicks) w = (Return (Notice text), w)) /\
  (av_status v <> SEM_ESTOQUE -> Browser w ->
   Forall (fun i => keyOf i = ap_id p ++ js "::" ++ av_label v -> 0 <= qty i)
          (getAll w) ->
   magnitude (getAll w) + qtyAfter clicks <= MAX_SAFE_INTEGER ->
   fst (add (Some p) (Some v) (qtyAfter clicks) w) = Return JustAdded /\
   badge (exec (add (Some p) (Some v) (qtyAfter clicks)) w)
   = badge w + qtyAfter clicks /\
   Forall (fun i => keyOf i = ap_id p ++ js "::" ++ av_label v ->
                    plus64 (qty i) (qtyAfter clicks)
                    = Some (qty i + qtyAfter clicks)) (getAll w) /\
   exactCount (getAll w) /\
   exactCount (getAll (exec (add (Some p) (Some v) (qtyAfter clicks)) w))).
Proof.
  assert (Hrange : 1 <= qtyAfter clicks <= 99)
    by (apply qtyAfter_from; lia).
  split; [exact Hrange|]. split.
  - intros Hs. unfold add. rewrite Hs. eexists. reflexivity.
  - intros Hs Hw Hqty Hsafe.
    set (line := {| sku := ap_id p; name := ap_name p;
                    photo := head (ap_images p);
                    variantLabel := Some (av_label v);
                    qty := qtyAfter clicks |}).
    assert (Hadd : add (Some p) (Some v) (qtyAfter clicks) w
                   = bind (addToCart line) (fun _ => ret JustAdded) w).
    { unfold add. destruct (av_status v); [reflexivity | congruence | reflexivity]. }
    destruct (addToCart_result w line Hw) as ([[] Hok] & _).
    assert (Hrun : addToCart line w = (Return tt, exec (addToCart line) w)).
    { unfold exec. destruct (addToCart line w) as [o w'].
      simpl in Hok |- *. now rewrite Hok. }
    assert (Hexec : exec (add (Some p) (Some v) (qtyAfter clicks)) w
                    = exec (addToCart line) w).
    { unfold exec at 1. now rewrite Hadd, (bind_run _ _ _ _ _ Hrun). }
    rewrite Hexec, Hadd, (bind_run _ _ _ _ _ Hrun). simpl fst.
    split; [reflexivity|]. split.
    + rewrite (badge_rises_by_request w line Hw Hqty). simpl qty. lia.
    + assert (Hmax : Z.max 1 (qty line) = qtyAfter clicks) by (simpl qty; lia).
      pose proof (addToCart_count_exact w line Hw Hqty) as Hexact.
      rewrite Hmax in Hexact. exact (Hexact Hsafe).
Qed.

Lemma product_page_quantity_witness :
  let p := mkApiProduct (js "A") (js "amendoim") (js "Amendoim") [] []
             DISPONIVEL [] [] in
  let v := mkApiVariant (js "v1") (js "250g") DISPONIVEL in
  (av_status v <> SEM_ESTOQUE /\ Browser (stockedBrowser [scenarioItem 4]) /\
   magnitude (getAll (stockedBrowser [scenarioItem 4]))
   + qtyAfter [true; true; false] <= MAX_SAFE_INTEGER) /\
  badge (exec (add (Some p) (Some v) (qtyAfter [true; true; false]))
              (stockedBrowser [scenarioItem 4]))
  = badge (stockedBrowser [scenarioItem 4]) + qtyAfter [true; true; false].
Proof.
  intros p v.
  assert (Hs : av_status v <> SEM_ESTOQUE) by discriminate.
  assert (Hsafe : magnitude (getAll (stockedBrowser [scenarioItem 4]))
                  + qtyAfter [true; true; false] <= MAX_SAFE_INTEGER).
  { rewrite getAll_stockedBrowser. vm_compute. discriminate. }
  split; [split; [exact Hs | split; [apply stockedBrowser_is_browser
                                     | exact Hsafe]]|].
  refine (proj1 (proj2 (proj2 (proj2
            (product_page_quantity (stockedBrowser [scenarioItem 4])
               p v [true; true; false])) Hs (stockedBrowser_is_browser _) _
            Hsafe))).
  rewrite getAll_stockedBrowser. constructor; [|constructor].
  intros _. simpl. lia.
Defined.

(** X26.  The variant on display.  For a product that was found there is
    always a selected variant, taken from the options; with no choice made
    yet, or with a choice that names no option, it is the first option (the
    made-up ["Padrão"] one when the product has no variants), and [canAdd]
    is false exactly when that variant is out of stock. *)
Theorem variant_selection_is_total (p : ApiProduct) (variantId : jsstring) :
  exists v,
    selectedVariant (Some p) variantId = Some v /\
    In v (variantOptions (Some p)) /\
    (ap_variants p = [] -> av_label v = js "Padrão") /\
    (Forall (fun o => av_id o <> effectiveVariantId variantId
                                    (variantOptions (Some p)))
            (variantOptions (Some p)) ->
     head (variantOptions (Some p)) = Some v) /\
    (variantId = [] -> head (variantOptions (Some p)) = Some v) /\
    (canAdd (Some p) (Some v) = false <-> av_status v = SEM_ESTOQUE).
Proof.
  assert (Hopts : exists o rest, variantOptions (Some p) = o :: rest).
  { unfold variantOptions. destruct (ap_variants p) as [|o rest]; simpl;
      eexists; eexists; reflexivity. }
  destruct Hopts as (o & rest & Hopts).
  assert (Hdefault : ap_variants p = [] -> variantOptions (Some p)
            = [ {| av_id := js "default"; av_label := js "Padrão";
                   av_status := ENCOMENDA |} ]).
  { intros Hnil. unfold variantOptions. now rewrite Hnil. }
  unfold selectedVariant.
  destruct (List.find _ (variantOptions (Some p))) as [v|] eqn:Hfind.
  - exists v. pose proof Hfind as Hfound.
    apply find_some in Hfind as [Hin Hid].
    apply bool_decide_eq_true in Hid.
    split; [reflexivity|]. split; [exact Hin|]. split; [|split; [|split]].
    + intros Hnil. rewrite (Hdefault Hnil) in Hin.
      destruct Hin as [<- | []]. reflexivity.
    + intros Hnone. rewrite Forall_forall in Hnone.
      exfalso. now apply (Hnone v); [apply list_elem_of_In|].
    + intros ->. rewrite Hopts in Hfound |- *. simpl. f_equal.
      unfold effectiveVariantId, firstVariantId in Hfound. simpl in Hfound.
      rewrite bool_decide_eq_true_2 in Hfound by reflexivity.
      now injection Hfound.
    + unfold canAdd. destruct (av_status v); split; congruence.
  - exists o. rewrite Hopts. simpl.
    split; [reflexivity|]. split; [now left|]. split; [|split; [|split]].
    + intros Hnil. rewrite (Hdefault Hnil) in Hopts. now injection Hopts as <- _.
    + reflexivity.
    + reflexivity.
    + unfold canAdd. destruct (av_status o); split; congruence.
Qed.

Lemma variant_selection_is_total_witness :
  let p := mkApiProduct (js "A") (js "amendoim") (js "Amendoim") [] []
             DISPONIVEL [] [] in
  ap_variants p = [] /\
  exists v, selectedVariant (Some p) (js "gone") = Some v
            /\ av_label v = js "Padrão".
Proof.
  intros p. split; [reflexivity|].
  destruct (variant_selection_is_total p (js "gone")) as (v & Hsel & _ & Hlab & _).
  exists v. split; [exact Hsel | exact (Hlab eq_refl)].
Defined.

End ProductPageExtras.

(** ** Slugs on their way from the catalogue to the product page *)

Module SlugExtras.
Import JsStringFacts Text Catalog CatalogShape ProductPage.

Lemma splitHead_app sep s r :
  hasUnit sep s = false -> splitHead sep (s ++ r) = s ++ splitHead sep r.
Proof.
  induction s as [|c s IH]; [reflexivity|].
  rewrite hasUnit_cons. intros H. apply orb_false_elim in H as [Hc Hs].
  change ((c :: s) ++ r) with (c :: (s ++ r)). cbn [splitHead].
  rewrite N.eqb_sym, Hc. now rewrite IH.
Qed.

Lemma splitHead_at sep t : splitHead sep (sep :: t) = [].
Proof. cbn [splitHead]. now rewrite N.eqb_refl. Qed.

Lemma normalizeSlug_of_noQuery {U : Unicode} x y :
  splitHead HASH (splitHead QUESTION x) = splitHead HASH (splitHead QUESTION y) ->
  normalizeSlug (IsString x) = normalizeSlug (IsString y).
Proof. intros H. unfold normalizeSlug. now rewrite H. Qed.

Lemma normalizeSlug_trimmed_lower {U : Unicode} (HU : LawfulCase U) input :
  trim (normalizeSlug input) = normalizeSlug input /\
  toLowerCase (normalizeSlug input) = normalizeSlug input.
Proof.
  destruct input as [x|]; simpl.
  - destruct (decodeURIComponent (splitHead HASH (splitHead QUESTION x))).
    + split; [apply (toLowerCase_trimmed U HU), trim_idem
             | apply (toLowerCase_idem U HU)].
    + split; [apply (toLowerCase_trimmed U HU), trim_idem
             | apply (toLowerCase_idem U HU)].
  - split; [reflexivity | apply (toLowerCase_nil U HU)].
Qed.

(** X27.  What [normalizeSlug] ignores and what it returns.  A query
    ([?...]) or a fragment ([#...]) after a slug without [?] and [#] does not
    change the normal form.  With a lawful case mapping the normal form of
    any input has no white space at its ends and is left alone by
    [toLowerCase]. *)
Theorem normalizeSlug_ignores_query_and_fragment {U : Unicode} (s t : jsstring) :
  (hasUnit QUESTION s = false -> hasUnit HASH s = false ->
   normalizeSlug (IsString (s ++ QUESTION :: t)) = normalizeSlug (IsString s) /\
   normalizeSlug (IsString (s ++ HASH :: t)) = normalizeSlug (IsString s)) /\
  (LawfulCase U -> forall input,
      trim (normalizeSlug input) = normalizeSlug input /\
      toLowerCase (normalizeSlug input) = normalizeSlug input).
Proof.
  split.
  - intros Hq Hh. split; apply normalizeSlug_of_noQuery.
    + rewrite (splitHead_app QUESTION s _ Hq), splitHead_at, app_nil_r.
      now rewrite (splitHead_absent QUESTION s Hq).
    + rewrite (splitHead_app QUESTION s _ Hq).
      change (splitHead QUESTION (HASH :: t)) with (HASH :: splitHead QUESTION t).
      rewrite (splitHead_app HASH s _ Hh), splitHead_at, app_nil_r.
      now rewrite (splitHead_absent QUESTION s Hq), (splitHead_absent HASH s Hh).
  - intros HU input. now apply normalizeSlug_trimmed_lower.
Qed.

Lemma normalizeSlug_ignores_query_and_fragment_witness :
  (hasUnit QUESTION (js "mix-de-castanhas") = false
   /\ hasUnit HASH (js "mix-de-castanhas") = false) /\
  normalizeSlug (U := basicLatin)
    (IsString (js "mix-de-castanhas" ++ QUESTION :: js "utm=1#top"))
  = normalizeSlug (U := basicLatin) (IsString (js "mix-de-castanhas")).
Proof.
  split; [split; reflexivity|].
  exact (proj1 (proj1 (normalizeSlug_ignores_query_and_fragment (U := basicLatin)
                         (js "mix-de-castanhas") (js "utm=1#top"))
                      eq_refl eq_refl)).
Defined.

(** *** Slugs made of [a-z0-9-] are in normal form *)

Lemma slug_unit_not_space c : isSlugUnit c = true -> isWhiteSpace c = false.
Proof.
  unfold isSlugUnit, isLowerAlnum, HYPHEN, isWhiteSpace.
  repeat (match goal with
          | |- context [(?a <=? ?b)%N] => destruct (N.leb_spec a b)
          | |- context [(?a =? ?b)%N] => destruct (N.eqb_spec a b)
          end; try lia);
    simpl; intros Hunit; solve [reflexivity | discriminate Hunit].
Qed.

Lemma slug_units_lack c s :
  isSlugUnit c = false -> Forall (fun d => isSlugUnit d = true) s ->
  hasUnit c s = false.
Proof.
  intros Hc Hs. induction Hs as [|d s Hd _ IH]; [reflexivity|].
  rewrite hasUnit_cons, IH. destruct (N.eqb_spec c d) as [->|]; [congruence|].
  reflexivity.
Qed.

Lemma trim_without_space s :
  Forall (fun c => isWhiteSpace c = false) s -> trim s = s.
Proof.
  intros Hs. unfold trim, trimEnd.
  assert (Hstart : forall t, Forall (fun c => isWhiteSpace c = false) t ->
                             trimStart t = t).
  { intros t Ht. destruct Ht as [|c t Hc _]; simpl; [reflexivity|].
    now rewrite Hc. }
  rewrite (Hstart s Hs), Hstart.
  - apply rev_involutive.
  - apply Forall_forall. intros c Hc. apply list_elem_of_In, in_rev in Hc.
    rewrite Forall_forall in Hs. now apply Hs, list_elem_of_In.
Qed.

Lemma normalizeSlug_of_slug {U : Unicode} (s : jsstring) :
  (forall t, Forall (fun c => isSlugUnit c = true) t -> toLowerCase t = t) ->
  Forall (fun c => isSlugUnit c = true) s ->
  normalizeSlug (IsString s) = s.
Proof.
  intros Hfix Hs. unfold normalizeSlug.
  rewrite (splitHead_absent QUESTION s (slug_units_lack QUESTION s eq_refl Hs)).
  rewrite (splitHead_absent HASH s (slug_units_lack HASH s eq_refl Hs)).
  rewrite (decodeURIComponent_no_percent s (slug_units_lack PERCENT s eq_refl Hs)).
  rewrite trim_without_space.
  - now apply Hfix.
  - eapply Forall_impl; [exact Hs|]. intros c. apply slug_unit_not_space.
Qed.

Lemma basicLatin_fixes_slugs (t : jsstring) :
  Forall (fun c => isSlugUnit c = true) t -> toLowerCase (Unicode := basicLatin) t = t.
Proof.
  intros Ht. simpl. unfold asciiLower.
  induction Ht as [|c t Hc _ IH]; [reflexivity|]. simpl. rewrite IH. f_equal.
  revert Hc. unfold isSlugUnit, isLowerAlnum, HYPHEN, lowerUnit.
  repeat (match goal with
          | |- context [(?a <=? ?b)%N] => destruct (N.leb_spec a b)
          | |- context [(?a =? ?b)%N] => destruct (N.eqb_spec a b)
          end; try lia);
    simpl; intros Hunit; solve [reflexivity | discriminate Hunit].
Qed.

(** X28.  Looking a product up by its slug.  An input whose normal form is
    empty finds nothing; a product that is found is one of the items and has
    the normal form of the input; when nothing is found no item has it.  With
    a case mapping that leaves [a-z0-9-] alone, the link the catalogue builds
    from a slug made of [a-z0-9-], also with a query after it, finds a
    product with that very slug as normal form. *)
Theorem product_lookup_by_slug {U : Unicode}
    (items : list ApiProduct) (rawSlug : unknown) :
  (normalizeSlug rawSlug = [] -> findProduct items rawSlug = None) /\
  (forall p, findProduct items rawSlug = Some p ->
             In p items /\
             normalizeSlug (IsString (ap_slug p)) = normalizeSlug rawSlug /\
             normalizeSlug rawSlug <> []) /\
  (findProduct items rawSlug = None ->
   normalizeSlug rawSlug = [] \/
   Forall (fun p => normalizeSlug (IsString (ap_slug p)) <> normalizeSlug rawSlug)
          items) /\
  ((forall t, Forall (fun c => isSlugUnit c = true) t -> toLowerCase t = t) ->
   forall p query,
     In p items -> ap_slug p <> [] ->
     Forall (fun c => isSlugUnit c = true) (ap_slug p) ->
     exists found,
       findProduct items
         (IsString (normalizeSlug (IsString (ap_slug p)) ++ QUESTION :: query))
       = Some found /\
       normalizeSlug (IsString (ap_slug found)) = ap_slug p).
Proof.
  split; [|split; [|split]].
  - intros Hempty. unfold findProduct. now rewrite Hempty.
  - intros p Hfound. unfold findProduct in Hfound.
    destruct (normalizeSlug rawSlug) as [|c r] eqn:Hn; [discriminate|].
    simpl in Hfound. apply find_some in Hfound as [Hin Hp].
    apply bool_decide_eq_true in Hp. now repeat split.
  - intros Hnone. unfold findProduct in Hnone.
    destruct (normalizeSlug rawSlug) as [|c r] eqn:Hn; [now left|].
    right. simpl in Hnone. apply Forall_forall. intros p Hp.
    apply list_elem_of_In in Hp.
    pose proof (find_none _ _ Hnone p Hp) as Hf.
    now apply bool_decide_eq_false in Hf.
  - intros Hfix p query Hin Hne Hunits.
    pose proof (normalizeSlug_of_slug (ap_slug p) Hfix Hunits) as Hself.
    assert (Hraw : normalizeSlug
                     (IsString (normalizeSlug (IsString (ap_slug p))
                                ++ QUESTION :: query)) = ap_slug p).
    { rewrite Hself. rewrite <- Hself at 2. apply normalizeSlug_of_noQuery.
      rewrite (splitHead_app QUESTION _ _
                 (slug_units_lack QUESTION _ eq_refl Hunits)).
      rewrite splitHead_at, app_nil_r.
      now rewrite (splitHead_absent QUESTION _
                     (slug_units_lack QUESTION _ eq_refl Hunits)). }
    unfold findProduct. rewrite Hraw.
    destruct (ap_slug p) as [|c r] eqn:Hslug; [congruence|]. simpl negb.
    cbv iota.
    destruct (List.find
                (fun p0 => bool_decide
                             (normalizeSlug (IsString (ap_slug p0)) = c :: r))
                items) as [found|] eqn:Hfind.
    + exists found. split; [reflexivity|].
      apply find_some in Hfind as [_ Hf]. now apply bool_decide_eq_true in Hf.
    + exfalso. pose proof (find_none _ _ Hfind p Hin) as Hf.
      apply bool_decide_eq_false in Hf. apply Hf.
      rewrite Hslug. exact Hself.
Qed.

Lemma product_lookup_by_slug_witness :
  let p := mkApiProduct (js "A") (js "mix-de-castanhas") (js "Mix") [] []
             ENCOMENDA [] [] in
  (In p [p] /\ ap_slug p <> []
   /\ Forall (fun c => isSlugUnit c = true) (ap_slug p)) /\
  exists found,
    findProduct (U := basicLatin) [p]
      (IsString (normalizeSlug (U := basicLatin) (IsString (ap_slug p))
                 ++ QUESTION :: js "ref=1"))
    = Some found.
Proof.
  intros p.
  assert (Hunits : Forall (fun c => isSlugUnit c = true) (ap_slug p)).
  { repeat constructor. }
  assert (Hne : ap_slug p <> []) by discriminate.
  split; [split; [now left | split; [exact Hne | exact Hunits]]|].
  destruct (proj2 (proj2 (proj2 (product_lookup_by_slug (U := basicLatin) [p]
                                   NotString)))
              basicLatin_fixes_slugs p (js "ref=1") (or_introl eq_refl)
              Hne Hunits) as (found & Hfound & _).
  now exists found.
Defined.

End SlugExtras.

(** ** [encodeURIComponent] against [decodeURIComponent], and the link *)

Module UriExtras.
Import JsStringFacts Uri.
Local Open Scope N_scope.

(** [lia] with division and remainder by constants. *)
Ltac nlia := zify; Z.to_euclidean_division_equations; lia.

Lemma land_mod x k : N.land x (N.ones k) = x mod 2 ^ k.
Proof. apply N.land_ones. Qed.

Lemma bits_as_arith x :
  N.land x 63 = x mod 64 /\ N.land x 31 = x mod 32 /\ N.land x 15 = x mod 16
  /\ N.land x 7 = x mod 8 /\ N.land x 1023 = x mod 1024
  /\ N.shiftr x 4 = x / 16 /\ N.shiftr x 6 = x / 64 /\ N.shiftr x 12 = x / 4096
  /\ N.shiftr x 18 = x / 262144 /\ N.shiftr x 10 = x / 1024
  /\ N.shiftl x 6 = x * 64 /\ N.shiftl x 12 = x * 4096
  /\ N.shiftl x 18 = x * 262144.
Proof.
  repeat split;
    first [ apply (land_mod x 6) | apply (land_mod x 5) | apply (land_mod x 4)
          | apply (land_mod x 3) | apply (land_mod x 10)
          | apply N.shiftr_div_pow2 | apply N.shiftl_mul_pow2 ].
Qed.

Ltac arith :=
  repeat match goal with
  | |- context [N.land ?x 63] => rewrite (proj1 (bits_as_arith x))
  | |- context [N.land ?x 31] => rewrite (proj1 (proj2 (bits_as_arith x)))
  | |- context [N.land ?x 15] => rewrite (proj1 (proj2 (proj2 (bits_as_arith x))))
  | |- context [N.land ?x 7] =>
      rewrite (proj1 (proj2 (proj2 (proj2 (bits_as_arith x)))))
  | |- context [N.land ?x 1023] =>
      rewrite (proj1 (proj2 (proj2 (proj2 (proj2 (bits_as_arith x))))))
  | |- context [N.shiftr ?x 4] =>
      rewrite (proj1 (proj2 (proj2 (proj2 (proj2 (proj2 (bits_as_arith x)))))))
  | |- context [N.shiftr ?x 6] =>
      rewrite (proj1 (proj2 (proj2 (proj2 (proj2 (proj2 (proj2 (bits_as_arith x))))))))
  | |- context [N.shiftr ?x 12] =>
      rewrite (proj1 (proj2 (proj2 (proj2 (proj2 (proj2 (proj2 (proj2 (bits_as_arith x)))))))))
  | |- context [N.shiftr ?x 18] =>
      rewrite (proj1 (proj2 (proj2 (proj2 (proj2 (proj2 (proj2 (proj2 (proj2 (bits_as_arith x))))))))))
  | |- context [N.shiftr ?x 10] =>
      rewrite (proj1 (proj2 (proj2 (proj2 (proj2 (proj2 (proj2 (proj2 (proj2 (proj2 (bits_as_arith x)))))))))))
  | |- context [N.shiftl ?x 6] =>
      rewrite (proj1 (proj2 (proj2 (proj2 (proj2 (proj2 (proj2 (proj2 (proj2 (proj2 (proj2 (bits_as_arith x))))))))))))
  | |- context [N.shiftl ?x 12] =>
      rewrite (proj1 (proj2 (proj2 (proj2 (proj2 (proj2 (proj2 (proj2 (proj2 (proj2 (proj2 (proj2 (bits_as_arith x)))))))))))))
  | |- context [N.shiftl ?x 18] =>
      rewrite (proj2 (proj2 (proj2 (proj2 (proj2 (proj2 (proj2 (proj2 (proj2 (proj2 (proj2 (proj2 (bits_as_arith x)))))))))))))
  end.

Ltac resolve_tests :=
  repeat match goal with
  | |- context [(?a <? ?b)] =>
      first [ rewrite (proj2 (N.ltb_lt a b)) by nlia
            | rewrite (proj2 (N.ltb_ge a b)) by nlia ]
  | |- context [(?a <=? ?b)] =>
      first [ rewrite (proj2 (N.leb_le a b)) by nlia
            | rewrite (proj2 (N.leb_gt a b)) by nlia ]
  end.

Lemma utf8_of_octets cp r :
  cp < 1114112 -> isSurrogate cp = false ->
  utf8 (map Oct (utf8Octets cp) ++ r) = app (utf16 cp) <$> utf8 r.
Proof.
  intros Hmax Hsur. unfold isSurrogate in Hsur. unfold utf8Octets.
  destruct (N.ltb_spec cp 128); [|destruct (N.ltb_spec cp 2048);
                                   [|destruct (N.ltb_spec cp 65536)]].
  - cbn [map app utf8]. resolve_tests. unfold utf16. resolve_tests.
    destruct (utf8 r); reflexivity.
  - cbn [map app utf8]. cbv zeta. unfold isContinuation, payload. arith.
    resolve_tests. cbn [andb].
    replace ((192 + cp / 64) mod 32 * 64 + (128 + cp mod 64) mod 64) with cp by nlia.
    reflexivity.
  - cbn [map app utf8]. cbv zeta. unfold isContinuation, payload, isSurrogate. arith.
    replace ((224 + cp / 4096) mod 16 * 4096 + (128 + cp / 64 mod 64) mod 64 * 64
             + (128 + cp mod 64) mod 64) with cp by nlia.
    resolve_tests. cbn [andb]. rewrite Hsur. reflexivity.
  - cbn [map app utf8]. cbv zeta. unfold isContinuation, payload. arith.
    replace ((240 + cp / 262144) mod 8 * 262144
             + (128 + cp / 4096 mod 64) mod 64 * 4096
             + (128 + cp / 64 mod 64) mod 64 * 64
             + (128 + cp mod 64) mod 64) with cp by nlia.
    resolve_tests. cbn [andb]. reflexivity.
Qed.

Lemma hexDigit_hexChar d : d < 16 -> hexDigit (hexChar d) = Some d.
Proof.
  intros Hd. unfold hexChar, hexDigit.
  destruct (N.ltb_spec d 10); resolve_tests; cbn [andb]; f_equal; lia.
Qed.

Lemma hexByte_escape b :
  b < 256 -> hexByte (hexChar (N.shiftr b 4)) (hexChar (N.land b 15)) = Some b.
Proof.
  intros Hb. unfold hexByte. arith.
  rewrite !hexDigit_hexChar by nlia. f_equal. nlia.
Qed.

Lemma unescape_escapeOctet b r :
  b < 256 -> unescape (escapeOctet b ++ r) = cons (Oct b) <$> unescape r.
Proof.
  intros Hb. unfold escapeOctet. cbn [app unescape].
  rewrite N.eqb_refl. now rewrite hexByte_escape.
Qed.

Lemma unescape_escaped bs r :
  Forall (fun b => b < 256) bs ->
  unescape (concat (map escapeOctet bs) ++ r) = app (map Oct bs) <$> unescape r.
Proof.
  induction 1 as [|b bs Hb _ IH].
  - cbn [map concat app]. now destruct (unescape r).
  - rewrite !map_cons, concat_cons, <- app_assoc.
    rewrite (unescape_escapeOctet b _ Hb), IH.
    now destruct (unescape r).
Qed.

Lemma utf8Octets_are_octets cp :
  cp < 1114112 -> Forall (fun b => b < 256) (utf8Octets cp).
Proof.
  intros Hmax. unfold utf8Octets.
  destruct (N.ltb_spec cp 128); [|destruct (N.ltb_spec cp 2048);
                                   [|destruct (N.ltb_spec cp 65536)]];
    repeat constructor; arith; nlia.
Qed.

Lemma unreserved_not_percent c : isUnreserved c = true -> (c =? PERCENT) = false.
Proof.
  unfold isUnreserved, PERCENT. intros H.
  destruct (N.eqb_spec c 37) as [->|]; [discriminate H | reflexivity].
Qed.

(** One step of decoding in front of an already decoded rest. *)
Lemma decode_after_literal c e s :
  (c =? PERCENT) = false ->
  unescape e ≫= utf8 = Some s ->
  unescape (c :: e) ≫= utf8 = Some (c :: s).
Proof.
  intros Hc He. cbn [unescape]. rewrite Hc.
  destruct (unescape e) as [ts|]; [|discriminate]. simpl in *. now rewrite He.
Qed.

Lemma decode_after_escape cp e s :
  cp < 1114112 -> isSurrogate cp = false ->
  unescape e ≫= utf8 = Some s ->
  unescape (escapeCodePoint cp ++ e) ≫= utf8 = Some (utf16 cp ++ s).
Proof.
  intros Hmax Hsur He. unfold escapeCodePoint.
  rewrite (unescape_escaped _ e (utf8Octets_are_octets cp Hmax)).
  destruct (unescape e) as [ts|]; [|discriminate]. simpl in *.
  rewrite (utf8_of_octets cp ts Hmax Hsur). now rewrite He.
Qed.

Lemma utf16_of_pair c d :
  isLeadSurrogate c = true -> isTrailSurrogate d = true ->
  pairCodePoint c d < 1114112 /\ isSurrogate (pairCodePoint c d) = false
  /\ utf16 (pairCodePoint c d) = [c; d].
Proof.
  unfold isLeadSurrogate, isTrailSurrogate, pairCodePoint, isSurrogate, utf16.
  intros Hc Hd.
  apply andb_true_iff in Hc as [Hc1 Hc2]. apply andb_true_iff in Hd as [Hd1 Hd2].
  apply N.leb_le in Hc1, Hc2, Hd1, Hd2.
  split; [lia|]. split.
  - resolve_tests. reflexivity.
  - arith. resolve_tests. f_equal; [nlia | f_equal; nlia].
Qed.

Lemma utf16_of_unit c :
  c < 65536 -> utf16 c = [c].
Proof. intros Hc. unfold utf16. now resolve_tests. Qed.

Lemma encode_then_decode_bounded (n : nat) :
  forall s e,
    (length s <= n)%nat ->
    Forall (fun c => c < 65536) s ->
    encode s = Some e ->
    unescape e ≫= utf8 = Some s.
Proof.
  induction n as [|n IH]; intros s e Hlen Hunits Henc.
  - destruct s; [|simpl in Hlen; lia]. simpl in Henc. now injection Henc as <-.
  - destruct s as [|c r]; [simpl in Henc; now injection Henc as <-|].
    apply Forall_cons in Hunits as [Hc Hr]. simpl in Hlen.
    cbn [encode] in Henc.
    destruct (isUnreserved c) eqn:Hun.
    + destruct (encode r) as [e'|] eqn:He'; [|discriminate].
      simpl in Henc. injection Henc as <-.
      apply decode_after_literal; [now apply unreserved_not_percent|].
      apply (IH r e'); [lia | exact Hr | exact He'].
    + destruct (isLeadSurrogate c) eqn:Hlead.
      * destruct r as [|d r']; [discriminate|].
        destruct (isTrailSurrogate d) eqn:Htrail; [|discriminate].
        destruct (encode r') as [e'|] eqn:He'; [|discriminate].
        simpl in Henc. injection Henc as <-.
        apply Forall_cons in Hr as [Hd Hr'].
        destruct (utf16_of_pair c d Hlead Htrail) as (Hmax & Hsur & H16).
        change (c :: d :: r') with ([c; d] ++ r'). rewrite <- H16.
        apply decode_after_escape; [exact Hmax | exact Hsur|].
        apply (IH r' e'); [simpl in Hlen; lia | exact Hr' | exact He'].
      * destruct (isTrailSurrogate c) eqn:Htrail; [discriminate|].
        destruct (encode r) as [e'|] eqn:He'; [|discriminate].
        simpl in Henc. injection Henc as <-.
        change (c :: r) with ([c] ++ r). rewrite <- (utf16_of_unit c Hc).
        apply decode_after_escape; [lia | |].
        -- unfold isSurrogate. unfold isLeadSurrogate, isTrailSurrogate in *.
           destruct (N.leb_spec 55296 c), (N.leb_spec c 57343); try reflexivity.
           simpl in *.
           destruct (N.leb_spec c 56319), (N.leb_spec 56320 c);
             simpl in *; try discriminate; lia.
        -- apply (IH r e'); [lia | exact Hr | exact He'].
Qed.


Lemma encode_plain_text s :
  Forall (fun c => isSurrogate c = false) s -> exists e, encode s = Some e.
Proof.
  induction 1 as [|c r Hc _ [e He]]; [now exists []|].
  assert (Hlead : isLeadSurrogate c = false /\ isTrailSurrogate c = false).
  { unfold isSurrogate, isLeadSurrogate, isTrailSurrogate in *.
    destruct (N.leb_spec 55296 c), (N.leb_spec c 57343); simpl in Hc;
      try discriminate; split; resolve_tests; reflexivity. }
  destruct Hlead as [Hlead Htrail].
  cbn [encode]. rewrite Hlead, Htrail, He.
  destruct (isUnreserved c); eexists; reflexivity.
Qed.

Lemma hexChar_unreserved d : d < 16 -> isUnreserved (hexChar d) = true.
Proof.
  intros Hd. unfold hexChar, isUnreserved.
  destruct (N.ltb_spec d 10); resolve_tests; reflexivity.
Qed.

Lemma escaped_units bs :
  Forall (fun b => b < 256) bs ->
  Forall (fun c => isUnreserved c = true \/ c = PERCENT)
         (concat (map escapeOctet bs)).
Proof.
  induction 1 as [|b bs Hb _ IH]; [constructor|].
  rewrite map_cons, concat_cons. apply Forall_app. split; [|exact IH].
  unfold escapeOctet. arith.
  constructor; [now right|].
  constructor; [left; apply hexChar_unreserved; nlia|].
  constructor; [left; apply hexChar_unreserved; nlia|].
  constructor.
Qed.

Lemma encode_units_bounded (n : nat) :
  forall s e,
    (length s <= n)%nat ->
    Forall (fun c => c < 65536) s ->
    encode s = Some e ->
    Forall (fun c => isUnreserved c = true \/ c = PERCENT) e.
Proof.
  induction n as [|n IH]; intros s e Hlen Hunits Henc.
  - destruct s; [|simpl in Hlen; lia]. simpl in Henc. injection Henc as <-.
    constructor.
  - destruct s as [|c r]; [simpl in Henc; injection Henc as <-; constructor|].
    apply Forall_cons in Hunits as [Hc Hr]. simpl in Hlen.
    cbn [encode] in Henc.
    destruct (isUnreserved c) eqn:Hun.
    + destruct (encode r) as [e'|] eqn:He'; [|discriminate].
      simpl in Henc. injection Henc as <-.
      constructor; [now left|]. apply (IH r e'); [lia | exact Hr | exact He'].
    + destruct (isLeadSurrogate c) eqn:Hlead.
      * destruct r as [|d r']; [discriminate|].
        destruct (isTrailSurrogate d) eqn:Htrail; [|discriminate].
        destruct (encode r') as [e'|] eqn:He'; [|discriminate].
        simpl in Henc. injection Henc as <-.
        apply Forall_cons in Hr as [Hd Hr'].
        destruct (utf16_of_pair c d Hlead Htrail) as (Hmax & _ & _).
        apply Forall_app. split.
        -- apply escaped_units. now apply utf8Octets_are_octets.
        -- apply (IH r' e'); [simpl in Hlen; lia | exact Hr' | exact He'].
      * destruct (isTrailSurrogate c) eqn:Htrail; [discriminate|].
        destruct (encode r) as [e'|] eqn:He'; [|discriminate].
        simpl in Henc. injection Henc as <-.
        apply Forall_app. split.
        -- apply escaped_units. apply utf8Octets_are_octets. lia.
        -- apply (IH r e'); [lia | exact Hr | exact He'].
Qed.

(** What one [encodeURIComponent] gives, as a helper for what follows. *)
Lemma encode_decode s e :
  Forall (fun c => c < 65536) s ->
  encodeURIComponent s = Return e ->
  decodeURIComponent e = Return s /\
  Forall (fun c => isUnreserved c = true \/ c = PERCENT) e.
Proof.
  intros Hunits Henc. unfold encodeURIComponent in Henc.
  destruct (encode s) as [e'|] eqn:He; [|discriminate]. injection Henc as ->.
  split.
  - unfold decodeURIComponent.
    now rewrite (encode_then_decode_bounded (length s) s e (le_n _) Hunits He).
  - exact (encode_units_bounded (length s) s e (le_n _) Hunits He).
Qed.

Lemma lead_is_escaped c :
  isLeadSurrogate c = true ->
  isUnreserved c = false /\ isTrailSurrogate c = false.
Proof.
  unfold isLeadSurrogate, isTrailSurrogate, isUnreserved. intros Hc.
  destruct (N.leb_spec 55296 c), (N.leb_spec c 56319); simpl in Hc;
    try discriminate.
  split.
  - resolve_tests.
    repeat match goal with
           | |- context [(c =? ?k)] => rewrite (proj2 (N.eqb_neq c k)) by lia
           end.
    reflexivity.
  - resolve_tests. reflexivity.
Qed.

Lemma trail_is_escaped c :
  isTrailSurrogate c = true ->
  isUnreserved c = false /\ isLeadSurrogate c = false.
Proof.
  unfold isLeadSurrogate, isTrailSurrogate, isUnreserved. intros Hc.
  destruct (N.leb_spec 56320 c), (N.leb_spec c 57343); simpl in Hc;
    try discriminate.
  split.
  - resolve_tests.
    repeat match goal with
           | |- context [(c =? ?k)] => rewrite (proj2 (N.eqb_neq c k)) by lia
           end.
    reflexivity.
  - resolve_tests. reflexivity.
Qed.

Lemma last_of_cons (x p : N) (before rest : jsstring) :
  x :: before = rest ++ [p] ->
  (before = [] /\ p = x) \/ exists rest', before = rest' ++ [p].
Proof.
  destruct rest as [|y rest]; simpl; intros Heq; injection Heq as -> ->.
  - now left.
  - right. now exists rest.
Qed.

(** A unit that is lone in [r] is lone in [x :: r], unless it is a trail at
    the head of [r] and [x] is a lead. *)
Lemma lone_after_unit x before c after :
  isLeadSurrogate x = false ->
  isLoneSurrogate before c after -> isLoneSurrogate (x :: before) c after.
Proof.
  intros Hx [Hlead | [Htrail Hprev]]; [now left|].
  right. split; [exact Htrail|]. intros rest p Heq.
  destruct (last_of_cons _ _ _ _ Heq) as [[_ ->] | [rest' ->]];
    [exact Hx | now apply (Hprev rest')].
Qed.

Lemma lone_before_unit x before c after :
  isLoneSurrogate (x :: before) c after ->
  before <> [] \/ isLeadSurrogate x = false ->
  isLoneSurrogate before c after.
Proof.
  intros [Hlead | [Htrail Hprev]] Hside; [now left|].
  right. split; [exact Htrail|]. intros rest p ->.
  apply (Hprev (x :: rest)). reflexivity.
Qed.

(** The loop stops at a lone surrogate, wherever it is. *)
Lemma encode_stops_at_lone (n : nat) :
  forall s, (length s <= n)%nat ->
  forall before c after,
    s = before ++ c :: after -> isLoneSurrogate before c after ->
    encode s = None.
Proof.
  induction n as [|n IH]; intros s Hlen before c after Hs Hlone.
  { subst s. rewrite length_app in Hlen. simpl in Hlen. lia. }
  destruct before as [|x before]; simpl in Hs; subst s.
  - (* the lone surrogate is the first unit *)
    destruct Hlone as [[Hlead Hnext] | [Htrail _]].
    + destruct (lead_is_escaped c Hlead) as [Hun _].
      cbn [encode]. rewrite Hun, Hlead.
      destruct after as [|d rest]; [reflexivity|].
      now rewrite (Hnext d rest eq_refl).
    + destruct (trail_is_escaped c Htrail) as [Hun Hlead].
      cbn [encode]. now rewrite Hun, Hlead, Htrail.
  - (* it comes later *)
    simpl in Hlen.
    cbn [encode]. destruct (isUnreserved x) eqn:Hun.
    { rewrite (IH (before ++ c :: after) ltac:(lia) before c after eq_refl);
        [reflexivity|].
      apply (lone_before_unit x); [exact Hlone|].
      right. destruct (isLeadSurrogate x) eqn:Hx; [|reflexivity].
      destruct (lead_is_escaped x Hx). congruence. }
    destruct (isLeadSurrogate x) eqn:Hx.
    { destruct before as [|d before]; simpl.
      - (* [x] is a lead and [c] follows it *)
        destruct (isTrailSurrogate c) eqn:Htrail; [|reflexivity].
        destruct Hlone as [[Hlead _] | [_ Hprev]].
        + destruct (lead_is_escaped c Hlead). congruence.
        + specialize (Hprev [] x eq_refl). congruence.
      - destruct (isTrailSurrogate d) eqn:Hd; [|reflexivity].
        rewrite (IH (before ++ c :: after)) with (before := before) (c := c)
                                                  (after := after);
          [reflexivity | | reflexivity |].
        + rewrite length_app in *. simpl in *. lia.
        + apply (lone_before_unit d).
          * apply (lone_before_unit x); [exact Hlone | left; discriminate].
          * right. now destruct (trail_is_escaped d Hd). }
    destruct (isTrailSurrogate x) eqn:Ht; [reflexivity|].
    rewrite (IH (before ++ c :: after) ltac:(lia) before c after eq_refl);
      [reflexivity|].
    apply (lone_before_unit x); [exact Hlone | now right].
Qed.

(** And it stops nowhere else. *)
Lemma encode_stops_only_at_lone (n : nat) :
  forall s, (length s <= n)%nat -> encode s = None ->
  exists before c after,
    s = before ++ c :: after /\ isLoneSurrogate before c after.
Proof.
  induction n as [|n IH]; intros s Hlen Hnone.
  { destruct s; [discriminate | simpl in Hlen; lia]. }
  destruct s as [|x r]; [discriminate|]. simpl in Hlen.
  cbn [encode] in Hnone. destruct (isUnreserved x) eqn:Hun.
  { destruct (encode r) as [e|] eqn:Hr; [discriminate|].
    destruct (IH r ltac:(lia) Hr) as (before & c & after & -> & Hlone).
    exists (x :: before), c, after. split; [reflexivity|].
    apply lone_after_unit; [|exact Hlone].
    destruct (isLeadSurrogate x) eqn:Hx; [|reflexivity].
    destruct (lead_is_escaped x Hx). congruence. }
  destruct (isLeadSurrogate x) eqn:Hx.
  { destruct r as [|d r'].
    - exists [], x, []. split; [reflexivity|]. left. split; [exact Hx|].
      discriminate.
    - destruct (isTrailSurrogate d) eqn:Hd.
      + destruct (encode r') as [e|] eqn:Hr; [discriminate|].
        simpl in Hlen.
        destruct (IH r' ltac:(lia) Hr) as (before & c & after & -> & Hlone).
        exists (x :: d :: before), c, after. split; [reflexivity|].
        destruct Hlone as [Hlead | [Htrail Hprev]]; [now left|].
        right. split; [exact Htrail|]. intros rest p Heq.
        destruct (last_of_cons _ _ _ _ Heq) as [[Hnil _] | [rest1 Heq1]];
          [discriminate|].
        destruct (last_of_cons _ _ _ _ Heq1) as [[_ ->] | [rest2 ->]].
        * now destruct (trail_is_escaped d Hd).
        * now apply (Hprev rest2).
      + exists [], x, (d :: r'). split; [reflexivity|]. left.
        split; [exact Hx|]. intros d' rest Heq. now injection Heq as <- _. }
  destruct (isTrailSurrogate x) eqn:Ht.
  { exists [], x, r. split; [reflexivity|]. right. split; [exact Ht|].
    intros rest p Heq. now destruct rest. }
  destruct (encode r) as [e|] eqn:Hr; [discriminate|].
  destruct (IH r ltac:(lia) Hr) as (before & c & after & -> & Hlone).
  exists (x :: before), c, after. split; [reflexivity|].
  now apply lone_after_unit.
Qed.

(** X29.  Encoding and decoding are a round trip: for a string of 16-bit
    code units, whatever [encodeURIComponent] returns is made of unreserved
    characters and [%] only, and [decodeURIComponent] gives the string back
    from it; a string without surrogates is always encoded; the encoding
    throws a [URIError] exactly when the string has a lone surrogate
    somewhere (a lead that no trail follows, or a trail that no lead
    precedes), and returns in every other case. *)
Theorem encodeURIComponent_round_trip (s : jsstring) :
  (Forall (fun c => c < 65536) s ->
   forall e, encodeURIComponent s = Return e ->
             decodeURIComponent e = Return s /\
             Forall (fun c => isUnreserved c = true \/ c = PERCENT) e) /\
  (Forall (fun c => isSurrogate c = false) s ->
   exists e, encodeURIComponent s = Return e) /\
  (encodeURIComponent s = Raise URIError <->
   exists before c after,
     s = before ++ c :: after /\ isLoneSurrogate before c after) /\
  ((forall before c after,
       s = before ++ c :: after -> ~ isLoneSurrogate before c after) ->
   exists e, encodeURIComponent s = Return e).
Proof.
  assert (Hraise : encodeURIComponent s = Raise URIError <->
                   exists before c after,
                     s = before ++ c :: after /\ isLoneSurrogate before c after).
  { unfold encodeURIComponent. split.
    - destruct (encode s) as [e|] eqn:Hs; [discriminate|]. intros _.
      now apply (encode_stops_only_at_lone (length s)).
    - intros (before & c & after & Hs & Hlone).
      now rewrite (encode_stops_at_lone (length s) s (Nat.le_refl _)
                     before c after Hs Hlone). }
  split; [|split; [|split]].
  - intros Hunits e Henc. now apply encode_decode.
  - intros Hplain. destruct (encode_plain_text s Hplain) as [e He].
    exists e. unfold encodeURIComponent. now rewrite He.
  - exact Hraise.
  - intros Hnone. unfold encodeURIComponent in *.
    destruct (encode s) as [e|]; [now exists e|].
    destruct (proj1 Hraise eq_refl) as (before & c & after & Hs & Hlone).
    now destruct (Hnone before c after Hs).
Qed.

Lemma encodeURIComponent_round_trip_witness :
  (Forall (fun c => c < 65536) (js "Pedido – 2x Pão (250g) & côco?") /\
   exists e,
     encodeURIComponent (js "Pedido – 2x Pão (250g) & côco?") = Return e /\
     decodeURIComponent e = Return (js "Pedido – 2x Pão (250g) & côco?")) /\
  (isLoneSurrogate (js "x") 56832 (js "y") /\
   encodeURIComponent (js "x" ++ 56832 :: js "y") = Raise URIError).
Proof.
  assert (Hunits : Forall (fun c => c < 65536) (js "Pedido – 2x Pão (250g) & côco?")).
  { apply Forall_forall. intros c Hc. apply list_elem_of_In in Hc.
    assert (Hall : forallb (fun c => c <? 65536)
                     (js "Pedido – 2x Pão (250g) & côco?") = true)
      by (vm_compute; reflexivity).
    rewrite forallb_forall in Hall. now apply N.ltb_lt, Hall. }
  assert (Hlone : isLoneSurrogate (js "x") 56832 (js "y")).
  { right. split; [reflexivity|]. intros rest p Heq.
    destruct rest as [|u rest]; [injection Heq as <-; reflexivity|].
    destruct rest; discriminate. }
  split; [split; [exact Hunits|] | split; [exact Hlone|]].
  - eexists. split; [vm_compute; reflexivity|].
    apply (proj1 (encodeURIComponent_round_trip _) Hunits).
    vm_compute. reflexivity.
  - apply (proj2 (proj1 (proj2 (proj2 (encodeURIComponent_round_trip
                                         (js "x" ++ 56832 :: js "y")))))).
    exists (js "x"), 56832, (js "y"). split; [reflexivity | exact Hlone].
Defined.

(** Runs of [encodeURIComponent]. *)
Example encodeURIComponent_runs :
  encodeURIComponent (js "a b&c/ç—") = Return (js "a%20b%26c%2F%C3%A7%E2%80%94")
  /\ encodeURIComponent [55357; 56832] = Return (js "%F0%9F%98%80")
  /\ encodeURIComponent [56832] = Raise URIError
  /\ encodeURIComponent (js "x" ++ 55357 :: js "y") = Raise URIError.
Proof. vm_compute. repeat split. Qed.

End UriExtras.

(** ** The WhatsApp link *)

Module WhatsAppExtras.
Import Cart Checkout WhatsApp Uri UriExtras.

(** X30.  When the cart page opens WhatsApp.  Before hydration or with an
    empty cart it only alerts that the cart is empty; with lines but no
    delivery choice it only alerts to choose one; otherwise, when the message
    (of 16-bit code units) is encoded, it navigates to the fixed
    [https://wa.me/5517981229285?text=] followed by an encoding from which
    [decodeURIComponent] gives the message back, and it does navigate as soon
    as the message has no surrogate. *)
Theorem openWhatsApp_guards_and_link (hydrated : bool) (st : PageState) :
  (hydrated = false \/ items st = [] ->
   openWhatsApp hydrated st = Return (Alert (js "Seu carrinho está vazio."))) /\
  (hydrated = true -> items st <> [] -> city st = NoCity ->
   exists text, openWhatsApp hydrated st = Return (Alert text)
                /\ text <> js "Seu carrinho está vazio.") /\
  (Forall (fun c => (c < 65536)%N) (buildMessage st) ->
   forall href, openWhatsApp hydrated st = Return (Navigate href) ->
     hydrated = true /\ items st <> [] /\ city st <> NoCity /\
     exists encoded,
       href = linkPrefix ++ encoded /\
       decodeURIComponent encoded = Return (buildMessage st)) /\
  (hydrated = true -> items st <> [] -> city st <> NoCity ->
   Forall (fun c => isSurrogate c = false) (buildMessage st) ->
   exists href, openWhatsApp hydrated st = Return (Navigate href)).
Proof.
  unfold openWhatsApp. split; [|split; [|split]].
  - intros [-> | Hempty]; [reflexivity|].
    rewrite Hempty. simpl. now rewrite orb_true_r.
  - intros -> Hitems Hcity. rewrite bool_decide_eq_false_2.
    + rewrite Hcity. simpl. eexists. split; [reflexivity | discriminate].
    + intros Hlen. apply Hitems. now destruct (items st).
  - intros Hunits href.
    destruct hydrated; simpl; [|discriminate].
    destruct (bool_decide (length (items st) = 0%nat)) eqn:Hlen; [discriminate|].
    apply bool_decide_eq_false in Hlen.
    assert (Hitems : items st <> []) by (intros H; apply Hlen; now rewrite H).
    unfold buildWhatsUrl.
    destruct (city st) eqn:Hcity; [discriminate | |];
      (destruct (encodeURIComponent (buildMessage st)) as [encoded|err] eqn:Henc;
       [|discriminate]);
      intros Hnav; injection Hnav as <-;
      (repeat split; [exact Hitems | discriminate |]);
      exists encoded; (split; [reflexivity|]);
      exact (proj1 (encode_decode _ _ Hunits Henc)).
  - intros -> Hitems Hcity Hplain. rewrite bool_decide_eq_false_2.
    + simpl. unfold buildWhatsUrl, encodeURIComponent.
      destruct (encode_plain_text _ Hplain) as [e He]. rewrite He.
      destruct (city st); [now contradiction Hcity | |]; eexists; reflexivity.
    + intros Hlen. apply Hitems. now destruct (items st).
Qed.

Lemma checked_units (l : jsstring) :
  forallb (fun c => (c <? 65536)%N) l = true ->
  Forall (fun c => (c < 65536)%N) l.
Proof.
  intros Hall. apply Forall_forall. intros c Hc. apply list_elem_of_In in Hc.
  rewrite forallb_forall in Hall. now apply N.ltb_lt, Hall.
Qed.

Lemma openWhatsApp_guards_and_link_witness :
  Forall (fun c => (c < 65536)%N) (buildMessage sampleOrder) /\
  exists href encoded,
    openWhatsApp true sampleOrder = Return (Navigate href) /\
    href = linkPrefix ++ encoded /\
    decodeURIComponent encoded = Return (buildMessage sampleOrder).
Proof.
  assert (Hunits : Forall (fun c => (c < 65536)%N) (buildMessage sampleOrder)).
  { apply checked_units. vm_compute. reflexivity. }
  split; [exact Hunits|].
  assert (Hnav : exists href, openWhatsApp true sampleOrder = Return (Navigate href)).
  { eexists. vm_compute. reflexivity. }
  destruct Hnav as [href Hnav].
  destruct (proj1 (proj2 (proj2 (openWhatsApp_guards_and_link true sampleOrder)))
              Hunits href Hnav) as (_ & _ & _ & encoded & Hhref & Hdec).
  exists href, encoded. now repeat split.
Defined.

End WhatsAppExtras.
